(** * kale.rpc.rok: the Rok snapshot RPC handlers

    A shallow embedding of [backend/kale/rpc/rok.py].  Python objects live in
    an explicit object store, exceptions are an error type, and the module's
    functions are written in a state-and-exception monad over a [world] that
    holds the object store, the module global [_client], the log and the state
    of the external collaborators (the Rok gateway client, the Kubernetes API,
    the pod environment). *)

From Stdlib Require Import ZArith Lia String Ascii.
From stdpp Require Import base option list gmap strings pretty.

Local Open Scope string_scope.
Local Open Scope list_scope.
Local Open Scope stdpp_scope.

(** ** Python values *)

(** Immutable scalars.  Strings are sequences of code points below 256. *)
Inductive atom :=
  | ANone
  | ABool (b : bool)
  | AInt (z : Z)
  | AStr (s : string).

(** Objects with identity (lists and dicts) are referred to by their
    location in the object store. *)
Abbreviation loc := nat (only parsing).

Inductive val :=
  | VAtom (a : atom)
  | VRef (l : loc).

(** A dict has string keys.  The order in which a dict yields its items,
    which in Python is the order of insertion, is not kept: it shows only in
    the order in which the copies of its values are allocated. *)
Inductive obj :=
  | OList (xs : list val)
  | ODict (kvs : gmap string val).

Definition VStr (s : string) : val := VAtom (AStr s).
Definition VNone : val := VAtom ANone.

Global Instance atom_eq_dec : EqDecision atom.
Proof. solve_decision. Defined.
Global Instance val_eq_dec : EqDecision val.
Proof. solve_decision. Defined.

(** ** Exceptions *)

(** An exception raised by an external collaborator is seen by this module
    through [isinstance(e, ImportError)], [e.__class__.__name__] and [str(e)]
    only.  All of them derive from [Exception]. *)
Record ext_exn := ExtExn {
  exn_class_name : string;
  exn_is_import_error : bool;
  exn_text : string
}.

(** Modelled from the spec: [kale.rpc.errors] is not among the sources; its
    two typed conditions, Not Found and Service Unavailable, carry what the
    call sites pass by keyword: an optional [message], the [details] text and
    the transaction id [trans_id]. *)
Record rpc_error := RpcError {
  rpc_message : option string;
  rpc_details : string;
  rpc_trans_id : atom
}.

Inductive exn :=
  | External (e : ext_exn)
  | KeyError (key : string)
  | ValueError (msg : string)
  | TypeError (msg : string)
  | OverflowError (msg : string)
  | SystemError (msg : string)
  | RPCNotFoundError (r : rpc_error)
  | RPCServiceUnavailableError (r : rpc_error).

Inductive result (A : Type) :=
  | Ok (a : A)
  | Raise (e : exn).
Arguments Ok {A} a.
Arguments Raise {A} e.

Definition is_rpc_error (e : exn) : bool :=
  match e with
  | RPCNotFoundError _ | RPCServiceUnavailableError _ => true
  | _ => false
  end.

(** ** Builtins used by the module *)

(** [repr] of a string: quote selection and escapes as CPython does for code
    points below 256. *)
Definition hex_digit (n : N) : ascii :=
  ascii_of_N (if (n <? 10)%N then 48 + n else 87 + n)%N.

Definition repr_char (quote : ascii) (c : ascii) : string :=
  let n := N_of_ascii c in
  if Ascii.eqb c quote then String "\" (String c "")
  else if Ascii.eqb c "\" then "\\"
  else if (n =? 9)%N then "\t"
  else if (n =? 10)%N then "\n"
  else if (n =? 13)%N then "\r"
  else if ((n <? 32) || ((127 <=? n) && (n <=? 160)) || (n =? 173))%N
       then String "\" (String "x" (String (hex_digit (n / 16)) (String (hex_digit (n mod 16)) "")))
  else String c "".

Fixpoint string_has (c : ascii) (s : string) : bool :=
  match s with
  | EmptyString => false
  | String d r => Ascii.eqb c d || string_has c r
  end.

Fixpoint repr_body (quote : ascii) (s : string) : string :=
  match s with
  | EmptyString => ""
  | String c r => repr_char quote c +:+ repr_body quote r
  end.

Definition py_repr (s : string) : string :=
  let quote : ascii :=
    if string_has "'" s && negb (string_has "034" s) then "034"%char else "'"%char in
  String quote (repr_body quote s) +:+ String quote "".

(** [str(x)] of a scalar, as [str.format] and the percent operator apply it. *)
Definition str_of_atom (a : atom) : string :=
  match a with
  | ANone => "None"
  | ABool true => "True"
  | ABool false => "False"
  | AInt z => pretty z
  | AStr s => s
  end.

(** [x == s] for a string literal [s]: only an equal string compares equal. *)
Definition atom_eq_str (a : atom) (s : string) : bool :=
  match a with
  | AStr t => String.eqb t s
  | _ => false
  end.

(** *** [int(x)] *)

(** Blanks skipped around an integer literal: the ASCII blanks and, above
    127, the code points Unicode classifies as white space. *)
Definition is_space (c : ascii) : bool :=
  let n := N_of_ascii c in
  (((9 <=? n) && (n <=? 13)) || (n =? 32) || (n =? 133) || (n =? 160))%N.

Definition digit_of (c : ascii) : option Z :=
  let n := Z.of_N (N_of_ascii c) in
  if ((48 <=? n) && (n <=? 57))%Z then Some (n - 48)%Z else None.

Fixpoint skip_spaces (s : string) : string :=
  match s with
  | String c r => if is_space c then skip_spaces r else s
  | EmptyString => s
  end.

(** Digits with single underscores between them; [after_digit] tells whether
    the previous character was a digit.  Returns the value and the rest. *)
Fixpoint scan_digits (acc : Z) (after_digit : bool) (s : string) : option (Z * string) :=
  match s with
  | EmptyString => if after_digit then Some (acc, s) else None
  | String c r =>
      match digit_of c with
      | Some d => scan_digits (10 * acc + d)%Z true r
      | None =>
          if Ascii.eqb c "_" then
            if after_digit then scan_digits acc false r else None
          else if after_digit then Some (acc, s) else None
      end
  end.

Definition parse_int (s : string) : option Z :=
  let s1 := skip_spaces s in
  let '(sign, s2) :=
    match s1 with
    | String "+" r => (1%Z, r)
    | String "-" r => ((-1)%Z, r)
    | _ => (1%Z, s1)
    end in
  match scan_digits 0 false s2 with
  | Some (v, rest) =>
      match skip_spaces rest with
      | EmptyString => Some (sign * v)%Z
      | _ => None
      end
  | None => None
  end.

Definition py_int (a : atom) : result Z :=
  match a with
  | AInt z => Ok z
  | ABool b => Ok (if b then 1 else 0)%Z
  | AStr s =>
      match parse_int s with
      | Some z => Ok z
      | None => Raise (ValueError ("invalid literal for int() with base 10: " +:+ py_repr s))
      end
  | ANone =>
      Raise (TypeError "int() argument must be a string, a bytes-like object or a number, not 'NoneType'")
  end.

(** *** True division and [math.ceil] *)

(** A finite binary64 number, [mant * 2 ^ expo]. *)
Record pyfloat := PyFloat { mant : Z; expo : Z }.

(** The double nearest to an integer (ties to the even significand of 53
    bits), as the conversion inside [int / int] performs it. *)
Definition round_to_double (n : Z) : pyfloat :=
  let a := Z.abs n in
  if (a <? 2 ^ 53)%Z then PyFloat n 0
  else
    let k := (Z.log2 a - 52)%Z in
    let q := (a / 2 ^ k)%Z in
    let r := (a mod 2 ^ k)%Z in
    let half := (2 ^ (k - 1))%Z in
    let q' := if (half <? r)%Z || ((r =? half)%Z && Z.odd q) then (q + 1)%Z else q in
    PyFloat (Z.sgn n * q') k.

(** [n / 2 ** k] for integers: the correctly rounded quotient. Dividing by a
    power of two commutes with rounding; the quotient of a nonzero integer
    by 1024 is never subnormal. *)
Definition int_truediv_pow2 (n : Z) (k : Z) : result pyfloat :=
  let x := round_to_double n in
  if (2 ^ 1024 <=? Z.abs (mant x) * 2 ^ (expo x - k))%Z
  then Raise (OverflowError "integer division result too large for a float")
  else Ok (PyFloat (mant x) (expo x - k)).

(** [x / 2 ** k] for a float: exact while the quotient stays in the normal
    range, which holds for the quotients the module takes (at least 2^-30
    in magnitude, or zero). *)
Definition float_truediv_pow2 (x : pyfloat) (k : Z) : pyfloat :=
  PyFloat (mant x) (expo x - k).

Definition math_ceil (x : pyfloat) : Z :=
  if (0 <=? expo x)%Z then (mant x * 2 ^ expo x)%Z
  else (- ((- mant x) / 2 ^ (- expo x)))%Z.

(** ** The object store *)

(** Objects are allocated at the end of the store and never freed, so a
    location is an index and every index below the length is live. *)
Abbreviation heap := (list obj) (only parsing).

Definition alloc (o : obj) (h : heap) : loc * heap := (length h, h ++ [o]).

(** How a copier adds one element to the container it is filling:
    [y.append(v)] for a list, [y[k] = v] for a dict. *)
Inductive slot :=
  | Append
  | SetKey (k : string).

Definition obj_put (s : slot) (v : val) (o : obj) : obj :=
  match s, o with
  | Append, OList xs => OList (xs ++ [v])
  | SetKey k, ODict kvs => ODict (<[k := v]> kvs)
  | _, _ => o
  end.

Definition obj_items (o : obj) : list (slot * val) :=
  match o with
  | OList xs => (fun v => (Append, v)) <$> xs
  | ODict kvs => (fun kv => (SetKey kv.1, kv.2)) <$> map_to_list kvs
  end.

Definition obj_empty (o : obj) : obj :=
  match o with
  | OList _ => OList []
  | ODict _ => ODict ∅
  end.

(** *** [copy.deepcopy] *)

(** The memo maps the identity of an object already met to its copy. *)
Abbreviation memo := (gmap loc loc) (only parsing).

Abbreviation copy_state := (heap * memo)%type (only parsing).

(** The loop of [_deepcopy_list] and [_deepcopy_dict]: copy each element
    with [cp] and add the copy to the container at [y]. *)
Fixpoint copy_items (cp : val -> copy_state -> option (val * copy_state))
    (y : loc) (items : list (slot * val)) (st : copy_state) : option copy_state :=
  match items with
  | [] => Some st
  | (s, v) :: rest =>
      match cp v st with
      | None => None
      | Some (v', (h, m)) => copy_items cp y rest (alter (obj_put s v') y h, m)
      end
  end.

(** [deepcopy(x, memo)]: a scalar is returned as it is; an object found in
    the memo yields its copy; otherwise an empty container of the same kind
    is allocated and entered in the memo before its elements are copied into
    it.  [fuel] bounds the depth of the recursion; [None] means that the fuel
    ran out or that a reference points outside the store. *)
Fixpoint deepcopy_rec (fuel : nat) (x : val) (st : copy_state) : option (val * copy_state) :=
  match x with
  | VAtom _ => Some (x, st)
  | VRef l =>
      match st.2 !! l with
      | Some y => Some (VRef y, st)
      | None =>
          match fuel with
          | O => None
          | S fuel' =>
              match st.1 !! l with
              | None => None
              | Some o =>
                  let y := length st.1 in
                  match copy_items (deepcopy_rec fuel') y (obj_items o)
                          (st.1 ++ [obj_empty o], <[l := y]> st.2) with
                  | Some st' => Some (VRef y, st')
                  | None => None
                  end
              end
          end
      end
  end.

(** The recursion never goes deeper than the number of objects in the
    store, since every level enters one more of them in the memo. *)
Definition deepcopy_heap (x : val) (h : heap) : option (val * copy_state) :=
  deepcopy_rec (length h) x (h, ∅).

(** What the copy of a value is called under a memo. *)
Definition rename (m : memo) (v : val) : val :=
  match v with
  | VRef l => match m !! l with Some y => VRef y | None => v end
  | VAtom _ => v
  end.

Definition rename_obj (m : memo) (o : obj) : obj :=
  match o with
  | OList xs => OList (rename m <$> xs)
  | ODict kvs => ODict (rename m <$> kvs)
  end.

(** References held by an object, and the objects reachable from a value. *)
Definition obj_vals (o : obj) : list val :=
  match o with
  | OList xs => xs
  | ODict kvs => (map_to_list kvs).*2
  end.

Inductive reachable (h : heap) : val -> loc -> Prop :=
  | reach_here l : reachable h (VRef l) l
  | reach_step l o v l' :
      h !! l = Some o -> v ∈ obj_vals o -> reachable h v l' ->
      reachable h (VRef l) l'.

(** [a == b] for scalars; a boolean compares as the integer 0 or 1. *)
Definition atom_eqb (a b : atom) : bool :=
  match a, b with
  | ANone, ANone => true
  | AStr s, AStr t => String.eqb s t
  | AInt x, AInt y => Z.eqb x y
  | ABool x, ABool y => Bool.eqb x y
  | ABool x, AInt y | AInt y, ABool x => Z.eqb (if x then 1 else 0) y
  | _, _ => false
  end.

Fixpoint all2 {A B} (f : A -> B -> bool) (xs : list A) (ys : list B) : bool :=
  match xs, ys with
  | [], [] => true
  | x :: xs', y :: ys' => f x y && all2 f xs' ys'
  | _, _ => false
  end.

(** [x == y] in the store [h]: two lists are equal when they have equal
    elements in the same order, two dicts when they have the same keys with
    equal values.  [fuel] bounds the depth of the comparison, which answers
    [false] when it runs out. *)
Fixpoint py_eq (fuel : nat) (h : heap) (x y : val) : bool :=
  match x, y with
  | VAtom a, VAtom b => atom_eqb a b
  | VRef l1, VRef l2 =>
      match fuel with
      | O => false
      | S fuel' =>
          match h !! l1, h !! l2 with
          | Some (OList xs), Some (OList ys) => all2 (py_eq fuel' h) xs ys
          | Some (ODict d1), Some (ODict d2) =>
              bool_decide (dom d1 = dom d2) &&
              forallb (fun kv => match d2 !! kv.1 with
                                 | Some v2 => py_eq fuel' h kv.2 v2
                                 | None => false
                                 end) (map_to_list d1)
          | _, _ => false
          end
      end
  | _, _ => false
  end.

(** A value whose objects nest at most [n] deep; such a value has no
    cycle. *)
#[warnings="-register-all"]
Inductive shallow (h : heap) : nat -> val -> Prop :=
  | shallow_atom n a : shallow h n (VAtom a)
  | shallow_ref n l o :
      h !! l = Some o -> Forall (shallow h n) (obj_vals o) -> shallow h (S n) (VRef l).

(** A store is closed when no object refers outside it. *)
Definition heap_closed (h : heap) : Prop :=
  forall l o l', h !! l = Some o -> VRef l' ∈ obj_vals o -> l' < length h.

(** [h'] holds every object of [h], unchanged. *)
Definition extends (h h' : heap) : Prop :=
  forall l o, h !! l = Some o -> h' !! l = Some o.

(** ** External collaborators *)

(** Identity of a [RokClient] instance. *)
Abbreviation handle := nat (only parsing).

Inductive outcome (A : Type) :=
  | Returns (a : A)
  | Throws (e : ext_exn).
Arguments Returns {A} a.
Arguments Throws {A} e.

(** The claim object handed to the Kubernetes API. *)
Record V1PersistentVolumeClaim := {
  api_version : string;
  metadata_annotations : gmap string atom;
  metadata_name : string;
  spec_storage_class_name : string;
  spec_access_modes : list string;
  spec_resources_requests : gmap string string
}.

(** Everything the module calls and does not define: the Rok gateway client,
    the Kubernetes client, [kale.utils.pod_utils] and the process
    environment.  A call reads and advances the state [ext] of the outside
    world and either returns or throws.  The collaborators cannot reach the
    module's globals or the request's objects. *)
Class Collaborators := {
  ext : Type;
  (** responses of the storage service that the handlers pass on unopened *)
  response : Type;
  (** running [rok_gw_client.client] when it is imported for the first time *)
  load_rok_gw_client : ext -> outcome unit * ext;
  RokClient : ext -> outcome handle * ext;
  task_get : handle -> string -> atom -> ext -> outcome response * ext;
  version_register :
    handle -> string -> string -> string -> gmap string string -> ext -> outcome response * ext;
  version_info : handle -> string -> string -> string -> ext -> outcome (gmap string atom) * ext;
  account_info : handle -> ext -> outcome unit * ext;
  version_register_suggest :
    handle -> string -> string -> string -> string -> gmap string string -> bool ->
    ext -> outcome (list (gmap string atom)) * ext;
  CoreV1Api : ext -> outcome unit * ext;
  (** returns [metadata.name] of the claim the API server created *)
  create_namespaced_persistent_volume_claim :
    string -> V1PersistentVolumeClaim -> ext -> outcome string * ext;
  create_rok_bucket : string -> handle -> ext -> outcome unit * ext;
  (** Modelled from the spec: [pod_utils.get_pod_name] and
      [pod_utils.get_namespace] are pure lookups that always succeed within
      a running pod. *)
  get_pod_name : ext -> string;
  get_namespace : ext -> string;
  getenv : string -> ext -> option string;
  (** [str(x)] of a list or dict, which the model does not spell out; it
      depends on nothing but the objects that [x] reaches *)
  container_str : heap -> loc -> string;
  container_str_stable :
    forall h h' l, heap_closed h -> extends h h' -> l < length h ->
                   container_str h' l = container_str h l
}.

(** ** The state of the process *)

Inductive log_call :=
  | LogException (logger : string) (msg : string)
  | LogError (logger : string) (msg : string).

Record world `{Collaborators} := World {
  store : heap;
  (** the module global [_client] *)
  _client : option handle;
  (** whether [sys.modules] holds [rok_gw_client.client] *)
  rok_module_loaded : bool;
  logged : list log_call;
  outside : ext
}.

(** The request context of the RPC layer: [trans_id] and, when the request
    has the attribute, [log]. *)
Record request := Request {
  trans_id : atom;
  request_log : option string
}.

(** The record built by [_get_group_members] for one group member. *)
Record member := Member {
  member_object : atom;
  member_version : atom;
  member_rok_url : atom
}.

(** *** State and exceptions *)

Definition result_bind {A B} (r : result A) (k : A -> result B) : result B :=
  match r with
  | Ok a => k a
  | Raise e => Raise e
  end.

Notation "'let?' x ':=' r 'in' k" := (result_bind r (fun x => k))
  (at level 10, x name, r at level 100, k at level 200).

Section Monad.
Context `{Collaborators}.

Definition M (A : Type) : Type := world -> result A * world.

Definition ret {A} (a : A) : M A := fun w => (Ok a, w).

Definition bind {A B} (m : M A) (k : A -> M B) : M B := fun w =>
  match m w with
  | (Ok a, w') => k a w'
  | (Raise e, w') => (Raise e, w')
  end.

Definition raise {A} (e : exn) : M A := fun w => (Raise e, w).

Definition lift {A} (r : result A) : M A := fun w => (r, w).

(** [try: m except Exception as e: handler e] *)
Definition try_except {A} (m : M A) (handler : exn -> M A) : M A := fun w =>
  match m w with
  | (Ok a, w') => (Ok a, w')
  | (Raise e, w') => handler e w'
  end.

Definition gets {A} (f : world -> A) : M A := fun w => (Ok (f w), w).

Definition set_store (h : heap) (w : world) : world :=
  World _ h (_client w) (rok_module_loaded w) (logged w) (outside w).
Definition set_client (c : option handle) (w : world) : world :=
  World _ (store w) c (rok_module_loaded w) (logged w) (outside w).
Definition set_loaded (b : bool) (w : world) : world :=
  World _ (store w) (_client w) b (logged w) (outside w).
Definition set_outside (e : ext) (w : world) : world :=
  World _ (store w) (_client w) (rok_module_loaded w) (logged w) e.
Definition add_log (c : log_call) (w : world) : world :=
  World _ (store w) (_client w) (rok_module_loaded w) (logged w ++ [c]) (outside w).

Definition modify (f : world -> world) : M unit := fun w => (Ok tt, f w).

(** A call to a collaborator. *)
Definition call {A} (f : ext -> outcome A * ext) : M A := fun w =>
  match f (outside w) with
  | (Returns a, e) => (Ok a, set_outside e w)
  | (Throws x, e) => (Raise (External x), set_outside e w)
  end.

(** [try: x = f(...) except Exception as e: handler e] around one call to a
    collaborator *)
Definition try_call {A} (f : ext -> outcome A * ext) (handler : ext_exn -> M A) : M A :=
  fun w =>
    match f (outside w) with
    | (Returns a, e) => (Ok a, set_outside e w)
    | (Throws x, e) => handler x (set_outside e w)
    end.

(** [for x in xs: body x] *)
Fixpoint for_each {A} (body : A -> M unit) (xs : list A) : M unit :=
  match xs with
  | [] => ret tt
  | x :: rest => bind (body x) (fun _ => for_each body rest)
  end.
End Monad.

Notation "'let*' x ':=' m 'in' k" := (bind m (fun x => k))
  (at level 10, x name, m at level 100, k at level 200).
Notation "m ';;;' k" := (bind m (fun _ => k))
  (at level 100, k at level 200, right associativity).

(** ** Operations on objects *)

Section Objects.
Context `{Collaborators}.

(** A reference outside the store cannot arise in a running interpreter;
    the model answers it with [SystemError]. *)
Definition dangling {A} : M A := raise (SystemError "dangling reference").

(** evaluating a list or dict display *)
Definition new (o : obj) : M val := fun w =>
  let '(l, h) := alloc o (store w) in (Ok (VRef l), set_store h w).

(** [x[k]] for a string key *)
Definition getitem (x : val) (k : string) : M val := fun w =>
  match x with
  | VRef l =>
      match store w !! l with
      | Some (ODict kvs) =>
          match kvs !! k with
          | Some v => (Ok v, w)
          | None => (Raise (KeyError k), w)
          end
      | Some (OList _) =>
          (Raise (TypeError "list indices must be integers or slices, not str"), w)
      | None => dangling w
      end
  | VAtom (AStr _) => (Raise (TypeError "string indices must be integers"), w)
  | VAtom _ => (Raise (TypeError "object is not subscriptable"), w)
  end.

(** [x[k] = v] for a string key *)
Definition setitem (x : val) (k : string) (v : val) : M unit := fun w =>
  match x with
  | VRef l =>
      match store w !! l with
      | Some (ODict kvs) => (Ok tt, set_store (<[l := ODict (<[k := v]> kvs)]> (store w)) w)
      | Some (OList _) =>
          (Raise (TypeError "list indices must be integers or slices, not str"), w)
      | None => dangling w
      end
  | VAtom _ => (Raise (TypeError "object does not support item assignment"), w)
  end.

(** [xs.append(v)] where [xs] is a list *)
Definition list_append (xs : val) (v : val) : M unit := fun w =>
  match xs with
  | VRef l =>
      match store w !! l with
      | Some (OList ys) => (Ok tt, set_store (<[l := OList (ys ++ [v])]> (store w)) w)
      | Some (ODict _) => (Raise (TypeError "'dict' object has no attribute 'append'"), w)
      | None => dangling w
      end
  | VAtom _ => (Raise (TypeError "object has no attribute 'append'"), w)
  end.

(** [str(x)] *)
Definition str_of_val (h : heap) (x : val) : string :=
  match x with
  | VAtom a => str_of_atom a
  | VRef l => container_str h l
  end.

Definition py_str (x : val) : M string := gets (fun w => str_of_val (store w) x).

(** [x == s] for a string literal [s] *)
Definition val_eq_str (x : val) (s : string) : bool :=
  match x with
  | VAtom a => atom_eq_str a s
  | VRef _ => false
  end.

(** [copy.deepcopy(x)] *)
Definition deepcopy (x : val) : M val := fun w =>
  match deepcopy_heap x (store w) with
  | Some (y, (h, _)) => (Ok y, set_store h w)
  | None => dangling w
  end.

(** [info[k]] on the flat mapping returned by the storage service *)
Definition info_getitem (info : gmap string atom) (k : string) : result atom :=
  match info !! k with
  | Some a => Ok a
  | None => Raise (KeyError k)
  end.
End Objects.

(** ** The module [kale.rpc.rok] *)

Definition DEFAULT_BUCKET : string := "notebooks".

Definition newline : string := String "010" "".

(** [NOTEBOOK_SNAPSHOT_COMMIT_MESSAGE.format(a, b)] *)
Definition NOTEBOOK_SNAPSHOT_COMMIT_MESSAGE (a b : string) : string :=
  "This is a snapshot of notebook " +:+ a +:+ " in namespace " +:+ b +:+ "." +:+ newline +:+
  newline +:+
  "This snapshot was created by Kale in order to clone the volumes of the notebook" +:+ newline +:+
  "and use them to spawn a Kubeflow pipeline.".

(** name of the module logger, [logging.getLogger(__name__)] *)
Definition logger : string := "kale.rpc.rok".

Section Rok.
Context `{Collaborators}.

Definition log_exception (log : string) (msg : string) : M unit :=
  modify (add_log (LogException log msg)).
Definition log_error (log : string) (msg : string) : M unit :=
  modify (add_log (LogError log msg)).

(** [from rok_gw_client.client import RokClient]: a module that was
    imported once is found in [sys.modules]. *)
Definition import_RokClient : M unit := fun w =>
  if rok_module_loaded w then (Ok tt, w)
  else
    match load_rok_gw_client (outside w) with
    | (Returns _, e) => (Ok tt, set_loaded true (set_outside e w))
    | (Throws x, e) => (Raise (External x), set_outside e w)
    end.

Definition _get_client : M handle :=
  import_RokClient ;;;
  let* c := gets _client in
  match c with
  | None =>
      let* c' := call RokClient in
      modify (set_client (Some c')) ;;;
      ret c'
  | Some c' => ret c'
  end.

Definition get_task (request : request) (task_id : atom) (bucket : string) : M response :=
  let* rok := _get_client in
  call (task_get rok bucket task_id).

(** the [params] of [snapshot_notebook]; [hostname] is [None] when the
    variable is not set *)
Definition notebook_params (hostname : atom) (namespace : string) : gmap string string :=
  let commit_title := "Snapshot of notebook " +:+ str_of_atom hostname in
  let commit_message := NOTEBOOK_SNAPSHOT_COMMIT_MESSAGE (str_of_atom hostname) namespace in
  <["commit_message" := commit_message]>
    (<["commit_title" := commit_title]> {["namespace" := namespace]}).

(** the [params] of [snapshot_pvc] *)
Definition pvc_params (pvc_name : string) (namespace : string) : gmap string string :=
  let commit_title := "Snapshot of PVC " +:+ pvc_name in
  let commit_message := "Snapshot of PVC " +:+ pvc_name +:+ " for an InferenceServer" in
  <["commit_message" := commit_message]>
    (<["commit_title" := commit_title]>
       (<["namespace" := namespace]> {["dataset" := pvc_name]})).

Definition snapshot_notebook (request : request) (bucket : string) (obj : option string)
    : M response :=
  let* rok := _get_client in
  let* hostname := gets (fun w =>
    match getenv "HOSTNAME" (outside w) with Some s => AStr s | None => ANone end) in
  let* namespace := gets (fun w => get_namespace (outside w)) in
  let params := notebook_params hostname namespace in
  let* obj :=
    match obj with
    | Some o => if String.eqb o "" then gets (fun w => get_pod_name (outside w)) else ret o
    | None => gets (fun w => get_pod_name (outside w))
    end in
  call (create_rok_bucket bucket rok) ;;;
  call (version_register rok bucket obj "jupyter" params).

Definition snapshot_pvc (request : request) (pvc_name : string) (bucket : string)
    : M response :=
  let* rok := _get_client in
  let* namespace := gets (fun w => get_namespace (outside w)) in
  let params := pvc_params pvc_name namespace in
  call (create_rok_bucket bucket rok) ;;;
  call (version_register rok bucket pvc_name "dataset" params).

(** [math.ceil(int(content_length) / 1024 / 1024 / 1024)] *)
Definition snapshot_size_gi (content_length : atom) : result Z :=
  let? n := py_int content_length in
  let? x := int_truediv_pow2 n 10 in
  Ok (math_ceil (float_truediv_pow2 (float_truediv_pow2 x 10) 10)).

(** the [V1PersistentVolumeClaim] that [hydrate_pvc_from_snapshot] builds *)
Definition rok_claim (new_pvc_name : string) (rok_url : atom) (size : Z)
    : V1PersistentVolumeClaim := {|
  api_version := "v1";
  metadata_annotations :=
    <["rok/origin" := rok_url]> {["rok/creds-secret-name" := AStr "rok-secret-user"]};
  metadata_name := new_pvc_name;
  spec_storage_class_name := "rok";
  spec_access_modes := ["ReadWriteOnce"];
  spec_resources_requests := {["storage" := pretty size +:+ "Gi"]}
|}.

Definition hydrate_pvc_from_snapshot (request : request)
    (obj version new_pvc_name bucket : string) : M val :=
  let* rok := _get_client in
  let* info := call (version_info rok bucket obj version) in
  let* content_length := lift (info_getitem info "content_length") in
  let* size := lift (snapshot_size_gi content_length) in
  let* rok_url := lift (info_getitem info "rok_url") in
  let pvc := rok_claim new_pvc_name rok_url size in
  call CoreV1Api ;;;
  let* ns := gets (fun w => get_namespace (outside w)) in
  let* ns_pvc_name := call (create_namespaced_persistent_volume_claim ns pvc) in
  let* r := new (ODict {["name" := VStr ns_pvc_name]}) in
  ret r.

Definition py_range (n : Z) : list Z := seqZ 0 n.

(** ["group_member_%d_<field>" % i] *)
Definition member_key (i : Z) (field : string) : string :=
  "group_member_" +:+ pretty i +:+ "_" +:+ field.

(** the [for i in range(member_cnt)] loop, [members] being the list built
    so far *)
Fixpoint _get_group_members_loop (info : gmap string atom) (indices : list Z)
    (members : list member) : result (list member) :=
  match indices with
  | [] => Ok members
  | i :: rest =>
      let? member_obj := info_getitem info (member_key i "object") in
      let? member_version := info_getitem info (member_key i "version") in
      let? member_url := info_getitem info (member_key i "url") in
      _get_group_members_loop info rest
        (members ++ [Member member_obj member_version member_url])
  end.

Definition _get_group_members (info : gmap string atom) : result (list member) :=
  let? count := info_getitem info "group_member_count" in
  let? member_cnt := py_int count in
  _get_group_members_loop info (py_range member_cnt) [].

(** the [for member in members] loop; [Some] is a [return] from inside it *)
Fixpoint _get_cloned_volume_loop (volume : val) (member_name : string)
    (members : list member) : M (option val) :=
  match members with
  | [] => ret None
  | member :: rest =>
      if atom_eq_str (member_object member) member_name then
        let* volume := deepcopy volume in
        setitem volume "type" (VStr "new_pvc") ;;;
        let* a := new (ODict (<["value" := VAtom (member_rok_url member)]>
                                {["key" := VStr "rok/origin"]})) in
        let* annotations := new (OList [a]) in
        setitem volume "annotations" annotations ;;;
        ret (Some volume)
      else _get_cloned_volume_loop volume member_name rest
  end.

Definition _get_cloned_volume (volume : val) (obj_name : string) (members : list member)
    : M val :=
  let* name := getitem volume "name" in
  let* name_str := py_str name in
  let member_name := obj_name +:+ "_" +:+ name_str in
  let* returned := _get_cloned_volume_loop volume member_name members in
  match returned with
  | Some volume => ret volume
  | None =>
      let* name := getitem volume "name" in
      let* name_str := py_str name in
      let msg := "Volume '" +:+ name_str +:+ "' not found in group '" +:+ obj_name +:+ "'" in
      raise (ValueError msg)
  end.

(** [volumes] is the sequence of descriptors that the loop goes through; the
    function reads it and writes to none of its elements. *)
Definition replace_cloned_volumes (request : request) (bucket obj version : string)
    (volumes : list val) : M val :=
  let* rok := _get_client in
  let* info := call (version_info rok bucket obj version) in
  let* members := lift (_get_group_members info) in
  let* _volumes := new (OList []) in
  for_each (fun volume =>
      let* type := getitem volume "type" in
      let* volume :=
        if val_eq_str type "clone" then _get_cloned_volume volume obj members
        else ret volume in
      list_append _volumes volume)
    volumes ;;;
  ret _volumes.

Definition is_ImportError (e : exn) : bool :=
  match e with
  | External x => exn_is_import_error x
  | _ => false
  end.

(** [any(s["value"] == name for s in suggestions)] *)
Fixpoint any_suggestion_is (name : string) (suggestions : list (gmap string atom))
    : result bool :=
  match suggestions with
  | [] => Ok false
  | s :: rest =>
      let? value := info_getitem s "value" in
      if atom_eq_str value name then Ok true else any_suggestion_is name rest
  end.

Definition check_rok_availability (request : request) : M val :=
  let log := match request_log request with Some l => l | None => logger end in
  let* rok :=
    try_except _get_client (fun e =>
      if is_ImportError e then
        log_exception log "Failed to import RokClient" ;;;
        raise (RPCNotFoundError
                 (RpcError None "Rok Gateway Client module not found" (trans_id request)))
      else
        log_exception log "Failed to initialize RokClient" ;;;
        raise (RPCServiceUnavailableError
                 (RpcError None "Failed to initialize RokClient" (trans_id request)))) in
  try_call (account_info rok) (fun _ =>
      log_exception log "Failed to retrieve account information" ;;;
      raise (RPCServiceUnavailableError
               (RpcError None "Failed to access Rok" (trans_id request)))) ;;;
  let* name := gets (fun w => get_pod_name (outside w)) in
  let* namespace := gets (fun w => get_namespace (outside w)) in
  let* suggestions :=
    try_call
      (version_register_suggest rok DEFAULT_BUCKET name "jupyter" "params:lab"
         {["namespace" := namespace]} true)
      (fun e =>
         log_exception log "Failed to list lab suggestions" ;;;
         let message := exn_class_name e +:+ ": " +:+ exn_text e in
         raise (RPCServiceUnavailableError
                  (RpcError (Some message) "Rok cannot list notebooks in this namespace"
                     (trans_id request)))) in
  let* found := lift (any_suggestion_is name suggestions) in
  if negb found then
    log_error log ("Could not find notebook '" +:+ name +:+ "' in list of suggestions") ;;;
    raise (RPCNotFoundError
             (RpcError None "Could not find this notebook in notebooks listed by Rok"
                (trans_id request)))
  else ret VNone.
End Rok.

(** ** The module as a transition system *)

(** One call from the RPC layer into the module, with its arguments. *)
Inductive entry :=
  | Enter_get_client
  | Enter_get_task (r : request) (task_id : atom) (bucket : string)
  | Enter_snapshot_notebook (r : request) (bucket : string) (obj : option string)
  | Enter_snapshot_pvc (r : request) (pvc_name bucket : string)
  | Enter_hydrate_pvc_from_snapshot (r : request) (obj version new_pvc_name bucket : string)
  | Enter_replace_cloned_volumes (r : request) (bucket obj version : string) (volumes : list val)
  | Enter_check_rok_availability (r : request).

Section Transitions.
Context `{Collaborators}.

(** The world after a call, whether it returned or raised. *)
Definition run (c : entry) (w : world) : world :=
  match c with
  | Enter_get_client => (_get_client w).2
  | Enter_get_task r t b => (get_task r t b w).2
  | Enter_snapshot_notebook r b o => (snapshot_notebook r b o w).2
  | Enter_snapshot_pvc r p b => (snapshot_pvc r p b w).2
  | Enter_hydrate_pvc_from_snapshot r o v n b => (hydrate_pvc_from_snapshot r o v n b w).2
  | Enter_replace_cloned_volumes r b o v vs => (replace_cloned_volumes r b o v vs w).2
  | Enter_check_rok_availability r => (check_rok_availability r w).2
  end.

Definition run_all (cs : list entry) (w : world) : world := fold_left (fun w c => run c w) cs w.

(** the state of a freshly started process *)
Definition initial (h : heap) (e : ext) : world := World _ h None false [] e.

(** what holds of every state the process can be in: a cached client was
    built by [RokClient], which the import made available *)
Definition world_ok (w : world) : Prop :=
  is_Some (_client w) -> rok_module_loaded w = true.
End Transitions.

(** ** Notions used to state the properties *)

(** The member that the metadata describes at index [i], when its three
    keys are there. *)
Definition member_at (info : gmap string atom) (i : Z) : option member :=
  match info !! member_key i "object", info !! member_key i "version",
        info !! member_key i "url" with
  | Some o, Some v, Some u => Some (Member o v u)
  | _, _, _ => None
  end.

(** The first key of member [i], in the order the loop reads them, that the
    metadata lacks. *)
Definition first_absent_key (info : gmap string atom) (i : Z) : option string :=
  match info !! member_key i "object", info !! member_key i "version",
        info !! member_key i "url" with
  | None, _, _ => Some (member_key i "object")
  | Some _, None, _ => Some (member_key i "version")
  | Some _, Some _, None => Some (member_key i "url")
  | Some _, Some _, Some _ => None
  end.

(** The logger [check_rok_availability] writes to. *)
Definition log_of (r : request) : string :=
  match request_log r with Some l => l | None => logger end.

(** The five conditions [check_rok_availability] raises, for the
    transaction id [t]. *)
Definition module_not_found (t : atom) : exn :=
  RPCNotFoundError (RpcError None "Rok Gateway Client module not found" t).
Definition client_not_initialized (t : atom) : exn :=
  RPCServiceUnavailableError (RpcError None "Failed to initialize RokClient" t).
Definition rok_not_accessible (t : atom) : exn :=
  RPCServiceUnavailableError (RpcError None "Failed to access Rok" t).
Definition cannot_list_notebooks (x : ext_exn) (t : atom) : exn :=
  RPCServiceUnavailableError
    (RpcError (Some (exn_class_name x +:+ ": " +:+ exn_text x))
       "Rok cannot list notebooks in this namespace" t).
Definition notebook_not_listed (t : atom) : exn :=
  RPCNotFoundError (RpcError None "Could not find this notebook in notebooks listed by Rok" t).

Definition rpc_error_of (e : exn) : option rpc_error :=
  match e with
  | RPCNotFoundError r | RPCServiceUnavailableError r => Some r
  | _ => None
  end.

(** A value of the store [h]: a scalar or a reference to one of its objects. *)
Definition val_in (h : heap) (v : val) : Prop :=
  forall l, v = VRef l -> l < length h.

(** Under the memo [m], the object at [l] of the original store [h0] has
    its finished copy at [y] in [h]: the same container with every
    reference replaced by the copy of what it referred to. *)
Definition copied (h0 h : heap) (m : memo) (l y : loc) : Prop :=
  exists o,
    h0 !! l = Some o /\ h !! y = Some (rename_obj m o) /\
    forall l', VRef l' ∈ obj_vals o -> is_Some (m !! l').

(** What holds of the copier's state throughout: the original store [h0] is
    untouched, the memo maps objects of [h0] to cells allocated since, every
    cell allocated since is the copy of some object, and no cell is the copy
    of two. *)
Definition copy_inv (h0 : heap) (st : copy_state) : Prop :=
  extends h0 st.1 /\
  (forall l y, st.2 !! l = Some y -> l < length h0 /\ length h0 <= y < length st.1) /\
  (forall y, length h0 <= y < length st.1 -> exists l, st.2 !! l = Some y) /\
  (forall l1 l2 y, st.2 !! l1 = Some y -> st.2 !! l2 = Some y -> l1 = l2).

(** What one call of the copier on [x] establishes, from state [st] to
    state [st'] with result [x']: nothing that existed is written, the memo
    only grows, the result is the copy the memo names, and every entry the
    call added to the memo is a finished copy in a cell allocated by it. *)
Definition copy_post (h0 : heap) (x : val) (st : copy_state) (x' : val) (st' : copy_state)
    : Prop :=
  extends st.1 st'.1 /\ st.2 ⊆ st'.2 /\ copy_inv h0 st' /\
  x' = rename st'.2 x /\
  (forall l, x = VRef l -> is_Some (st'.2 !! l)) /\
  (forall l y, st'.2 !! l = Some y -> st.2 !! l = None ->
     length st.1 <= y /\ copied h0 st'.1 st'.2 l y).

(** A copier that returns, with [copy_post], whenever [fuel] covers the
    objects of [h0] not yet in the memo. *)
Definition copier_ok (h0 : heap) (fuel : nat)
    (cp : val -> copy_state -> option (val * copy_state)) : Prop :=
  forall x st,
    copy_inv h0 st -> val_in h0 x -> length h0 <= size st.2 + fuel ->
    exists x' st', cp x st = Some (x', st') /\ copy_post h0 x st x' st'.

(** Every object of [h] from location [n] on refers only to objects from
    [n] on. *)
Definition fresh_closed (n : nat) (h : heap) : Prop :=
  forall y o l, n <= y -> h !! y = Some o -> VRef l ∈ obj_vals o -> n <= l < length h.

(** The annotation [{key: rok/origin, value: url}]. *)
Definition origin_annotation (url : atom) : obj :=
  ODict (<["value" := VAtom url]> {["key" := VStr "rok/origin"]}).

(** The fields of a resolved clone: those of the copy [rename m <$> d] of
    the input, with [type] and [annotations] set. *)
Definition new_pvc_fields (m : memo) (d : gmap string val) (annotations : loc)
    : gmap string val :=
  <["annotations" := VRef annotations]> (<["type" := VStr "new_pvc"]> (rename m <$> d)).

(** The store [h'] after the volume at [l], with fields [d], was resolved
    against a member with origin [url] in store [h]: the result is at [y],
    its annotation list at [la], the annotation at [ld], and [m] maps every
    object reachable from the input to its copy. *)
Definition cloned (h h' : heap) (l : loc) (d : gmap string val) (url : atom)
    (y : loc) (m : memo) (la ld : loc) : Prop :=
  extends h h' /\
  m !! l = Some y /\
  (forall l1 y1, m !! l1 = Some y1 -> l1 < length h /\ length h <= y1 < length h') /\
  (forall l1 l2 y1, m !! l1 = Some y1 -> m !! l2 = Some y1 -> l1 = l2) /\
  (forall l1 y1, m !! l1 = Some y1 -> l1 <> l -> copied h h' m l1 y1) /\
  (forall k l1, d !! k = Some (VRef l1) -> is_Some (m !! l1)) /\
  h' !! y = Some (ODict (new_pvc_fields m d la)) /\
  h' !! la = Some (OList [VRef ld]) /\
  h' !! ld = Some (origin_annotation url) /\
  length h <= ld < la /\ la < length h' /\
  fresh_closed (length h) h' /\
  (forall l1, reachable h (VRef l) l1 -> is_Some (m !! l1)).

(** [member] is the first member, in ascending index order, whose object
    name is [name]. *)
Definition first_match (name : string) (members : list member) (i : nat) (member : member)
    : Prop :=
  members !! i = Some member /\
  atom_eq_str (member_object member) name = true /\
  forall j m, j < i -> members !! j = Some m -> atom_eq_str (member_object m) name = false.

(** The volume [v] is a dict whose [type] is the string [clone]. *)
Definition is_clone (h : heap) (v : val) : bool :=
  match v with
  | VRef l =>
      match h !! l with
      | Some (ODict d) =>
          match d !! "type" with
          | Some ty => val_eq_str ty "clone"
          | None => false
          end
      | _ => false
      end
  | VAtom _ => false
  end.

(** A volume that [replace_cloned_volumes] can process: a dict with a
    [type] and, when the type is [clone], a [name] for which the group has a
    member. *)
Definition resolvable `{Collaborators} (h : heap) (obj : string) (members : list member)
    (v : val) : Prop :=
  exists (l : loc) d ty,
    v = VRef l /\ h !! l = Some (ODict d) /\ d !! "type" = Some ty /\
    (is_clone h v = true ->
     exists nm i member,
       d !! "name" = Some nm /\
       first_match (obj +:+ "_" +:+ str_of_val h nm) members i member).

(** [h'] holds every object of [h] unchanged, except possibly the one at
    [lv]. *)
Definition preserved_except (lv : loc) (h h' : heap) : Prop :=
  forall l o, l <> lv -> h !! l = Some o -> h' !! l = Some o.

(** How the element [vi] of the result relates to the element [v] of the
    input, in a process whose store was [h0] at the call and is [h'] at the
    return, the result list being at [lv]: a volume that is not a clone is
    passed on; for a clone, [vi] is what [_get_cloned_volume] returned in a
    state [wi] of the loop, and what that call left in the store is still
    there. *)
Definition replaced `{Collaborators} (h0 h' : heap) (lv : loc) (obj : string)
    (members : list member) (v vi : val) : Prop :=
  if is_clone h0 v then
    exists wi wi',
      extends h0 (store wi) /\
      _get_cloned_volume v obj members wi = (Ok vi, wi') /\
      preserved_except lv (store wi') h'
  else vi = v.

(** A check that decides whether a store is closed. *)
Definition heap_closedb (h : heap) : bool :=
  forallb (fun o =>
    forallb (fun v => match v with VRef l => Nat.ltb l (length h) | VAtom _ => true end)
      (obj_vals o)) h.

(** What holds each time the loop of [replace_cloned_volumes] reaches its
    head, [done] being the volumes processed so far: the store [h0] of the
    call is untouched, the store is closed, and the list at [lv] holds one
    element for each volume processed. *)
Definition loop_inv `{Collaborators} (h0 : heap) (lv : loc) (obj : string)
    (members : list member) (done : list val) (w : world) : Prop :=
  heap_closed h0 /\ extends h0 (store w) /\ heap_closed (store w) /\ length h0 <= lv /\
  exists out,
    store w !! lv = Some (OList out) /\
    Forall2 (replaced h0 (store w) lv obj members) done out.

(** The ceiling of [n / d] for a positive [d]. *)
Definition ceiling_div (n d : Z) : Z := (- ((- n) / d))%Z.

(** A computation keeps the cache when it leaves a cached client in place
    and takes states that are [world_ok] to states that are. *)
Definition keeps_cache `{Collaborators} {A} (m : M A) : Prop :=
  forall w, world_ok w ->
    world_ok (m w).2 /\ forall c, _client w = Some c -> _client (m w).2 = Some c.

(** ** A sample deployment

    Concrete collaborators on which the handlers can be run: the outside
    world is the journal of the calls made to it, and [fault] selects what
    goes wrong. *)

Inductive fault :=
  | NoFault
  | ModuleMissing
  | ClientBroken
  | AccountDenied
  | SuggestBroken
  | NotebookUnlisted
  | NegativeCount.

Definition sample_info : gmap string atom :=
  <["content_length" := AStr "1073741825"]>
  (<["rok_url" := AStr "rok://x/y"]>
  (<["group_member_count" := AStr "1"]>
  (<["group_member_0_object" := AStr "mynb_vol1"]>
  (<["group_member_0_version" := AStr "v3"]>
  {["group_member_0_url" := AStr "rok://x/y"]})))).

(** the same metadata with the origin URL of member 0 left out *)
Definition sample_info_no_url : gmap string atom :=
  <["group_member_count" := AStr "1"]>
  (<["group_member_0_object" := AStr "mynb_vol1"]>
  {["group_member_0_version" := AStr "v3"]}).

(** metadata whose member count is negative *)
Definition sample_info_negative : gmap string atom :=
  {["group_member_count" := AStr "-1"]}.

Definition sample_exn (cls : string) (import_error : bool) : ext_exn :=
  ExtExn cls import_error "simulated failure".

Definition sample (f : fault) : Collaborators := {|
  ext := list string;
  response := string;
  load_rok_gw_client := fun e =>
    (match f with
     | ModuleMissing => Throws (sample_exn "ModuleNotFoundError" true)
     | _ => Returns tt
     end, e ++ ["import"]);
  RokClient := fun e =>
    (match f with
     | ClientBroken => Throws (sample_exn "ConnectionError" false)
     | _ => Returns 1
     end, e ++ ["RokClient"]);
  task_get := fun _ _ _ e => (Returns "task", e ++ ["task_get"]);
  version_register := fun _ _ obj _ _ e => (Returns obj, e ++ ["version_register"]);
  version_info := fun _ _ _ _ e =>
    (match f with
     | NegativeCount => Returns sample_info_negative
     | _ => Returns sample_info
     end, e ++ ["version_info"]);
  account_info := fun _ e =>
    (match f with
     | AccountDenied => Throws (sample_exn "HTTPError" false)
     | _ => Returns tt
     end, e ++ ["account_info"]);
  version_register_suggest := fun _ _ _ _ _ _ _ e =>
    (match f with
     | SuggestBroken => Throws (sample_exn "HTTPError" false)
     | NotebookUnlisted => Returns [{["value" := AStr "other-0"]}]
     | _ => Returns [{["value" := AStr "other-0"]}; {["value" := AStr "mynb-0"]}]
     end, e ++ ["version_register_suggest"]);
  CoreV1Api := fun e => (Returns tt, e ++ ["CoreV1Api"]);
  create_namespaced_persistent_volume_claim := fun _ pvc e =>
    (Returns (metadata_name pvc), e ++ ["create_namespaced_persistent_volume_claim"]);
  create_rok_bucket := fun _ _ e => (Returns tt, e ++ ["create_rok_bucket"]);
  get_pod_name := fun _ => "mynb-0";
  get_namespace := fun _ => "kubeflow-user";
  getenv := fun _ _ => Some "mynb-0";
  container_str := fun _ _ => "[...]";
  container_str_stable := fun _ _ _ _ _ _ => eq_refl
|}.

Definition sample_request : request := Request (AInt 42) None.

(** The volume [{name: vol1, type: clone}] at location 0 and a plain
    volume with a nested list at locations 1 and 2. *)
Definition sample_store : heap :=
  [ ODict (<["type" := VStr "clone"]> {["name" := VStr "vol1"]});
    ODict (<["type" := VStr "pvc"]> (<["name" := VStr "data"]> {["annotations" := VRef 2]}));
    OList [] ].

(** A store with sharing and a cycle: the dict at 0 refers twice to the list
    at 1, and to itself; the list refers back to the dict. *)
Definition knotted_store : heap :=
  [ ODict (<["self" := VRef 0]> (<["a" := VRef 1]> (<["b" := VRef 1]> {["name" := VStr "v"]})));
    OList [VRef 0; VAtom (AInt 7)] ].

Definition sample_members : list member :=
  [Member (AStr "mynb_vol1") (AStr "v3") (AStr "rok://x/y")].

Definition sample_world (f : fault) : @world (sample f) :=
  @initial (sample f) sample_store [].

(** ** Notions used to state what the handlers leave alone *)

(** The exception a result carries, if it is one. *)
Definition raised_by {A} (r : result A) : option exn :=
  match r with
  | Ok _ => None
  | Raise e => Some e
  end.

(** What a call from the RPC layer raised, if it raised. *)
Definition raised `{Collaborators} (c : entry) (w : world) : option exn :=
  match c with
  | Enter_get_client => raised_by (_get_client w).1
  | Enter_get_task r t b => raised_by (get_task r t b w).1
  | Enter_snapshot_notebook r b o => raised_by (snapshot_notebook r b o w).1
  | Enter_snapshot_pvc r p b => raised_by (snapshot_pvc r p b w).1
  | Enter_hydrate_pvc_from_snapshot r o v n b =>
      raised_by (hydrate_pvc_from_snapshot r o v n b w).1
  | Enter_replace_cloned_volumes r b o v vs =>
      raised_by (replace_cloned_volumes r b o v vs w).1
  | Enter_check_rok_availability r => raised_by (check_rok_availability r w).1
  end.

(** A computation leaves the component [f] of the state as it was, whether
    it returns or raises. *)
Definition preserves `{Collaborators} {A X} (f : world -> X) (m : M A) : Prop :=
  forall w, f (m w).2 = f w.

(** A computation raises nothing but exceptions that satisfy [P]. *)
Definition raises_only `{Collaborators} {A} (P : exn -> Prop) (m : M A) : Prop :=
  forall w e w', m w = (Raise e, w') -> P e.

(** A computation writes to no object of [h0]: started in a store that
    holds them, it ends in one that does. *)
Definition keeps_objects `{Collaborators} {A} (h0 : heap) (m : M A) : Prop :=
  forall w, extends h0 (store w) -> extends h0 (store (m w).2).

(** The calls that allocate in the object store. *)
Definition allocates (c : entry) : bool :=
  match c with
  | Enter_hydrate_pvc_from_snapshot _ _ _ _ _ | Enter_replace_cloned_volumes _ _ _ _ _ => true
  | _ => false
  end.

Definition is_check_rok_availability (c : entry) : bool :=
  match c with
  | Enter_check_rok_availability _ => true
  | _ => false
  end.

(** The logger a log entry went to. *)
Definition log_call_logger (c : log_call) : string :=
  match c with
  | LogException l _ | LogError l _ => l
  end.

(** ** A scripted deployment

    Collaborators that answer every call from a script: the version
    metadata and the suggestions they hand out, whether the bucket can be
    created, and the value of [HOSTNAME]. *)

Record script := Script {
  script_info : gmap string atom;
  script_suggestions : list (gmap string atom);
  script_bucket_denied : bool;
  script_hostname : option string
}.

Definition scripted (s : script) : Collaborators := {|
  ext := list string;
  response := string;
  load_rok_gw_client := fun e => (Returns tt, e ++ ["import"]);
  RokClient := fun e => (Returns 1, e ++ ["RokClient"]);
  task_get := fun _ _ _ e => (Returns "task", e ++ ["task_get"]);
  version_register := fun _ _ obj _ _ e => (Returns obj, e ++ ["version_register"]);
  version_info := fun _ _ _ _ e => (Returns (script_info s), e ++ ["version_info"]);
  account_info := fun _ e => (Returns tt, e ++ ["account_info"]);
  version_register_suggest := fun _ _ _ _ _ _ _ e =>
    (Returns (script_suggestions s), e ++ ["version_register_suggest"]);
  CoreV1Api := fun e => (Returns tt, e ++ ["CoreV1Api"]);
  create_namespaced_persistent_volume_claim := fun _ pvc e =>
    (Returns (metadata_name pvc), e ++ ["create_namespaced_persistent_volume_claim"]);
  create_rok_bucket := fun _ _ e =>
    (if script_bucket_denied s then Throws (sample_exn "HTTPError" false) else Returns tt,
     e ++ ["create_rok_bucket"]);
  get_pod_name := fun _ => "mynb-0";
  get_namespace := fun _ => "kubeflow-user";
  getenv := fun _ _ => script_hostname s;
  container_str := fun _ _ => "[...]";
  container_str_stable := fun _ _ _ _ _ _ => eq_refl
|}.

Definition scripted_world (s : script) : @world (scripted s) :=
  @initial (scripted s) sample_store [].

(** a listing whose second suggestion has no [value] *)
Definition script_no_value : script :=
  Script ∅ [{["value" := AStr "other-0"]}; ∅] false None.

(** A volume that [replace_cloned_volumes] passes on as it is: a dict in
    the store [h] that has a [type] other than [clone]. *)
Definition passed_on (h : heap) (v : val) : Prop :=
  exists (l : loc) d ty,
    v = VRef l /\ h !! l = Some (ODict d) /\ d !! "type" = Some ty /\
    val_eq_str ty "clone" = false.

(** Together with [loop_inv]: the result list at [lv] is allocated, and each
    of its elements is a volume other than the list that a second pass
    would pass on. *)
Definition settled_inv `{Collaborators} (h0 : heap) (lv : loc) (obj : string)
    (members : list member) (done : list val) (w : world) : Prop :=
  loop_inv h0 lv obj members done w /\
  forall out, store w !! lv = Some (OList out) ->
    Forall (fun vi => vi <> VRef lv /\ passed_on (store w) vi) out.

(** the sample metadata with the object of a member beyond the count *)
Definition sample_info_beyond : gmap string atom :=
  <["group_member_1_object" := AStr "mynb_vol2"]> sample_info.

(** a deployment in which the bucket cannot be created and [HOSTNAME] is
    not set *)
Definition script_no_bucket : script := Script sample_info [] true None.

(** a deployment in which [HOSTNAME] is not set *)
Definition script_no_hostname : script := Script sample_info [] false None.

(** The metadata of a group snapshot with the given members: for the
    member at each index, from [i] on, its three keys. *)
Fixpoint members_info (i : Z) (members : list member) : gmap string atom :=
  match members with
  | [] => ∅
  | m :: rest =>
      <[member_key i "object" := member_object m]>
        (<[member_key i "version" := member_version m]>
           (<[member_key i "url" := member_rok_url m]> (members_info (i + 1) rest)))
  end.

(** ... and the number of members. *)
Definition metadata_of (members : list member) : gmap string atom :=
  <["group_member_count" := AInt (Z.of_nat (length members))]> (members_info 0 members).


(** * Properties *)

(** ** Builtins *)

Example py_int_examples :
  py_int (AStr " 12 ") = Ok 12%Z /\ py_int (AStr "-1") = Ok (-1)%Z /\
  py_int (AStr "1_000") = Ok 1000%Z /\ py_int (AStr "007") = Ok 7%Z /\
  parse_int "1__0" = None /\ parse_int "_1" = None /\ parse_int "1_" = None /\
  parse_int "+ 1" = None /\ parse_int "" = None /\ parse_int "1 2" = None.
Proof. repeat split; vm_compute; reflexivity. Qed.

Lemma ceiling_div_spec n d :
  (0 < d)%Z -> (d * (ceiling_div n d - 1) < n <= d * ceiling_div n d)%Z.
Proof.
  intros Hd. unfold ceiling_div.
  pose proof (Z.div_mod (- n) d ltac:(lia)) as Hdm.
  pose proof (Z.mod_pos_bound (- n) d Hd) as Hb.
  nia.
Qed.

(** An integer of magnitude below 2^53 is a double, and dividing it three
    times by 1024 is exact. *)
Lemma snapshot_size_gi_exact n :
  (Z.abs n < 2 ^ 53)%Z -> snapshot_size_gi (AInt n) = Ok (ceiling_div n (2 ^ 30)).
Proof.
  intros Hn. unfold snapshot_size_gi, int_truediv_pow2, round_to_double; cbn [py_int result_bind].
  destruct (Z.ltb_spec (Z.abs n) (2 ^ 53)) as [_|?]; [|lia].
  cbn [mant expo].
  replace (2 ^ (0 - 10))%Z with 0%Z by reflexivity.
  rewrite Z.mul_0_r.
  destruct (Z.leb_spec (2 ^ 1024) 0) as [Hbad|_].
  { exfalso. assert (0 < 2 ^ 1024)%Z by (apply Z.pow_pos_nonneg; lia). lia. }
  cbn [result_bind]. unfold math_ceil, float_truediv_pow2; cbn [mant expo].
  reflexivity.
Qed.

Lemma snapshot_size_gi_int cl n :
  py_int cl = Ok n -> snapshot_size_gi cl = snapshot_size_gi (AInt n).
Proof. intros Hcl. unfold snapshot_size_gi. rewrite Hcl. reflexivity. Qed.

(** ** Running the handlers *)

Section Handlers.
Context `{Collaborators}.

Lemma bind_ok {A B} (m : M A) (k : A -> M B) w a w' :
  m w = (Ok a, w') -> bind m k w = k a w'.
Proof. intros Hm. unfold bind. rewrite Hm. reflexivity. Qed.

Lemma bind_raise {A B} (m : M A) (k : A -> M B) w e w' :
  m w = (Raise e, w') -> bind m k w = (Raise e, w').
Proof. intros Hm. unfold bind. rewrite Hm. reflexivity. Qed.

(** [hydrate_pvc_from_snapshot] once the client, the version metadata and
    the API object are there: it asks for the claim [rok_claim] and
    returns a new dict holding the name of what was created. *)
Lemma hydrate_pvc_from_snapshot_run r obj version name bucket w rok w1 info e2 cl size u e3 :
  _get_client w = (Ok rok, w1) ->
  version_info rok bucket obj version (outside w1) = (Returns info, e2) ->
  info !! "content_length" = Some cl ->
  snapshot_size_gi cl = Ok size ->
  info !! "rok_url" = Some u ->
  CoreV1Api e2 = (Returns tt, e3) ->
  hydrate_pvc_from_snapshot r obj version name bucket w =
    match create_namespaced_persistent_volume_claim (get_namespace e3)
            (rok_claim name u size) e3 with
    | (Returns created, e4) =>
        (Ok (VRef (length (store w1))),
         set_store (store w1 ++ [ODict {["name" := VStr created]}]) (set_outside e4 w1))
    | (Throws x, e4) => (Raise (External x), set_outside e4 w1)
    end.
Proof.
  intros Hc Hv Hcl Hsz Hu Hapi. unfold hydrate_pvc_from_snapshot.
  rewrite (bind_ok _ _ _ _ _ Hc).
  unfold bind at 1, call at 1. rewrite Hv.
  unfold bind at 1, lift at 1, info_getitem at 1. rewrite Hcl.
  unfold bind at 1, lift at 1. rewrite Hsz.
  unfold bind at 1, lift at 1, info_getitem at 1. rewrite Hu.
  unfold bind at 1, call at 1. cbn [outside set_outside]. rewrite Hapi.
  unfold bind at 1, gets at 1. cbn [outside set_outside].
  unfold bind at 1, call at 1. cbn [outside set_outside].
  destruct (create_namespaced_persistent_volume_claim _ _ e3) as [[created|x] e4];
    reflexivity.
Qed.
End Handlers.

(** ** The size of a hydrated volume *)

(** C5, as stated for every non-negative content length, fails: above 2^53
    the true division rounds the byte count to a double before the ceiling
    is taken.  At 2^60 + 1 bytes, and already at 2^53 + 1, the size computed
    is one less than the ceiling. *)
Lemma snapshot_size_gi_not_ceiling_above_2_53 :
  snapshot_size_gi (AInt 1152921504606846977) = Ok 1073741824%Z /\
  ceiling_div 1152921504606846977 (2 ^ 30) = 1073741825%Z /\
  snapshot_size_gi (AInt 9007199254740993) = Ok 8388608%Z /\
  ceiling_div 9007199254740993 (2 ^ 30) = 8388609%Z /\
  ~ (forall n, (0 <= n)%Z -> snapshot_size_gi (AInt n) = Ok (ceiling_div n (2 ^ 30))).
Proof.
  assert (Hrun : snapshot_size_gi (AInt 1152921504606846977) = Ok 1073741824%Z)
    by (vm_compute; reflexivity).
  assert (Hceil : ceiling_div 1152921504606846977 (2 ^ 30) = 1073741825%Z)
    by (vm_compute; reflexivity).
  split; [exact Hrun|]. split; [exact Hceil|].
  split; [vm_compute; reflexivity|]. split; [vm_compute; reflexivity|].
  intros Hall. specialize (Hall 1152921504606846977%Z ltac:(lia)).
  rewrite Hrun, Hceil in Hall. discriminate Hall.
Qed.

Section HydrateSize.
Context `{Collaborators}.

(** C5 (amended): for a content length between 0 and 2^53 bytes, given as
    an integer or as its decimal text, [hydrate_pvc_from_snapshot] asks for
    a claim whose storage request is the ceiling of the length divided by
    2^30, in Gi. *)
Theorem hydrate_requests_ceiling_gib r obj version name bucket w rok w1 info e2 cl n u e3 :
  _get_client w = (Ok rok, w1) ->
  version_info rok bucket obj version (outside w1) = (Returns info, e2) ->
  info !! "content_length" = Some cl ->
  py_int cl = Ok n ->
  (0 <= n <= 2 ^ 53)%Z ->
  info !! "rok_url" = Some u ->
  CoreV1Api e2 = (Returns tt, e3) ->
  let size := ceiling_div n (2 ^ 30) in
  snapshot_size_gi cl = Ok size /\
  (2 ^ 30 * (size - 1) < n <= 2 ^ 30 * size)%Z /\
  spec_resources_requests (rok_claim name u size) = {["storage" := pretty size +:+ "Gi"]} /\
  hydrate_pvc_from_snapshot r obj version name bucket w =
    match create_namespaced_persistent_volume_claim (get_namespace e3)
            (rok_claim name u size) e3 with
    | (Returns created, e4) =>
        (Ok (VRef (length (store w1))),
         set_store (store w1 ++ [ODict {["name" := VStr created]}]) (set_outside e4 w1))
    | (Throws x, e4) => (Raise (External x), set_outside e4 w1)
    end.
Proof.
  intros Hc Hv Hcl Hint Hn Hu Hapi size.
  assert (Hsize : snapshot_size_gi cl = Ok size).
  { rewrite (snapshot_size_gi_int _ _ Hint).
    destruct (decide (n = 2 ^ 53)%Z) as [->|Hne]; [vm_compute; reflexivity|].
    apply snapshot_size_gi_exact. lia. }
  split; [exact Hsize|]. split; [apply ceiling_div_spec; lia|]. split; [reflexivity|].
  eapply hydrate_pvc_from_snapshot_run; eassumption.
Qed.
End HydrateSize.

(** The four sizes the specification lists. *)
Example snapshot_size_gi_examples :
  snapshot_size_gi (AInt 0) = Ok 0%Z /\ snapshot_size_gi (AInt 1) = Ok 1%Z /\
  snapshot_size_gi (AInt 1073741824) = Ok 1%Z /\ snapshot_size_gi (AInt 1073741825) = Ok 2%Z /\
  snapshot_size_gi (AStr "1073741825") = Ok 2%Z.
Proof. repeat split; vm_compute; reflexivity. Qed.

Lemma hydrate_requests_ceiling_gib_witness :
  @snapshot_size_gi (AStr "1073741825") = Ok 2%Z /\
  (@hydrate_pvc_from_snapshot (sample NoFault) sample_request "mynb" "v3" "restored" "notebooks"
     (sample_world NoFault)).1 = Ok (VRef 3).
Proof.
  pose proof (@hydrate_requests_ceiling_gib (sample NoFault) sample_request
    "mynb" "v3" "restored" "notebooks" (sample_world NoFault) 1 _ sample_info _
    (AStr "1073741825") 1073741825%Z (AStr "rok://x/y") _
    eq_refl eq_refl eq_refl eq_refl ltac:(vm_compute; split; discriminate) eq_refl eq_refl)
    as (Hsize & _ & _ & Hrun).
  split; [exact Hsize|]. rewrite Hrun. reflexivity.
Defined.

(** ** Group members *)

Lemma member_at_first_absent_key info i :
  member_at info i = None <-> is_Some (first_absent_key info i).
Proof.
  unfold member_at, first_absent_key.
  destruct (info !! member_key i "object"), (info !! member_key i "version"),
    (info !! member_key i "url"); split; intros Hx; try done; try (by eexists);
    by destruct Hx.
Qed.

(** The loop appends the members of the indices in order. *)
Lemma _get_group_members_loop_ok info indices members built :
  Forall2 (fun i m => member_at info i = Some m) indices built ->
  _get_group_members_loop info indices members = Ok (members ++ built).
Proof.
  intros Hall. revert members.
  induction Hall as [|i m indices built Hm _ IH]; intros members; cbn.
  - by rewrite app_nil_r.
  - unfold member_at in Hm. unfold info_getitem.
    destruct (info !! member_key i "object") as [o|]; [|done].
    destruct (info !! member_key i "version") as [v|]; [|done].
    destruct (info !! member_key i "url") as [u|]; [|done].
    cbn. injection Hm as <-. rewrite IH, <- app_assoc. reflexivity.
Qed.

(** The loop stops at the first key it does not find. *)
Lemma _get_group_members_loop_absent info before i after members k :
  Forall (fun j => is_Some (member_at info j)) before ->
  first_absent_key info i = Some k ->
  _get_group_members_loop info (before ++ i :: after) members = Raise (KeyError k).
Proof.
  intros Hbefore Hk. revert members.
  induction Hbefore as [|j before [m Hm] _ IH]; intros members; cbn.
  - unfold first_absent_key in Hk. unfold info_getitem.
    destruct (info !! member_key i "object") as [o|]; [|by injection Hk as <-].
    destruct (info !! member_key i "version") as [v|]; [|by injection Hk as <-].
    destruct (info !! member_key i "url") as [u|]; [done|by injection Hk as <-].
  - unfold member_at in Hm. unfold info_getitem.
    destruct (info !! member_key j "object") as [o|]; [|done].
    destruct (info !! member_key j "version") as [v|]; [|done].
    destruct (info !! member_key j "url") as [u|]; [|done].
    cbn. apply IH.
Qed.

Lemma py_range_split n i :
  (0 <= i < n)%Z -> py_range n = seqZ 0 i ++ i :: seqZ (i + 1) (n - i - 1).
Proof.
  intros Hi. unfold py_range.
  replace n with (i + (1 + (n - i - 1)))%Z at 1 by lia.
  rewrite seqZ_app by lia. f_equal.
  rewrite seqZ_app by lia. rewrite Z.add_0_l. reflexivity.
Qed.

Lemma py_range_negative n : (n <= 0)%Z -> py_range n = [].
Proof. intros Hn. unfold py_range, seqZ. by replace (Z.to_nat n) with 0%nat by lia. Qed.

Lemma Forall_is_Some_Forall2 {A B} (f : A -> option B) (l : list A) :
  Forall (fun x => is_Some (f x)) l -> exists k, Forall2 (fun x y => f x = Some y) l k.
Proof.
  induction 1 as [|x l [y Hy] _ [k IH]].
  - exists []. constructor.
  - exists (y :: k). by constructor.
Qed.

(** What [_get_group_members] returns, from the parsed count on. *)
Lemma _get_group_members_ok info count n :
  info !! "group_member_count" = Some count ->
  py_int count = Ok n ->
  (forall i, (0 <= i < n)%Z -> is_Some (member_at info i)) ->
  exists members,
    _get_group_members info = Ok members /\
    length members = Z.to_nat n /\
    forall i : nat, i < Z.to_nat n -> members !! i = member_at info (Z.of_nat i).
Proof.
  intros Hcount Hint Hkeys. unfold _get_group_members, info_getitem.
  rewrite Hcount. cbn. rewrite Hint. cbn.
  assert (Hbuilt : exists built,
    Forall2 (fun i m => member_at info i = Some m) (py_range n) built).
  { apply Forall_is_Some_Forall2, Forall_forall. intros i Hi.
    apply Hkeys. unfold py_range in Hi. apply elem_of_seqZ in Hi. lia. }
  destruct Hbuilt as [built Hbuilt]. exists built.
  rewrite (_get_group_members_loop_ok _ _ _ _ Hbuilt). split; [reflexivity|].
  pose proof (Forall2_length _ _ _ Hbuilt) as Hlen.
  unfold py_range in Hlen. rewrite length_seqZ in Hlen. split; [lia|].
  intros i Hi.
  assert (Hidx : py_range n !! i = Some (Z.of_nat i)).
  { unfold py_range. rewrite lookup_seqZ. split; lia. }
  destruct (Forall2_lookup_l _ _ _ _ _ Hbuilt Hidx) as (m & Hm & Hat).
  by rewrite Hm, Hat.
Qed.

Lemma _get_group_members_loop_raises info indices members e :
  _get_group_members_loop info indices members = Raise e -> exists k, e = KeyError k.
Proof.
  revert members. induction indices as [|i indices IH]; intros members; cbn; [done|].
  unfold info_getitem.
  destruct (info !! member_key i "object") as [o|]; cbn; [|intros [= <-]; by eexists].
  destruct (info !! member_key i "version") as [v|]; cbn; [|intros [= <-]; by eexists].
  destruct (info !! member_key i "url") as [u|]; cbn; [|intros [= <-]; by eexists].
  apply IH.
Qed.

Lemma py_int_raises a e :
  py_int a = Raise e -> (exists msg, e = ValueError msg) \/ (exists msg, e = TypeError msg).
Proof.
  destruct a as [|b|z|s]; cbn; try done.
  - intros [= <-]. right. by eexists.
  - destruct (parse_int s); [done|]. intros [= <-]. left. by eexists.
Qed.

(** C6, as stated, fails where a member key is absent: the lookup raises
    [KeyError], which is not a value error. *)
Lemma _get_group_members_absent_key_not_ValueError :
  _get_group_members {["group_member_count" := AStr "1"]}
    = Raise (KeyError "group_member_0_object") /\
  ~ (exists msg, _get_group_members {["group_member_count" := AStr "1"]}
                 = Raise (ValueError msg)).
Proof.
  assert (Hrun : _get_group_members {["group_member_count" := AStr "1"]}
                 = Raise (KeyError "group_member_0_object")) by (vm_compute; reflexivity).
  split; [exact Hrun|]. intros [msg Hmsg]. rewrite Hrun in Hmsg. discriminate Hmsg.
Qed.

(** C6 (amended): when the count parses as a non-negative [n] and the three
    keys of every index below [n] are there, [_get_group_members] returns
    [n] members in ascending index order, the i-th built from the fields of
    index [i].  When a key is absent it raises [KeyError] for the first key
    it misses; when the count is not an integer literal it raises
    [ValueError] (or [TypeError] for [None]).  No failure is an RPC-typed
    condition. *)
Theorem _get_group_members_spec info :
  (forall count n,
     info !! "group_member_count" = Some count -> py_int count = Ok n -> (0 <= n)%Z ->
     (forall i, (0 <= i < n)%Z -> is_Some (member_at info i)) ->
     exists members,
       _get_group_members info = Ok members /\
       length members = Z.to_nat n /\
       forall i : nat, i < Z.to_nat n -> members !! i = member_at info (Z.of_nat i)) /\
  (forall count n i k,
     info !! "group_member_count" = Some count -> py_int count = Ok n ->
     (0 <= i < n)%Z ->
     (forall j, (0 <= j < i)%Z -> is_Some (member_at info j)) ->
     first_absent_key info i = Some k ->
     info !! k = None /\ _get_group_members info = Raise (KeyError k)) /\
  (info !! "group_member_count" = None ->
     _get_group_members info = Raise (KeyError "group_member_count")) /\
  (forall s,
     info !! "group_member_count" = Some (AStr s) -> parse_int s = None ->
     exists msg, _get_group_members info = Raise (ValueError msg)) /\
  (info !! "group_member_count" = Some ANone ->
     exists msg, _get_group_members info = Raise (TypeError msg)) /\
  (forall e, _get_group_members info = Raise e ->
     is_rpc_error e = false /\
     ((exists k, e = KeyError k) \/ (exists msg, e = ValueError msg) \/
      (exists msg, e = TypeError msg))).
Proof.
  split; [|split; [|split; [|split; [|split]]]].
  - intros count n Hcount Hint _ Hkeys. eapply _get_group_members_ok; eassumption.
  - intros count n i k Hcount Hint Hi Hbefore Hk. split.
    + revert Hk. unfold first_absent_key.
      destruct (info !! member_key i "object") eqn:Ho; [|by intros [= <-]].
      destruct (info !! member_key i "version") eqn:Hv; [|by intros [= <-]].
      destruct (info !! member_key i "url") eqn:Hu; [done|by intros [= <-]].
    + unfold _get_group_members, info_getitem. rewrite Hcount. cbn. rewrite Hint. cbn.
      rewrite (py_range_split n i Hi).
      apply _get_group_members_loop_absent; [|exact Hk].
      apply Forall_forall. intros j Hj. apply Hbefore. apply elem_of_seqZ in Hj. lia.
  - intros Hcount. unfold _get_group_members, info_getitem. by rewrite Hcount.
  - intros s Hcount Hparse. unfold _get_group_members, info_getitem.
    rewrite Hcount. cbn. rewrite Hparse. cbn. by eexists.
  - intros Hcount. unfold _get_group_members, info_getitem.
    rewrite Hcount. cbn. by eexists.
  - intros e. unfold _get_group_members, info_getitem.
    destruct (info !! "group_member_count") as [count|]; cbn;
      [|intros [= <-]; split; [done|left; by eexists]].
    destruct (py_int count) as [n|e'] eqn:Hint; cbn.
    + intros Hloop. apply _get_group_members_loop_raises in Hloop as [k ->].
      split; [done|left; by eexists].
    + intros [= <-]. apply py_int_raises in Hint as [[msg ->]|[msg ->]];
        (split; [done|right]); [left|right]; by eexists.
Qed.

Lemma _get_group_members_spec_witness :
  _get_group_members sample_info
    = Ok [Member (AStr "mynb_vol1") (AStr "v3") (AStr "rok://x/y")] /\
  _get_group_members sample_info_no_url
    = Raise (KeyError "group_member_0_url").
Proof.
  split.
  - destruct (proj1 (_get_group_members_spec sample_info) (AStr "1") 1%Z
      eq_refl eq_refl ltac:(lia)) as (members & Hrun & Hlen & Hat).
    { intros i Hi. assert (i = 0%Z) as -> by lia. vm_compute. by eexists. }
    rewrite Hrun. f_equal.
    destruct members as [|m [|m' members]]; try discriminate Hlen.
    specialize (Hat 0%nat ltac:(vm_compute; lia)). cbn in Hat.
    injection Hat as ->. vm_compute. reflexivity.
  - apply (proj1 (proj2 (_get_group_members_spec sample_info_no_url))
      (AStr "1") 1%Z 0%Z "group_member_0_url" eq_refl eq_refl ltac:(lia)).
    + intros j Hj. lia.
    + vm_compute. reflexivity.
Defined.

(** ** Availability of Rok *)

Section Availability.
Context `{Collaborators}.

(** [check_rok_availability], step by step. *)
Lemma check_rok_availability_run r w :
  check_rok_availability r w =
    match _get_client w with
    | (Raise e, w1) =>
        if is_ImportError e then
          (Raise (module_not_found (trans_id r)),
           add_log (LogException (log_of r) "Failed to import RokClient") w1)
        else
          (Raise (client_not_initialized (trans_id r)),
           add_log (LogException (log_of r) "Failed to initialize RokClient") w1)
    | (Ok rok, w1) =>
        match account_info rok (outside w1) with
        | (Throws _, e2) =>
            (Raise (rok_not_accessible (trans_id r)),
             add_log (LogException (log_of r) "Failed to retrieve account information")
               (set_outside e2 w1))
        | (Returns _, e2) =>
            let name := get_pod_name e2 in
            match version_register_suggest rok DEFAULT_BUCKET name "jupyter" "params:lab"
                    {["namespace" := get_namespace e2]} true e2 with
            | (Throws x, e3) =>
                (Raise (cannot_list_notebooks x (trans_id r)),
                 add_log (LogException (log_of r) "Failed to list lab suggestions")
                   (set_outside e3 w1))
            | (Returns suggestions, e3) =>
                match any_suggestion_is name suggestions with
                | Ok true => (Ok VNone, set_outside e3 w1)
                | Ok false =>
                    (Raise (notebook_not_listed (trans_id r)),
                     add_log
                       (LogError (log_of r)
                          ("Could not find notebook '" +:+ name +:+
                           "' in list of suggestions"))
                       (set_outside e3 w1))
                | Raise e => (Raise e, set_outside e3 w1)
                end
            end
        end
    end.
Proof.
  unfold check_rok_availability, bind at 1, try_except.
  destruct (_get_client w) as [[rok|e] w1].
  - unfold bind at 1, try_call.
    destruct (account_info rok (outside w1)) as [[u|x] e2]; [|reflexivity].
    unfold bind at 1, gets at 1. unfold bind at 1, gets at 1.
    unfold bind at 1, try_call. cbn [outside set_outside].
    destruct (version_register_suggest _ _ _ _ _ _ _ e2) as [[suggestions|x] e3];
      [|reflexivity].
    unfold bind at 1, lift.
    destruct (any_suggestion_is _ suggestions) as [[|]|e]; reflexivity.
  - destruct (is_ImportError e); reflexivity.
Qed.

Lemma any_suggestion_is_absent name suggestions :
  Forall (fun s => exists v, s !! "value" = Some v /\ atom_eq_str v name = false) suggestions ->
  any_suggestion_is name suggestions = Ok false.
Proof.
  induction 1 as [|s suggestions (v & Hv & Hne) _ IH]; cbn; [done|].
  unfold info_getitem. rewrite Hv. cbn. by rewrite Hne.
Qed.
Lemma _get_client_module_missing w x e1 :
  rok_module_loaded w = false ->
  load_rok_gw_client (outside w) = (Throws x, e1) ->
  _get_client w = (Raise (External x), set_outside e1 w).
Proof.
  intros Hloaded Hload. unfold _get_client, bind at 1, import_RokClient.
  by rewrite Hloaded, Hload.
Qed.

Lemma availability_conditions_distinct t x :
  NoDup [module_not_found t; client_not_initialized t; rok_not_accessible t;
         cannot_list_notebooks x t; notebook_not_listed t].
Proof.
  unfold module_not_found, client_not_initialized, rok_not_accessible,
    cannot_list_notebooks, notebook_not_listed.
  repeat (apply NoDup_cons; split;
          [rewrite ?elem_of_cons, elem_of_nil; intuition discriminate|]).
  apply NoDup_nil_2.
Qed.

(** C4: [check_rok_availability] returns exactly when the client is
    obtained, the account-info call returns and the pod name is among the
    values of the suggestions listed.  A missing client module raises Not
    Found, any other failure to obtain the client raises Service
    Unavailable, and so do a failing account-info call and a failing
    listing; a listing without the pod name raises Not Found.  The five
    conditions carry the transaction id of the request and differ from
    one another. *)
Theorem check_rok_availability_conditions r w :
  ((exists v w', check_rok_availability r w = (Ok v, w')) <->
   (exists rok w1 u e2 suggestions e3,
      _get_client w = (Ok rok, w1) /\
      account_info rok (outside w1) = (Returns u, e2) /\
      version_register_suggest rok DEFAULT_BUCKET (get_pod_name e2) "jupyter" "params:lab"
        {["namespace" := get_namespace e2]} true e2 = (Returns suggestions, e3) /\
      any_suggestion_is (get_pod_name e2) suggestions = Ok true)) /\
  (forall x e1,
     rok_module_loaded w = false ->
     load_rok_gw_client (outside w) = (Throws x, e1) -> exn_is_import_error x = true ->
     (check_rok_availability r w).1 = Raise (module_not_found (trans_id r))) /\
  (forall e w1,
     _get_client w = (Raise e, w1) ->
     (check_rok_availability r w).1 =
       Raise (if is_ImportError e then module_not_found (trans_id r)
              else client_not_initialized (trans_id r))) /\
  (forall rok w1 x e2,
     _get_client w = (Ok rok, w1) ->
     account_info rok (outside w1) = (Throws x, e2) ->
     (check_rok_availability r w).1 = Raise (rok_not_accessible (trans_id r))) /\
  (forall rok w1 u e2 x e3,
     _get_client w = (Ok rok, w1) ->
     account_info rok (outside w1) = (Returns u, e2) ->
     version_register_suggest rok DEFAULT_BUCKET (get_pod_name e2) "jupyter" "params:lab"
       {["namespace" := get_namespace e2]} true e2 = (Throws x, e3) ->
     (check_rok_availability r w).1 = Raise (cannot_list_notebooks x (trans_id r))) /\
  (forall rok w1 u e2 suggestions e3,
     _get_client w = (Ok rok, w1) ->
     account_info rok (outside w1) = (Returns u, e2) ->
     version_register_suggest rok DEFAULT_BUCKET (get_pod_name e2) "jupyter" "params:lab"
       {["namespace" := get_namespace e2]} true e2 = (Returns suggestions, e3) ->
     Forall (fun s => exists v, s !! "value" = Some v /\
                                atom_eq_str v (get_pod_name e2) = false) suggestions ->
     (check_rok_availability r w).1 = Raise (notebook_not_listed (trans_id r))) /\
  (forall x,
     let conditions :=
       [module_not_found (trans_id r); client_not_initialized (trans_id r);
        rok_not_accessible (trans_id r); cannot_list_notebooks x (trans_id r);
        notebook_not_listed (trans_id r)] in
     NoDup conditions /\
     Forall (fun e => rpc_trans_id <$> rpc_error_of e = Some (trans_id r)) conditions).
Proof.
  split; [|split; [|split; [|split; [|split; [|split]]]]].
  - rewrite check_rok_availability_run. split.
    + intros (v & w' & Hrun).
      destruct (_get_client w) as [[rok|e] w1] eqn:Hc; [|by destruct (is_ImportError e)].
      destruct (account_info rok (outside w1)) as [[u|x] e2] eqn:Ha; [|done].
      cbn zeta in Hrun.
      destruct (version_register_suggest _ _ _ _ _ _ _ e2) as [[suggestions|x] e3] eqn:Hs;
        [|done].
      destruct (any_suggestion_is _ suggestions) as [[|]|e] eqn:Hany; try done.
      exists rok, w1, u, e2, suggestions, e3. by rewrite Ha.
    + intros (rok & w1 & u & e2 & suggestions & e3 & Hc & Ha & Hs & Hany).
      rewrite Hc, Ha. cbn zeta. rewrite Hs, Hany. by eexists _, _.
  - intros x e1 Hloaded Hload Himp. rewrite check_rok_availability_run.
    rewrite (_get_client_module_missing _ _ _ Hloaded Hload). cbn. by rewrite Himp.
  - intros e w1 Hc. rewrite check_rok_availability_run, Hc. by destruct (is_ImportError e).
  - intros rok w1 x e2 Hc Ha. by rewrite check_rok_availability_run, Hc, Ha.
  - intros rok w1 u e2 x e3 Hc Ha Hs. rewrite check_rok_availability_run, Hc, Ha.
    cbn zeta. by rewrite Hs.
  - intros rok w1 u e2 suggestions e3 Hc Ha Hs Habsent.
    rewrite check_rok_availability_run, Hc, Ha. cbn zeta.
    by rewrite Hs, (any_suggestion_is_absent _ _ Habsent).
  - intros x conditions. split; [apply availability_conditions_distinct|].
    repeat constructor.
Qed.
End Availability.

Lemma check_rok_availability_conditions_witness :
  (exists v w', @check_rok_availability (sample NoFault) sample_request (sample_world NoFault)
                = (Ok v, w')) /\
  (@check_rok_availability (sample ModuleMissing) sample_request
     (sample_world ModuleMissing)).1 = Raise (module_not_found (AInt 42)) /\
  (@check_rok_availability (sample ClientBroken) sample_request
     (sample_world ClientBroken)).1 = Raise (client_not_initialized (AInt 42)) /\
  (@check_rok_availability (sample AccountDenied) sample_request
     (sample_world AccountDenied)).1 = Raise (rok_not_accessible (AInt 42)) /\
  (@check_rok_availability (sample SuggestBroken) sample_request
     (sample_world SuggestBroken)).1
    = Raise (cannot_list_notebooks (sample_exn "HTTPError" false) (AInt 42)) /\
  (@check_rok_availability (sample NotebookUnlisted) sample_request
     (sample_world NotebookUnlisted)).1 = Raise (notebook_not_listed (AInt 42)).
Proof.
  split; [|split; [|split; [|split; [|split]]]].
  - apply (proj1 (@check_rok_availability_conditions (sample NoFault) sample_request
                    (sample_world NoFault))).
    eexists _, _, _, _, _, _. repeat split; vm_compute; reflexivity.
  - eapply (proj1 (proj2 (@check_rok_availability_conditions (sample ModuleMissing)
                            sample_request (sample_world ModuleMissing))));
      vm_compute; reflexivity.
  - apply (proj1 (proj2 (proj2 (@check_rok_availability_conditions (sample ClientBroken)
                                  sample_request (sample_world ClientBroken))))
             (External (sample_exn "ConnectionError" false)) _ eq_refl).
  - eapply (proj1 (proj2 (proj2 (proj2 (@check_rok_availability_conditions
              (sample AccountDenied) sample_request (sample_world AccountDenied))))));
      vm_compute; reflexivity.
  - eapply (proj1 (proj2 (proj2 (proj2 (proj2 (@check_rok_availability_conditions
              (sample SuggestBroken) sample_request (sample_world SuggestBroken)))))));
      vm_compute; reflexivity.
  - eapply (proj1 (proj2 (proj2 (proj2 (proj2 (proj2 (@check_rok_availability_conditions
              (sample NotebookUnlisted) sample_request (sample_world NotebookUnlisted))))))));
      try (vm_compute; reflexivity).
    repeat constructor. eexists. split; vm_compute; reflexivity.
Defined.

(** ** The cached client *)

Create HintDb cache discriminated.

Section Cache.
Context `{Collaborators}.

Lemma keeps_cache_unchanged {A} (m : M A) :
  (forall w, _client (m w).2 = _client w /\ rok_module_loaded (m w).2 = rok_module_loaded w) ->
  keeps_cache m.
Proof.
  intros Hm w Hw. destruct (Hm w) as [Hc Hl]. split.
  - unfold world_ok. rewrite Hc, Hl. exact Hw.
  - intros c Hcw. by rewrite Hc.
Qed.

Lemma keeps_cache_ret {A} (a : A) : keeps_cache (ret a).
Proof. by apply keeps_cache_unchanged. Qed.

Lemma keeps_cache_raise {A} e : keeps_cache (@raise _ A e).
Proof. by apply keeps_cache_unchanged. Qed.

Lemma keeps_cache_lift {A} (r : result A) : keeps_cache (lift r).
Proof. by apply keeps_cache_unchanged. Qed.

Lemma keeps_cache_gets {A} (f : world -> A) : keeps_cache (gets f).
Proof. by apply keeps_cache_unchanged. Qed.

Lemma keeps_cache_call {A} (f : ext -> outcome A * ext) : keeps_cache (call f).
Proof.
  apply keeps_cache_unchanged. intros w. unfold call.
  by destruct (f (outside w)) as [[a|x] e].
Qed.

Lemma keeps_cache_log_exception log msg : keeps_cache (log_exception log msg).
Proof. by apply keeps_cache_unchanged. Qed.

Lemma keeps_cache_log_error log msg : keeps_cache (log_error log msg).
Proof. by apply keeps_cache_unchanged. Qed.

Lemma keeps_cache_bind {A B} (m : M A) (k : A -> M B) :
  keeps_cache m -> (forall a, keeps_cache (k a)) -> keeps_cache (bind m k).
Proof.
  intros Hm Hk w Hw. destruct (Hm w Hw) as [Hok Hc]. unfold bind.
  destruct (m w) as [[a|e] w1]; cbn in *; [|done].
  destruct (Hk a w1 Hok) as [Hok' Hc']. split; [done|]. intros c Hcw. by apply Hc', Hc.
Qed.

Lemma keeps_cache_try_except {A} (m : M A) (handler : exn -> M A) :
  keeps_cache m -> (forall e, keeps_cache (handler e)) -> keeps_cache (try_except m handler).
Proof.
  intros Hm Hh w Hw. destruct (Hm w Hw) as [Hok Hc]. unfold try_except.
  destruct (m w) as [[a|e] w1]; cbn in *; [done|].
  destruct (Hh e w1 Hok) as [Hok' Hc']. split; [done|]. intros c Hcw. by apply Hc', Hc.
Qed.

Lemma keeps_cache_try_call {A} (f : ext -> outcome A * ext) (handler : ext_exn -> M A) :
  (forall x, keeps_cache (handler x)) -> keeps_cache (try_call f handler).
Proof.
  intros Hh w Hw. unfold try_call.
  destruct (f (outside w)) as [[a|x] e]; [done|].
  apply (Hh x (set_outside e w)). exact Hw.
Qed.

Lemma keeps_cache_for_each {A} (body : A -> M unit) (xs : list A) :
  (forall x, keeps_cache (body x)) -> keeps_cache (for_each body xs).
Proof.
  intros Hbody. induction xs as [|x xs IH]; cbn.
  - apply keeps_cache_ret.
  - apply keeps_cache_bind; [apply Hbody|]. intros _. exact IH.
Qed.

Lemma keeps_cache_new o : keeps_cache (new o).
Proof. by apply keeps_cache_unchanged. Qed.

Lemma keeps_cache_getitem x k : keeps_cache (getitem x k).
Proof.
  apply keeps_cache_unchanged. intros w. unfold getitem.
  destruct x as [[]|l]; try done.
  destruct (store w !! l) as [[|kvs]|]; try done. by destruct (kvs !! k).
Qed.

Lemma keeps_cache_setitem x k v : keeps_cache (setitem x k v).
Proof.
  apply keeps_cache_unchanged. intros w. unfold setitem.
  destruct x as [|l]; try done. by destruct (store w !! l) as [[|kvs]|].
Qed.

Lemma keeps_cache_list_append xs v : keeps_cache (list_append xs v).
Proof.
  apply keeps_cache_unchanged. intros w. unfold list_append.
  destruct xs as [|l]; try done. by destruct (store w !! l) as [[|kvs]|].
Qed.

Lemma keeps_cache_py_str x : keeps_cache (py_str x).
Proof. apply keeps_cache_gets. Qed.

Lemma keeps_cache_deepcopy x : keeps_cache (deepcopy x).
Proof.
  apply keeps_cache_unchanged. intros w. unfold deepcopy.
  by destruct (deepcopy_heap x (store w)) as [[y [h m]]|].
Qed.

(** [_get_client] is the one place that assigns [_client], and it does so
    only when the cache is empty and the import went through. *)
Lemma keeps_cache_get_client : keeps_cache _get_client.
Proof.
  intros w Hw. unfold _get_client, bind, import_RokClient, gets, call, modify, ret.
  unfold world_ok in *.
  destruct (rok_module_loaded w) eqn:Hl.
  - destruct (_client w) as [c|] eqn:Hc; cbn; [by rewrite Hc|].
    destruct (RokClient (outside w)) as [[c|x] e]; cbn; by rewrite ?Hc.
  - assert (Hc : _client w = None).
    { destruct (_client w); [|done]. by discriminate Hw. }
    destruct (load_rok_gw_client (outside w)) as [[u|x] e1]; cbn; [|by rewrite Hc].
    rewrite Hc. cbn. destruct (RokClient e1) as [[c|x] e]; cbn; by rewrite ?Hc.
Qed.
End Cache.

#[export] Hint Resolve keeps_cache_ret keeps_cache_raise keeps_cache_lift keeps_cache_gets
  keeps_cache_call keeps_cache_log_exception keeps_cache_log_error keeps_cache_new
  keeps_cache_getitem keeps_cache_setitem keeps_cache_list_append keeps_cache_py_str
  keeps_cache_deepcopy keeps_cache_get_client : cache.
#[export] Hint Resolve keeps_cache_bind keeps_cache_try_except keeps_cache_try_call
  keeps_cache_for_each : cache.

(** Breaks a computation down to the primitives, none of which touches the
    cache. *)
Ltac keeps_cache_tac :=
  repeat first
    [ progress auto with cache
    | apply keeps_cache_bind
    | apply keeps_cache_try_except
    | apply keeps_cache_try_call
    | apply keeps_cache_for_each
    | progress cbv zeta
    | match goal with
      | |- keeps_cache (if ?b then _ else _) => destruct b
      | |- keeps_cache (match ?x with Some _ => _ | None => _ end) => destruct x
      | |- forall _, _ => intro
      end ].

Section CacheHandlers.
Context `{Collaborators}.

Lemma keeps_cache_get_task r t b : keeps_cache (get_task r t b).
Proof. unfold get_task. keeps_cache_tac. Qed.

Lemma keeps_cache_snapshot_notebook r b o : keeps_cache (snapshot_notebook r b o).
Proof. unfold snapshot_notebook. keeps_cache_tac. Qed.

Lemma keeps_cache_snapshot_pvc r p b : keeps_cache (snapshot_pvc r p b).
Proof. unfold snapshot_pvc. keeps_cache_tac. Qed.

Lemma keeps_cache_hydrate_pvc_from_snapshot r o v n b :
  keeps_cache (hydrate_pvc_from_snapshot r o v n b).
Proof. unfold hydrate_pvc_from_snapshot. keeps_cache_tac. Qed.

Lemma keeps_cache_get_cloned_volume_loop volume name members :
  keeps_cache (_get_cloned_volume_loop volume name members).
Proof. induction members as [|m members IH]; cbn; keeps_cache_tac. Qed.

Lemma keeps_cache_get_cloned_volume volume obj members :
  keeps_cache (_get_cloned_volume volume obj members).
Proof.
  unfold _get_cloned_volume. pose proof keeps_cache_get_cloned_volume_loop.
  keeps_cache_tac.
Qed.

Lemma keeps_cache_replace_cloned_volumes r b o v vs :
  keeps_cache (replace_cloned_volumes r b o v vs).
Proof.
  unfold replace_cloned_volumes. pose proof keeps_cache_get_cloned_volume.
  keeps_cache_tac.
Qed.

Lemma keeps_cache_check_rok_availability r : keeps_cache (check_rok_availability r).
Proof. unfold check_rok_availability. keeps_cache_tac. Qed.

Lemma keeps_cache_run c w :
  world_ok w -> world_ok (run c w) /\ forall h, _client w = Some h -> _client (run c w) = Some h.
Proof.
  intros Hw. destruct c; cbn.
  - by apply keeps_cache_get_client.
  - by apply keeps_cache_get_task.
  - by apply keeps_cache_snapshot_notebook.
  - by apply keeps_cache_snapshot_pvc.
  - by apply keeps_cache_hydrate_pvc_from_snapshot.
  - by apply keeps_cache_replace_cloned_volumes.
  - by apply keeps_cache_check_rok_availability.
Qed.

Lemma keeps_cache_run_all cs w :
  world_ok w ->
  world_ok (run_all cs w) /\ forall h, _client w = Some h -> _client (run_all cs w) = Some h.
Proof.
  revert w. induction cs as [|c cs IH]; intros w Hw; cbn; [done|].
  destruct (keeps_cache_run c w Hw) as [Hok Hc].
  destruct (IH _ Hok) as [Hok' Hc']. split; [done|]. intros h Hh. by apply Hc', Hc.
Qed.

Lemma run_all_app cs1 cs2 w : run_all (cs1 ++ cs2) w = run_all cs2 (run_all cs1 w).
Proof. unfold run_all. apply fold_left_app. Qed.

Lemma _get_client_cached w c :
  world_ok w -> _client w = Some c -> _get_client w = (Ok c, w).
Proof.
  intros Hw Hc. unfold _get_client, bind, import_RokClient, gets, ret.
  rewrite (Hw ltac:(by rewrite Hc)). by rewrite Hc.
Qed.

(** C8: in a process that started with an empty cache, the call of
    [_get_client] that first succeeds stores the handle it built in
    [_client]; from then on, whatever calls into the module follow,
    [_client] holds that same handle and [_get_client] returns it without
    building another and without changing anything. *)
Theorem _get_client_caches_for_the_process h e before c after :
  let w := run_all before (initial h e) in
  (forall w', _client w = None -> _get_client w = (Ok c, w') ->
     _client w' = Some c /\ exists e e', RokClient e = (Returns c, e')) /\
  (_client w = Some c ->
     _client (run_all after w) = Some c /\
     _get_client (run_all after w) = (Ok c, run_all after w)).
Proof.
  intros w.
  assert (Hw : world_ok w).
  { apply keeps_cache_run_all. unfold world_ok, initial. cbn. by intros [? ?]. }
  split.
  - intros w' Hnone. unfold _get_client, bind, import_RokClient, gets, call, modify, ret.
    destruct (rok_module_loaded w).
    + rewrite Hnone. destruct (RokClient (outside w)) as [[c'|x] e'] eqn:Hnew; cbn;
        intros Hrun; inversion Hrun; subst. split; [done|]. by eexists _, _.
    + destruct (load_rok_gw_client (outside w)) as [[u|x] e1]; cbn;
        [|intros Hrun; inversion Hrun].
      rewrite Hnone. cbn. destruct (RokClient e1) as [[c'|x] e'] eqn:Hnew; cbn;
        intros Hrun; inversion Hrun; subst. split; [done|]. by eexists _, _.
  - intros Hc. destruct (keeps_cache_run_all after w Hw) as [Hok Hkeep].
    split; [by apply Hkeep|]. apply _get_client_cached; [done|by apply Hkeep].
Qed.
End CacheHandlers.

(** ** The object store *)

Lemma extends_refl h : extends h h.
Proof. by intros l o. Qed.

Lemma extends_trans h1 h2 h3 : extends h1 h2 -> extends h2 h3 -> extends h1 h3.
Proof. intros H12 H23 l o Hl. by apply H23, H12. Qed.

Lemma extends_length h h' : extends h h' -> length h <= length h'.
Proof.
  intros Hext. destruct (decide (length h = 0)) as [->|Hne]; [lia|].
  destruct (lookup_lt_is_Some_2 h (length h - 1) ltac:(lia)) as [o Ho].
  apply Hext, lookup_lt_Some in Ho. lia.
Qed.

Lemma extends_app h k : extends h (h ++ k).
Proof. intros l o Hl. by apply lookup_app_l_Some. Qed.

Lemma extends_insert_fresh h h' (y : loc) o :
  extends h h' -> length h <= y -> extends h (<[y := o]> h').
Proof.
  intros Hext Hy l o' Hl. rewrite list_lookup_insert_ne; [by apply Hext|].
  apply lookup_lt_Some in Hl. lia.
Qed.

Lemma extends_lookup_inv h h' l o :
  extends h h' -> l < length h -> h' !! l = Some o -> h !! l = Some o.
Proof.
  intros Hext Hl Ho. destruct (lookup_lt_is_Some_2 h l Hl) as [o' Ho'].
  rewrite (Hext _ _ Ho') in Ho. by injection Ho as <-.
Qed.

Lemma obj_items_vals o : (obj_items o).*2 = obj_vals o.
Proof.
  destruct o as [xs|kvs]; cbn.
  - rewrite <- list_fmap_compose. by rewrite list_fmap_id.
  - by rewrite <- list_fmap_compose.
Qed.

Lemma rename_weaken m m' v :
  m ⊆ m' -> (forall l, v = VRef l -> is_Some (m !! l)) -> rename m' v = rename m v.
Proof.
  intros Hsub Hdef. destruct v as [a|l]; [done|]. cbn.
  destruct (Hdef l eq_refl) as [y Hy]. by rewrite Hy, (lookup_weaken _ _ _ _ Hy Hsub).
Qed.

Lemma rename_obj_weaken m m' o :
  m ⊆ m' -> (forall l, VRef l ∈ obj_vals o -> is_Some (m !! l)) ->
  rename_obj m' o = rename_obj m o.
Proof.
  intros Hsub Hdef. destruct o as [xs|kvs]; cbn in *; f_equal.
  - apply list_fmap_ext. intros i v Hv. apply rename_weaken; [done|].
    intros l ->. apply Hdef. by eapply list_elem_of_lookup_2.
  - apply map_fmap_ext. intros k v Hv. apply rename_weaken; [done|].
    intros l ->. apply Hdef. apply list_elem_of_fmap. exists (k, VRef l).
    split; [done|]. by apply elem_of_map_to_list.
Qed.

Lemma copied_weaken h0 h h' m m' l y :
  copied h0 h m l y -> m ⊆ m' -> h' !! y = h !! y -> copied h0 h' m' l y.
Proof.
  intros (o & Ho & Hy & Hrefs) Hsub Hsame. exists o. split; [done|]. split.
  - rewrite Hsame, Hy. f_equal. symmetry. by apply rename_obj_weaken.
  - intros l' Hl'. destruct (Hrefs l' Hl') as [y' Hy']. exists y'.
    by eapply lookup_weaken.
Qed.

(** Filling an empty container with the renamed elements of [o], one at a
    time, gives [o] renamed. *)
Lemma fold_put_list (f : val -> val) xs acc :
  fold_left (fun o (it : slot * val) => obj_put it.1 (f it.2) o)
    ((fun v => (Append, v)) <$> xs) (OList acc) = OList (acc ++ (f <$> xs)).
Proof.
  revert acc. induction xs as [|x xs IH]; intros acc; cbn.
  - by rewrite app_nil_r.
  - rewrite IH, <- app_assoc. reflexivity.
Qed.

Lemma fold_put_dict_lookup (f : val -> val) (l : list (string * val)) (acc : gmap string val) k :
  NoDup l.*1 ->
  exists kvs,
    fold_left (fun o (it : slot * val) => obj_put it.1 (f it.2) o)
      ((fun kv => (SetKey kv.1, kv.2)) <$> l) (ODict acc) = ODict kvs /\
    kvs !! k = match (list_to_map l : gmap string val) !! k with
               | Some v => Some (f v)
               | None => acc !! k
               end.
Proof.
  revert acc. induction l as [|[k0 v0] l IH]; intros acc Hnd; cbn.
  - exists acc. by rewrite lookup_empty.
  - apply NoDup_cons in Hnd as [Hk0 Hnd].
    destruct (IH (<[k0 := f v0]> acc) Hnd) as (kvs & Hfold & Hlook).
    exists kvs. split; [exact Hfold|]. rewrite Hlook.
    destruct (decide (k0 = k)) as [->|Hne].
    + rewrite lookup_insert_eq. rewrite (not_elem_of_list_to_map_1 l k Hk0).
      by rewrite lookup_insert_eq.
    + cbn. rewrite !lookup_insert_ne by done. reflexivity.
Qed.

Lemma fold_put_rename m o :
  fold_left (fun o' (it : slot * val) => obj_put it.1 (rename m it.2) o')
    (obj_items o) (obj_empty o) = rename_obj m o.
Proof.
  destruct o as [xs|kvs]; cbn.
  - apply fold_put_list.
  - assert (Hex : exists kvs', fold_left
        (fun o' (it : slot * val) => obj_put it.1 (rename m it.2) o')
        ((fun kv => (SetKey kv.1, kv.2)) <$> map_to_list kvs) (ODict ∅) = ODict kvs').
    { destruct (fold_put_dict_lookup (rename m) (map_to_list kvs) ∅ ""
        (NoDup_fst_map_to_list kvs)) as (kvs' & Hfold & _). by exists kvs'. }
    destruct Hex as [kvs' Hfold]. rewrite Hfold. f_equal. apply map_eq. intros k.
    destruct (fold_put_dict_lookup (rename m) (map_to_list kvs) ∅ k
      (NoDup_fst_map_to_list kvs)) as (kvs'' & Hfold' & Hlook).
    rewrite Hfold in Hfold'. injection Hfold' as <-.
    rewrite Hlook, list_to_map_to_list, lookup_fmap, lookup_empty.
    by destruct (kvs !! k).
Qed.

(** ** [copy.deepcopy] *)

(** A memo over the objects of a store that misses one of them is smaller
    than the store. *)
Lemma memo_size_lt (m : memo) (n : nat) (l0 : loc) :
  (forall l y, m !! l = Some y -> l < n) -> m !! l0 = None -> l0 < n -> size m < n.
Proof.
  intros Hkeys Hnone Hl0.
  assert (Hsub : dom m ⊆ (set_seq 0 n : gset nat) ∖ {[l0]}).
  { intros l Hl. apply elem_of_dom in Hl as [y Hy]. apply elem_of_difference. split.
    - apply elem_of_set_seq. specialize (Hkeys _ _ Hy). lia.
    - intros ->%elem_of_singleton. congruence. }
  apply subseteq_size in Hsub. rewrite size_dom in Hsub.
  rewrite size_difference in Hsub.
  - rewrite size_set_seq, size_singleton in Hsub. lia.
  - intros l ->%elem_of_singleton. apply elem_of_set_seq. lia.
Qed.

(** The copy of a knotted store keeps the sharing and the cycle, and leaves
    the original alone. *)
Example deepcopy_knotted :
  deepcopy_heap (VRef 0) knotted_store =
    Some (VRef 2,
          (knotted_store ++
           [ ODict (<["self" := VRef 2]>
                      (<["a" := VRef 3]> (<["b" := VRef 3]> {["name" := VStr "v"]})));
             OList [VRef 2; VAtom (AInt 7)] ],
           <[0 := 2]> {[1 := 3]})).
Proof. vm_compute. reflexivity. Qed.

Section Deepcopy.
Variable h0 : heap.
Hypothesis Hclosed : heap_closed h0.

Lemma copy_inv_alter s v (y : loc) h m :
  copy_inv h0 (h, m) -> length h0 <= y -> copy_inv h0 (alter (obj_put s v) y h, m).
Proof.
  intros (Hext & Hrange & Hcover & Hinj) Hy. cbn in *. split; [|split; [|split]]; cbn.
  - intros l o Hl. rewrite list_lookup_alter_ne; [by apply Hext|].
    apply lookup_lt_Some in Hl. lia.
  - intros l y' Hl. rewrite length_alter. by apply Hrange.
  - intros y'. rewrite length_alter. apply Hcover.
  - exact Hinj.
Qed.

Lemma copy_items_spec cp fuel :
  copier_ok h0 fuel cp ->
  forall items (y : loc) oy st,
    copy_inv h0 st -> length h0 <= size st.2 + fuel ->
    length h0 <= y -> st.1 !! y = Some oy ->
    Forall (val_in h0) items.*2 ->
    exists st',
      copy_items cp y items st = Some st' /\
      length st.1 <= length st'.1 /\
      (forall i o, i <> y -> st.1 !! i = Some o -> st'.1 !! i = Some o) /\
      st.2 ⊆ st'.2 /\ copy_inv h0 st' /\
      st'.1 !! y = Some (fold_left (fun o (it : slot * val) =>
                                      obj_put it.1 (rename st'.2 it.2) o) items oy) /\
      Forall (fun v => forall l, v = VRef l -> is_Some (st'.2 !! l)) items.*2 /\
      (forall l y', st'.2 !! l = Some y' -> st.2 !! l = None ->
         length st.1 <= y' /\ copied h0 st'.1 st'.2 l y').
Proof.
  intros Hcp. induction items as [|[s v] rest IH]; intros y oy [h m] Hinv Hfuel Hy Hoy Hvals.
  - exists (h, m). cbn in *.
    split; [done|]. split; [done|]. split; [done|]. split; [done|]. split; [done|].
    split; [done|]. split; [done|]. intros l y' Hl Hnone. congruence.
  - cbn in Hvals. apply Forall_cons in Hvals as [Hv Hvals].
    destruct (Hcp v (h, m) Hinv Hv Hfuel)
      as (v' & [h1 m1] & Hrun & Hext1 & Hsub1 & Hinv1 & Hv' & Hdef1 & Hnew1).
    cbn in Hext1, Hsub1, Hv', Hdef1, Hnew1, Hoy, Hfuel.
    assert (Hy1 : h1 !! y = Some oy) by by apply Hext1.
    assert (Hlen1 : length h <= length h1) by by apply extends_length.
    destruct (IH y (obj_put s v' oy) (alter (obj_put s v') y h1, m1))
      as ([h' m'] & Hrun' & Hlen' & Hframe' & Hsub' & Hinv' & Hy' & Hdef' & Hnew'); cbn.
    { by apply copy_inv_alter. }
    { pose proof (map_subseteq_size _ _ Hsub1). lia. }
    { done. }
    { by rewrite list_lookup_alter_eq, Hy1. }
    { done. }
    cbn in Hlen', Hframe', Hsub', Hy', Hdef', Hnew'. rewrite length_alter in Hlen'.
    exists (h', m'). cbn. rewrite Hrun. split; [exact Hrun'|].
    split; [lia|]. split; [|split; [|split; [|split; [|split]]]].
    + intros i o Hi Ho. apply Hframe'; [done|].
      rewrite list_lookup_alter_ne by done. by apply Hext1.
    + by etrans.
    + done.
    + rewrite Hy', Hv'. cbn. by rewrite (rename_weaken m1 m' v Hsub' Hdef1).
    + apply Forall_cons. split; [|done].
      intros l ->. destruct (Hdef1 l eq_refl) as [y1 Hy1l]. exists y1.
      by eapply lookup_weaken.
    + intros l y' Hl Hnone. destruct (m1 !! l) as [y1|] eqn:Hm1.
      * assert (y1 = y') as -> by (pose proof (lookup_weaken _ _ _ _ Hm1 Hsub'); congruence).
        destruct (Hnew1 l y' Hm1 Hnone) as [Hge Hcopied]. split; [done|].
        apply (copied_weaken _ _ _ _ _ _ _ Hcopied Hsub').
        destruct Hcopied as (o & _ & Ho & _). rewrite Ho. apply Hframe'.
        { apply lookup_lt_Some in Hoy. lia. }
        rewrite list_lookup_alter_ne; [done|]. apply lookup_lt_Some in Hoy. lia.
      * destruct (Hnew' l y' Hl Hm1) as [Hge Hcopied]. rewrite length_alter in Hge.
        split; [lia|done].
Qed.
Lemma copy_post_refl x h m :
  copy_inv h0 (h, m) -> (forall l, x = VRef l -> is_Some (m !! l)) ->
  copy_post h0 x (h, m) (rename m x) (h, m).
Proof.
  intros Hinv Hdef. split; [apply extends_refl|]. split; [done|]. split; [done|].
  split; [done|]. split; [done|]. cbn. intros l y Hl Hnone. congruence.
Qed.

(** With fuel for every object not yet in the memo, the copier returns. *)
Lemma deepcopy_rec_ok fuel : copier_ok h0 fuel (deepcopy_rec fuel).
Proof.
  induction fuel as [|fuel IH]; intros x [h m] Hinv Hx Hfuel; cbn in Hfuel.
  - destruct x as [a|l]; cbn.
    + exists (VAtom a), (h, m). split; [done|]. by apply (copy_post_refl (VAtom a)).
    + destruct (m !! l) as [y|] eqn:Hm.
      * exists (VRef y), (h, m). split; [done|].
        replace (VRef y) with (rename m (VRef l)) by (cbn; by rewrite Hm).
        apply copy_post_refl; [done|]. intros ? [= <-]. by rewrite Hm.
      * exfalso. destruct Hinv as (_ & Hrange & _ & _). cbn in Hrange.
        pose proof (memo_size_lt m (length h0) l
          (fun l' y' Hl' => proj1 (Hrange l' y' Hl')) Hm (Hx l eq_refl)). lia.
  - destruct x as [a|l]; cbn.
    + exists (VAtom a), (h, m). split; [done|]. by apply (copy_post_refl (VAtom a)).
    + destruct (m !! l) as [y|] eqn:Hm.
      * exists (VRef y), (h, m). split; [done|].
        replace (VRef y) with (rename m (VRef l)) by (cbn; by rewrite Hm).
        apply copy_post_refl; [done|]. intros ? [= <-]. by rewrite Hm.
      * pose proof (Hx l eq_refl) as Hl.
        destruct (lookup_lt_is_Some_2 h0 l Hl) as [o Ho].
        destruct Hinv as (Hext & Hrange & Hcover & Hinj). cbn in Hext, Hrange, Hcover, Hinj.
        rewrite (Hext _ _ Ho).
        pose proof (extends_length _ _ Hext) as Hlen.
        destruct (copy_items_spec (deepcopy_rec fuel) fuel IH (obj_items o) (length h)
                    (obj_empty o) (h ++ [obj_empty o], <[l := length h]> m))
          as ([h' m'] & Hrun & Hlen' & Hframe & Hsub & Hinv' & Hy & Hdef & Hnew); cbn.
        { split; [|split; [|split]]; cbn.
          - eapply extends_trans; [exact Hext|apply extends_app].
          - intros l' y'. rewrite length_app. cbn. rewrite lookup_insert.
            case_decide as Hdec.
            + intros [= <-]. subst l'. lia.
            + intros Hl'. specialize (Hrange _ _ Hl'). lia.
          - intros y'. rewrite length_app. cbn. intros Hy'.
            destruct (decide (y' = length h)) as [->|Hne].
            + exists l. by rewrite lookup_insert_eq.
            + destruct (Hcover y' ltac:(lia)) as [l' Hl']. exists l'.
              rewrite lookup_insert_ne; [done|]. congruence.
          - intros l1 l2 y'. rewrite !lookup_insert.
            repeat case_decide; subst; intros Hl1 Hl2; try done.
            + injection Hl1 as <-. specialize (Hrange _ _ Hl2). lia.
            + injection Hl2 as <-. specialize (Hrange _ _ Hl1). lia.
            + by eapply Hinj. }
        { rewrite map_size_insert_None by done. lia. }
        { done. }
        { by rewrite list_lookup_middle. }
        { rewrite obj_items_vals. apply Forall_forall. intros v Hv l' ->.
          by eapply Hclosed. }
        cbn in Hlen', Hframe, Hsub, Hy, Hdef, Hnew. rewrite Hrun.
        rewrite length_app in Hlen'. cbn in Hlen'.
        assert (Hml : m' !! l = Some (length h)).
        { eapply lookup_weaken; [|exact Hsub]. by rewrite lookup_insert_eq. }
        exists (VRef (length h)), (h', m'). split; [done|].
        split; [|split; [|split; [|split; [|split]]]]; cbn.
        -- intros i o' Hi. apply Hframe.
           ++ apply lookup_lt_Some in Hi. lia.
           ++ by apply lookup_app_l_Some.
        -- etrans; [|exact Hsub]. by apply insert_subseteq.
        -- done.
        -- by rewrite Hml.
        -- intros ? [= <-]. by rewrite Hml.
        -- intros l' y' Hl' Hnone. destruct (decide (l' = l)) as [->|Hne].
           ++ assert (y' = length h) as -> by congruence. split; [done|].
              exists o. split; [done|]. split.
              ** rewrite Hy. f_equal. apply fold_put_rename.
              ** intros l'' Hl''. rewrite <- obj_items_vals in Hl''.
                 rewrite Forall_forall in Hdef. by apply (Hdef _ Hl'').
           ++ destruct (Hnew l' y' Hl') as [Hge Hcopied].
              { by rewrite lookup_insert_ne. }
              rewrite length_app in Hge. cbn in Hge. split; [lia|done].
Qed.

(** [copy.deepcopy(x)] on a closed store returns; it writes to no object
    that existed, and the objects it allocates are, under the memo it ends
    with, the copies of the objects reachable from [x]. *)
Lemma deepcopy_heap_spec x :
  val_in h0 x ->
  exists x' h' m,
    deepcopy_heap x h0 = Some (x', (h', m)) /\
    extends h0 h' /\ copy_inv h0 (h', m) /\
    x' = rename m x /\
    (forall l, x = VRef l -> is_Some (m !! l)) /\
    (forall l y, m !! l = Some y -> copied h0 h' m l y).
Proof.
  intros Hx. unfold deepcopy_heap.
  destruct (deepcopy_rec_ok (length h0) x (h0, ∅))
    as (x' & [h' m] & Hrun & Hext & _ & Hinv & Hx' & Hdef & Hnew); cbn.
  - split; [apply extends_refl|]. split; [|split]; cbn.
    + intros l y Hl. by rewrite lookup_empty in Hl.
    + intros y Hy. lia.
    + intros l1 l2 y Hl. by rewrite lookup_empty in Hl.
  - done.
  - lia.
  - exists x', h', m. cbn in *. repeat (split; [done|]).
    intros l y Hl. by apply Hnew.
Qed.
(** Everything reachable from a copied value is in the memo. *)
Lemma reachable_in_memo h' (m : gmap nat nat) v l1 :
  (forall l y, m !! l = Some y -> copied h0 h' m l y) ->
  reachable h0 v l1 -> (forall l, v = VRef l -> is_Some (m !! l)) -> is_Some (m !! l1).
Proof.
  intros Hcopied Hreach. induction Hreach as [l|l o v l' Hl Hin _ IH]; intros Hv.
  - by apply Hv.
  - apply IH. intros l0 ->. destruct (Hv l eq_refl) as [y Hy].
    destruct (Hcopied l y Hy) as (o' & Ho' & _ & Hrefs).
    rewrite Hl in Ho'. injection Ho' as <-. by apply Hrefs.
Qed.
End Deepcopy.

(** ** Running the object operations *)

Section ObjectRuns.
Context `{Collaborators}.

Lemma getitem_run w (l : loc) kvs k v :
  store w !! l = Some (ODict kvs) -> kvs !! k = Some v -> getitem (VRef l) k w = (Ok v, w).
Proof. intros Hl Hk. unfold getitem. by rewrite Hl, Hk. Qed.

Lemma getitem_absent w (l : loc) kvs k :
  store w !! l = Some (ODict kvs) -> kvs !! k = None ->
  getitem (VRef l) k w = (Raise (KeyError k), w).
Proof. intros Hl Hk. unfold getitem. by rewrite Hl, Hk. Qed.

Lemma setitem_run w (l : loc) kvs k v :
  store w !! l = Some (ODict kvs) ->
  setitem (VRef l) k v w = (Ok tt, set_store (<[l := ODict (<[k := v]> kvs)]> (store w)) w).
Proof. intros Hl. unfold setitem. by rewrite Hl. Qed.

Lemma list_append_run w (l : loc) ys v :
  store w !! l = Some (OList ys) ->
  list_append (VRef l) v w = (Ok tt, set_store (<[l := OList (ys ++ [v])]> (store w)) w).
Proof. intros Hl. unfold list_append. by rewrite Hl. Qed.

Lemma new_run w o : new o w = (Ok (VRef (length (store w))), set_store (store w ++ [o]) w).
Proof. reflexivity. Qed.

Lemma elem_of_dict_vals (kvs : gmap string val) v :
  v ∈ obj_vals (ODict kvs) <-> exists k, kvs !! k = Some v.
Proof.
  cbn. rewrite list_elem_of_fmap. split.
  - intros ([k v'] & -> & Hkv). exists k. by apply elem_of_map_to_list in Hkv.
  - intros [k Hk]. exists (k, v). split; [done|]. by apply elem_of_map_to_list.
Qed.

Lemma _get_cloned_volume_loop_skip volume name before rest w :
  Forall (fun m => atom_eq_str (member_object m) name = false) before ->
  _get_cloned_volume_loop volume name (before ++ rest) w
  = _get_cloned_volume_loop volume name rest w.
Proof. induction 1 as [|m before Hm _ IH]; cbn; [done|]. by rewrite Hm. Qed.

Lemma _get_cloned_volume_loop_no_match volume name members w :
  Forall (fun m => atom_eq_str (member_object m) name = false) members ->
  _get_cloned_volume_loop volume name members w = (Ok None, w).
Proof. induction 1 as [|m members Hm _ IH]; cbn; [done|]. by rewrite Hm. Qed.

Lemma first_match_split name members i member :
  first_match name members i member ->
  exists before after,
    members = before ++ member :: after /\
    Forall (fun m => atom_eq_str (member_object m) name = false) before.
Proof.
  intros (Hi & _ & Hbefore). exists (take i members), (drop (S i) members). split.
  - symmetry. by apply take_drop_middle.
  - apply Forall_forall. intros m Hm. apply list_elem_of_lookup in Hm as [j Hj].
    pose proof (lookup_lt_Some _ _ _ Hj) as Hlt. rewrite length_take in Hlt.
    rewrite lookup_take_lt in Hj by lia. eapply Hbefore; [|exact Hj]. lia.
Qed.
Lemma rename_ref (m : gmap nat nat) v l' :
  rename m v = VRef l' -> (forall l0, v = VRef l0 -> is_Some (m !! l0)) ->
  exists l0, v = VRef l0 /\ m !! l0 = Some l'.
Proof.
  destruct v as [a|l0]; cbn; [done|]. intros Hren Hdef.
  destruct (Hdef l0 eq_refl) as [y Hy]. rewrite Hy in Hren. injection Hren as <-.
  by exists l0.
Qed.

(** A reference held by a copy is the copy of a reference held by the
    original. *)
Lemma renamed_vals (m : gmap nat nat) o l' :
  VRef l' ∈ obj_vals (rename_obj m o) ->
  (forall l0, VRef l0 ∈ obj_vals o -> is_Some (m !! l0)) ->
  exists l0, VRef l0 ∈ obj_vals o /\ m !! l0 = Some l'.
Proof.
  destruct o as [xs|kvs]; intros Hin Hdef.
  - cbn in Hin. apply list_elem_of_fmap in Hin as (v & Hv & Hin). symmetry in Hv.
    destruct (rename_ref m v l' Hv) as (l0 & -> & Hl0).
    + intros l0 ->. by apply Hdef.
    + by exists l0.
  - change (rename_obj m (ODict kvs)) with (ODict (rename m <$> kvs)) in Hin.
    apply elem_of_dict_vals in Hin as [k Hk]. rewrite lookup_fmap in Hk.
    destruct (kvs !! k) as [v|] eqn:Hkv; [|done]. cbn in Hk. injection Hk as Hk.
    destruct (rename_ref m v l' Hk) as (l0 & -> & Hl0).
    + intros l0 ->. apply Hdef, elem_of_dict_vals. by exists k.
    + exists l0. split; [|done]. apply elem_of_dict_vals. by exists k.
Qed.

(** The branch of the loop taken at a matching member. *)
Lemma _get_cloned_volume_loop_match w (l : loc) d member rest name :
  heap_closed (store w) -> store w !! l = Some (ODict d) ->
  atom_eq_str (member_object member) name = true ->
  exists y m la ld h',
    _get_cloned_volume_loop (VRef l) name (member :: rest) w
      = (Ok (Some (VRef y)), set_store h' w) /\
    cloned (store w) h' l d (member_rok_url member) y m la ld.
Proof.
  intros Hclosed Hl Hmatch. cbn [_get_cloned_volume_loop]. rewrite Hmatch.
  destruct (deepcopy_heap_spec (store w) Hclosed (VRef l))
    as (x' & h1 & m & Hrun & Hext & Hinv & Hx' & Hdef & Hcopied).
  { intros ? [= <-]. by eapply lookup_lt_Some. }
  destruct (Hdef l eq_refl) as [y Hy]. cbn in Hx'. rewrite Hy in Hx'. subst x'.
  destruct (Hcopied l y Hy) as (o & Ho & Hy1 & Hrefs).
  rewrite Hl in Ho. injection Ho as <-. cbn in Hy1.
  destruct Hinv as (_ & Hrange & Hcover & Hinj). cbn in Hrange, Hcover, Hinj.
  pose proof (lookup_lt_Some _ _ _ Hy1) as Hylt.
  destruct (Hrange _ _ Hy) as [Hlold Hyfresh].
  set (fields1 := <["type" := VStr "new_pvc"]> (rename m <$> d)).
  set (h2 := <[y := ODict fields1]> h1).
  set (ld := length h1). set (la := S (length h1)).
  set (h4 := (h2 ++ [origin_annotation (member_rok_url member)]) ++ [OList [VRef ld]]).
  set (h5 := <[y := ODict (new_pvc_fields m d la)]> h4).
  assert (Hlen2 : length h2 = length h1) by apply length_insert.
  assert (Hlen4 : length h4 = S (S (length h1))).
  { unfold h4. rewrite !length_app. cbn. lia. }
  assert (Hlen5 : length h5 = S (S (length h1))).
  { unfold h5. by rewrite length_insert. }
  assert (H4y : h4 !! y = Some (ODict fields1)).
  { unfold h4. rewrite !lookup_app_l by (rewrite ?length_app; lia).
    unfold h2. by rewrite list_lookup_insert_eq. }
  assert (Hother : forall i, i < length h1 -> i <> y -> h5 !! i = h1 !! i).
  { intros i Hi Hne. unfold h5. rewrite list_lookup_insert_ne by done.
    unfold h4. rewrite !lookup_app_l by (rewrite ?length_app; lia).
    unfold h2. by rewrite list_lookup_insert_ne. }
  assert (H5la : h5 !! la = Some (OList [VRef ld])).
  { unfold h5. rewrite list_lookup_insert_ne by (unfold la; lia).
    unfold h4. rewrite lookup_app_r by (rewrite length_app; cbn; unfold la; lia).
    rewrite length_app, Hlen2. cbn. unfold la.
    by replace (S (length h1) - (length h1 + 1)) with 0 by lia. }
  assert (H5ld : h5 !! ld = Some (origin_annotation (member_rok_url member))).
  { unfold h5. rewrite list_lookup_insert_ne by (unfold ld; lia).
    unfold h4. rewrite lookup_app_l by (rewrite length_app; cbn; unfold ld; lia).
    rewrite lookup_app_r by (unfold ld; lia). rewrite Hlen2. unfold ld.
    by rewrite Nat.sub_diag. }
  assert (H5y : h5 !! y = Some (ODict (new_pvc_fields m d la))).
  { unfold h5. rewrite list_lookup_insert_eq; [done|lia]. }
  exists y, m, la, ld, h5. split.
  - erewrite bind_ok; [|unfold deepcopy; rewrite Hrun; reflexivity].
    erewrite bind_ok; [|apply setitem_run; cbn; exact Hy1].
    erewrite bind_ok; [|apply new_run].
    erewrite bind_ok; [|apply new_run].
    erewrite bind_ok; [|apply setitem_run; cbn; fold fields1 h2; rewrite Hlen2; exact H4y].
    unfold ret, set_store. cbn [store _client rok_module_loaded logged outside].
    fold fields1 h2. rewrite !length_app, Hlen2. cbn [length].
    replace (length h1 + 1) with (S (length h1)) by lia. reflexivity.
  - split; [|split; [|split; [|split; [|split; [|split; [|split; [|split;
      [|split; [|split; [|split; [|split]]]]]]]]]]]; try done.
    + intros i o Hi. pose proof (lookup_lt_Some _ _ _ Hi) as Hlt.
      rewrite Hother by lia. by apply Hext.
    + intros l1 y1 Hl1. specialize (Hrange _ _ Hl1). lia.
    + intros l1 y1 Hl1 Hne. destruct (Hrange _ _ Hl1) as [_ Hy1r].
      assert (y1 <> y) by (intros ->; by apply Hne, (Hinj l1 l y)).
      eapply copied_weaken; [by apply Hcopied|done|]. apply Hother; [lia|done].
    + intros k l1 Hk. apply Hrefs, elem_of_dict_vals. by exists k.
    + unfold ld, la. lia.
    + lia.
    + intros y' o l' Hy' Ho Hin.
      pose proof (lookup_lt_Some _ _ _ Ho) as Hlt. rewrite Hlen5 in Hlt.
      rewrite Hlen5.
      destruct (decide (y' = y)) as [->|Hney].
      { rewrite H5y in Ho. injection Ho as <-.
        apply elem_of_dict_vals in Hin as [k Hk]. unfold new_pvc_fields in Hk.
        rewrite !lookup_insert in Hk. repeat case_decide; try done.
        - injection Hk as <-. unfold la. lia.
        - rewrite lookup_fmap in Hk. destruct (d !! k) as [v|] eqn:Hdk; [|done].
          cbn in Hk. injection Hk as Hk.
          destruct (rename_ref m v l' Hk) as (l0 & -> & Hl0).
          + intros l0 ->. apply Hrefs, elem_of_dict_vals. by exists k.
          + specialize (Hrange _ _ Hl0). lia. }
      destruct (decide (y' = la)) as [->|Hnela].
      { rewrite H5la in Ho. injection Ho as <-. cbn in Hin.
        apply list_elem_of_singleton in Hin. injection Hin as ->. unfold ld. lia. }
      destruct (decide (y' = ld)) as [->|Hneld].
      { rewrite H5ld in Ho. injection Ho as <-.
        apply elem_of_dict_vals in Hin as [k Hk]. rewrite !lookup_insert in Hk.
        repeat case_decide; try done. by apply lookup_singleton_Some in Hk as [_ Hk]. }
      assert (Hy'lt : y' < length h1) by (unfold la, ld in *; lia).
      rewrite Hother in Ho by done.
      destruct (Hcover y' ltac:(lia)) as [l0 Hl0].
      destruct (Hcopied _ _ Hl0) as (o0 & _ & Ho0 & Hrefs0).
      rewrite Ho0 in Ho. injection Ho as <-.
      destruct (renamed_vals m o0 l' Hin Hrefs0) as (l1 & _ & Hl1).
      specialize (Hrange _ _ Hl1). lia.
    + intros l1 Hreach. eapply reachable_in_memo; [exact Hcopied|exact Hreach|].
      intros ? [= <-]. by rewrite Hy.
Qed.
End ObjectRuns.

(** ** Resolving a clone *)

Lemma reachable_old h v l :
  heap_closed h -> val_in h v -> reachable h v l -> l < length h.
Proof.
  intros Hclosed Hv Hreach. induction Hreach as [l|l o v l' Hl Hin _ IH].
  - by apply Hv.
  - apply IH. intros l0 ->. by eapply Hclosed.
Qed.

Lemma reachable_fresh n h v l :
  fresh_closed n h -> (forall l0, v = VRef l0 -> n <= l0) -> reachable h v l -> n <= l.
Proof.
  intros Hfresh Hv Hreach. induction Hreach as [l|l o v l' Hl Hin _ IH].
  - by apply Hv.
  - apply IH. intros l0 ->. eapply Hfresh; [|exact Hl|exact Hin]. by apply Hv.
Qed.

Lemma heap_closed_fresh h h' :
  heap_closed h -> extends h h' -> fresh_closed (length h) h' -> heap_closed h'.
Proof.
  intros Hclosed Hext Hfresh l o l' Hl Hin.
  destruct (decide (l < length h)) as [Hlt|Hge].
  - pose proof (extends_lookup_inv _ _ _ _ Hext Hlt Hl) as Hl0.
    pose proof (Hclosed _ _ _ Hl0 Hin). pose proof (extends_length _ _ Hext). lia.
  - eapply Hfresh; [|exact Hl|exact Hin]. lia.
Qed.

Lemma heap_closed_insert h (i : loc) o :
  heap_closed h -> (forall l', VRef l' ∈ obj_vals o -> l' < length h) ->
  heap_closed (<[i := o]> h).
Proof.
  intros Hclosed Ho l o' l' Hl Hin. rewrite length_insert.
  destruct (decide (i = l)) as [->|Hne].
  - pose proof (lookup_lt_Some _ _ _ Hl) as Hlt. rewrite length_insert in Hlt.
    rewrite list_lookup_insert_eq in Hl by done.
    injection Hl as <-. by apply Ho.
  - rewrite list_lookup_insert_ne in Hl by done. by eapply Hclosed.
Qed.

Lemma heap_closed_app h o :
  heap_closed h -> (forall l', VRef l' ∈ obj_vals o -> l' < length h) ->
  heap_closed (h ++ [o]).
Proof.
  intros Hclosed Ho l o' l' Hl Hin. rewrite length_app. cbn.
  apply lookup_app_Some in Hl as [Hl|[_ Hl]].
  - pose proof (Hclosed _ _ _ Hl Hin). lia.
  - apply list_lookup_singleton_Some in Hl as [_ <-]. specialize (Ho _ Hin). lia.
Qed.

Section Resolve.
Context `{Collaborators}.

Lemma _get_cloned_volume_resolves w (l : loc) d nm obj members i member :
  heap_closed (store w) -> store w !! l = Some (ODict d) -> d !! "name" = Some nm ->
  first_match (obj +:+ "_" +:+ str_of_val (store w) nm) members i member ->
  exists y m la ld h',
    _get_cloned_volume (VRef l) obj members w = (Ok (VRef y), set_store h' w) /\
    cloned (store w) h' l d (member_rok_url member) y m la ld.
Proof.
  intros Hclosed Hl Hname Hfirst.
  destruct (first_match_split _ _ _ _ Hfirst) as (before & after & -> & Hbefore).
  destruct Hfirst as (_ & Hmatch & _).
  destruct (_get_cloned_volume_loop_match w l d member after _ Hclosed Hl Hmatch)
    as (y & m & la & ld & h' & Hrun & Hcloned).
  exists y, m, la, ld, h'. split; [|done].
  unfold _get_cloned_volume.
  rewrite (bind_ok _ _ _ _ _ (getitem_run _ _ _ _ _ Hl Hname)).
  unfold bind at 1, py_str at 1, gets at 1.
  unfold bind at 1. by rewrite _get_cloned_volume_loop_skip, Hrun.
Qed.

Lemma _get_cloned_volume_not_found w (l : loc) d nm obj members :
  store w !! l = Some (ODict d) -> d !! "name" = Some nm ->
  Forall (fun m => atom_eq_str (member_object m)
                     (obj +:+ "_" +:+ str_of_val (store w) nm) = false) members ->
  _get_cloned_volume (VRef l) obj members w
  = (Raise (ValueError ("Volume '" +:+ str_of_val (store w) nm +:+
                        "' not found in group '" +:+ obj +:+ "'")), w).
Proof.
  intros Hl Hname Hnone. unfold _get_cloned_volume.
  rewrite (bind_ok _ _ _ _ _ (getitem_run _ _ _ _ _ Hl Hname)).
  unfold bind at 1, py_str at 1, gets at 1.
  unfold bind at 1. rewrite _get_cloned_volume_loop_no_match by done.
  rewrite (bind_ok _ _ _ _ _ (getitem_run _ _ _ _ _ Hl Hname)).
  reflexivity.
Qed.

Lemma _get_cloned_volume_no_name w (l : loc) d obj members :
  store w !! l = Some (ODict d) -> d !! "name" = None ->
  _get_cloned_volume (VRef l) obj members w = (Raise (KeyError "name"), w).
Proof.
  intros Hl Hname. unfold _get_cloned_volume.
  by rewrite (bind_raise _ _ _ _ _ (getitem_absent _ _ _ _ Hl Hname)).
Qed.

Lemma first_match_exists name members j mj :
  members !! j = Some mj -> atom_eq_str (member_object mj) name = true ->
  exists i member, first_match name members i member.
Proof.
  intros Hj Hmatch.
  destruct (list_find_elem_of (fun m => atom_eq_str (member_object m) name = true)
              members mj) as [[i member] Hfind]; [by eapply list_elem_of_lookup_2|done|].
  apply list_find_Some in Hfind as (Hi & Hm & Hbefore).
  exists i, member. split; [done|]. split; [done|].
  intros j' m' Hlt Hj'. specialize (Hbefore _ _ Hj' Hlt).
  by destruct (atom_eq_str (member_object m') name).
Qed.
End Resolve.

Lemma heap_closedb_sound h : heap_closedb h = true -> heap_closed h.
Proof.
  unfold heap_closedb. rewrite forallb_forall. intros Hall l o l' Hl Hin.
  specialize (Hall o ltac:(apply list_elem_of_In; by eapply list_elem_of_lookup_2)).
  rewrite forallb_forall in Hall.
  specialize (Hall (VRef l') ltac:(by apply list_elem_of_In)). cbn in Hall.
  by apply Nat.ltb_lt.
Qed.

Lemma reachable_extends_old h h' v l :
  heap_closed h -> extends h h' -> val_in h v -> reachable h' v l -> l < length h.
Proof.
  intros Hclosed Hext Hv Hreach. induction Hreach as [l|l o v l' Hl Hin _ IH].
  - by apply Hv.
  - apply IH. intros l0 ->.
    pose proof (extends_lookup_inv _ _ _ _ Hext (Hv l eq_refl) Hl) as Hl0.
    by eapply Hclosed.
Qed.

(** *** Equality of a copy and its original *)

Lemma atom_eqb_refl a : atom_eqb a a = true.
Proof.
  destruct a as [|[]|z|s]; cbn; try done.
  - apply Z.eqb_refl.
  - apply String.eqb_refl.
Qed.

Lemma all2_fmap {A B} (f : A -> B -> bool) (g : A -> B) xs :
  (forall x, x ∈ xs -> f x (g x) = true) -> all2 f xs (g <$> xs) = true.
Proof.
  induction xs as [|x xs IH]; intros Hall; cbn; [done|].
  rewrite Hall by left. apply IH. intros x' Hx'. apply Hall. by right.
Qed.

Lemma shallow_S h n v : shallow h n v -> shallow h (S n) v.
Proof.
  revert v. induction n as [|n IH]; intros v Hv; inversion Hv; subst;
    try constructor.
  econstructor; [done|]. eapply Forall_impl; [done|]. apply IH.
Qed.

Lemma shallow_reachable h n v l1 :
  reachable h v l1 -> shallow h n v -> shallow h n (VRef l1).
Proof.
  intros Hreach. revert n. induction Hreach as [l|l o v l' Hl Hin _ IH]; intros n Hv; [done|].
  inversion Hv as [|n0 l0 o0 Hl0 Hvals]; subst.
  rewrite Hl in Hl0. injection Hl0 as <-.
  apply shallow_S, IH. rewrite Forall_forall in Hvals. by apply Hvals.
Qed.

(** An object of bounded depth is not reachable from its own elements. *)
Lemma shallow_no_cycle h n (l : loc) o v :
  shallow h n (VRef l) -> h !! l = Some o -> v ∈ obj_vals o -> reachable h v l -> False.
Proof.
  revert l o v. induction n as [|n IH]; intros l o v Hsh Hl Hin Hreach;
    inversion Hsh as [|n0 l0 o0 Hl0 Hvals]; subst.
  rewrite Hl in Hl0. injection Hl0 as <-.
  rewrite Forall_forall in Hvals.
  eapply (IH l o v); [|done|done|done].
  eapply shallow_reachable; [exact Hreach|]. by apply Hvals.
Qed.

(** A value of bounded depth all of whose objects have finished copies
    compares equal to its copy. *)
Lemma copy_py_eq h0 h' (m : gmap nat nat) n v :
  extends h0 h' -> shallow h0 n v ->
  (forall l1, reachable h0 v l1 -> exists y1, m !! l1 = Some y1 /\ copied h0 h' m l1 y1) ->
  py_eq n h' v (rename m v) = true.
Proof.
  intros Hext. revert v. induction n as [|n IH]; intros v Hsh Hall;
    inversion Hsh as [n0 a|n0 l o Hl Hvals]; subst; cbn [rename py_eq];
    try apply atom_eqb_refl.
  destruct (Hall l (reach_here _ l)) as (y & Hy & o' & Ho' & Hcopy & _).
  rewrite Hl in Ho'. injection Ho' as <-. rewrite Hy. cbn [py_eq].
  rewrite (Hext _ _ Hl), Hcopy. rewrite Forall_forall in Hvals.
  assert (Hsub : forall v1, v1 ∈ obj_vals o ->
            py_eq n h' v1 (rename m v1) = true).
  { intros v1 Hv1. apply IH; [by apply Hvals|].
    intros l1 Hreach. apply Hall. by eapply reach_step. }
  destruct o as [xs|d]; cbn [rename_obj].
  - by apply all2_fmap.
  - apply andb_true_intro. split.
    + apply bool_decide_eq_true. by rewrite dom_fmap_L.
    + apply forallb_forall. intros [k v1] Hkv. apply list_elem_of_In in Hkv.
      apply elem_of_map_to_list in Hkv. cbn. rewrite lookup_fmap, Hkv. cbn.
      apply Hsub, elem_of_dict_vals. by exists k.
Qed.

(** In a resolved clone of a volume without cycles, each field copied from
    the input compares equal to the field it was copied from. *)
Lemma cloned_field_eq h h' (l : loc) d url y m la ld n k v :
  cloned h h' l d url y m la ld -> h !! l = Some (ODict d) ->
  shallow h (S n) (VRef l) -> d !! k = Some v ->
  py_eq n h' v (rename m v) = true.
Proof.
  intros (Hext & _ & _ & _ & Hcopies & _ & _ & _ & _ & _ & _ & _ & Hdom) Hl Hsh Hk.
  assert (Hin : v ∈ obj_vals (ODict d)) by (apply elem_of_dict_vals; by exists k).
  inversion Hsh as [|n0 l0 o0 Hl0 Hvals]; subst.
  rewrite Hl in Hl0. injection Hl0 as <-. rewrite Forall_forall in Hvals.
  apply (copy_py_eq h); [done|by apply Hvals|].
  intros l1 Hreach.
  destruct (Hdom l1 (reach_step _ _ _ _ _ Hl Hin Hreach)) as [y1 Hy1].
  exists y1. split; [done|]. apply Hcopies; [done|].
  intros ->. by eapply (shallow_no_cycle h (S n) l (ODict d) v).
Qed.

Section ResolveProperties.
Context `{Collaborators}.

(** C1: when some member's object name is the group object name, an
    underscore and the name of the volume, [_get_cloned_volume] returns a
    new dict whose fields are those of a deep copy of the input, except that
    [type] is [new_pvc] and [annotations] is a new one-element list holding
    the new dict [{key: rok/origin, value: u}], [u] being the [rok_url] of
    the first such member in ascending index order.  Every object copied is
    the same container with each reference replaced by the copy of its
    target, so that for an input without cycles each copied field compares
    equal to the field of the input. *)
Theorem _get_cloned_volume_first_match w (l : loc) d nm obj members j mj :
  heap_closed (store w) ->
  store w !! l = Some (ODict d) -> d !! "name" = Some nm ->
  members !! j = Some mj ->
  atom_eq_str (member_object mj) (obj +:+ "_" +:+ str_of_val (store w) nm) = true ->
  exists i member y m la ld h',
    first_match (obj +:+ "_" +:+ str_of_val (store w) nm) members i member /\
    _get_cloned_volume (VRef l) obj members w = (Ok (VRef y), set_store h' w) /\
    h' !! y = Some (ODict (<["annotations" := VRef la]>
                             (<["type" := VStr "new_pvc"]> (rename m <$> d)))) /\
    h' !! la = Some (OList [VRef ld]) /\
    h' !! ld = Some (ODict (<["value" := VAtom (member_rok_url member)]>
                              {["key" := VStr "rok/origin"]})) /\
    (forall k a, d !! k = Some (VAtom a) -> (rename m <$> d) !! k = Some (VAtom a)) /\
    (forall k l1, d !! k = Some (VRef l1) ->
       exists y1, m !! l1 = Some y1 /\ (rename m <$> d) !! k = Some (VRef y1)) /\
    (forall l1 y1, m !! l1 = Some y1 -> l1 <> l -> copied (store w) h' m l1 y1) /\
    (forall n k v, shallow (store w) (S n) (VRef l) -> d !! k = Some v ->
       (rename m <$> d) !! k = Some (rename m v) /\ py_eq n h' v (rename m v) = true).
Proof.
  intros Hclosed Hl Hname Hj Hmatch.
  destruct (first_match_exists _ _ _ _ Hj Hmatch) as (i & member & Hfirst).
  destruct (_get_cloned_volume_resolves w l d nm obj members i member Hclosed Hl Hname Hfirst)
    as (y & m & la & ld & h' & Hrun & Hcloned).
  pose proof Hcloned as (_ & _ & _ & _ & Hcopies & Hrefs & Hy & Hla & Hld & _).
  exists i, member, y, m, la, ld, h'. repeat (split; [done|]).
  split; [|split; [|split; [done|]]].
  - intros k a Hk. by rewrite lookup_fmap, Hk.
  - intros k l1 Hk. destruct (Hrefs k l1 Hk) as [y1 Hy1]. exists y1. split; [done|].
    rewrite lookup_fmap, Hk. cbn. by rewrite Hy1.
  - intros n k v Hsh Hk. split; [by rewrite lookup_fmap, Hk|].
    by eapply cloned_field_eq.
Qed.

(** C3 (amended): when no member's object name is the group object name, an
    underscore and the name of the volume, [_get_cloned_volume] raises
    [ValueError], which is none of the RPC-typed conditions; its message
    names the volume and the group object, and the store is as it was. *)
Theorem _get_cloned_volume_no_match w (l : loc) d nm obj members :
  store w !! l = Some (ODict d) -> d !! "name" = Some nm ->
  (forall j mj, members !! j = Some mj ->
     atom_eq_str (member_object mj) (obj +:+ "_" +:+ str_of_val (store w) nm) = false) ->
  let e := ValueError ("Volume '" +:+ str_of_val (store w) nm +:+
                       "' not found in group '" +:+ obj +:+ "'") in
  _get_cloned_volume (VRef l) obj members w = (Raise e, w) /\ is_rpc_error e = false.
Proof.
  intros Hl Hname Hnone e. split; [|done].
  apply _get_cloned_volume_not_found with (d := d); [done|done|].
  apply Forall_forall. intros m Hm. apply list_elem_of_lookup in Hm as [j Hj].
  by eapply Hnone.
Qed.

(** C7: a resolved clone is built from a deep copy.  Every object that
    existed before the call, the input descriptor and all it refers to among
    them, is unchanged; every object reachable from the result was
    allocated by the call, so the result shares no object with the input;
    and outside [type] and [annotations] each field of the result is the
    copy of the same field of the input, equal to it when the input has no
    cycle. *)
Theorem _get_cloned_volume_leaves_input w (l : loc) d nm obj members i member :
  heap_closed (store w) ->
  store w !! l = Some (ODict d) -> d !! "name" = Some nm ->
  first_match (obj +:+ "_" +:+ str_of_val (store w) nm) members i member ->
  exists y m fields h',
    _get_cloned_volume (VRef l) obj members w = (Ok (VRef y), set_store h' w) /\
    extends (store w) h' /\
    h' !! l = Some (ODict d) /\
    (forall l', reachable h' (VRef l) l' ->
       l' < length (store w) /\ h' !! l' = store w !! l') /\
    (forall l', reachable h' (VRef y) l' -> length (store w) <= l') /\
    (forall l', reachable h' (VRef l) l' -> ~ reachable h' (VRef y) l') /\
    h' !! y = Some (ODict fields) /\
    (forall k, k <> "type" -> k <> "annotations" -> fields !! k = rename m <$> d !! k) /\
    (forall k a, k <> "type" -> k <> "annotations" ->
       d !! k = Some (VAtom a) -> fields !! k = Some (VAtom a)) /\
    (forall k l1, d !! k = Some (VRef l1) -> exists y1, m !! l1 = Some y1) /\
    (forall l1 y1, m !! l1 = Some y1 -> l1 <> l -> copied (store w) h' m l1 y1) /\
    (forall n k v, k <> "type" -> k <> "annotations" ->
       shallow (store w) (S n) (VRef l) -> d !! k = Some v ->
       exists v', fields !! k = Some v' /\ py_eq n h' v v' = true).
Proof.
  intros Hclosed Hl Hname Hfirst.
  destruct (_get_cloned_volume_resolves w l d nm obj members i member Hclosed Hl Hname Hfirst)
    as (y & m & la & ld & h' & Hrun & Hcloned).
  pose proof Hcloned
    as (Hext & Hml & Hrange & _ & Hcopies & Hrefs & Hy & _ & _ & _ & _ & Hfresh & Hdom).
  assert (Hlin : val_in (store w) (VRef l)).
  { intros ? [= <-]. by eapply lookup_lt_Some. }
  assert (Hold : forall l', reachable h' (VRef l) l' -> l' < length (store w)).
  { intros l'. by apply reachable_extends_old. }
  assert (Hnew : forall l', reachable h' (VRef y) l' -> length (store w) <= l').
  { intros l'. apply reachable_fresh; [done|]. intros ? [= <-].
    specialize (Hrange _ _ Hml). lia. }
  exists y, m, (new_pvc_fields m d la), h'.
  split; [done|]. split; [done|]. split; [by apply Hext|]. split; [|split; [done|split]].
  - intros l' Hreach. specialize (Hold _ Hreach). split; [done|].
    destruct (lookup_lt_is_Some_2 (store w) l' Hold) as [o Ho].
    by rewrite Ho, (Hext _ _ Ho).
  - intros l' Hreach Hreach'. specialize (Hold _ Hreach). specialize (Hnew _ Hreach'). lia.
  - split; [done|]. split; [|split; [|split; [|split; [done|]]]].
    + intros k Hk1 Hk2. unfold new_pvc_fields.
      by rewrite !lookup_insert_ne, lookup_fmap by done.
    + intros k a Hk1 Hk2 Hk. unfold new_pvc_fields.
      by rewrite !lookup_insert_ne, lookup_fmap, Hk by done.
    + intros k l1 Hk. by apply (Hrefs k l1).
    + intros n k v Hk1 Hk2 Hsh Hk. exists (rename m v). split.
      * unfold new_pvc_fields. by rewrite !lookup_insert_ne, lookup_fmap, Hk by done.
      * by eapply cloned_field_eq.
Qed.
End ResolveProperties.

(** The scenario of the specification: group object [mynb], volume
    [{name: vol1, type: clone}], one member [mynb_vol1] with origin
    [rok://x/y]. *)
Example _get_cloned_volume_scenario :
  let run := @_get_cloned_volume (sample NoFault) (VRef 0) "mynb" sample_members
               (sample_world NoFault) in
  run.1 = Ok (VRef 3) /\
  store run.2 !! 3 = Some (ODict (<["name" := VStr "vol1"]>
                                  (<["type" := VStr "new_pvc"]>
                                   {["annotations" := VRef 5]}))) /\
  store run.2 !! 5 = Some (OList [VRef 4]) /\
  store run.2 !! 4 = Some (ODict (<["key" := VStr "rok/origin"]>
                                  {["value" := VStr "rok://x/y"]})) /\
  store run.2 !! 0 = sample_store !! 0.
Proof. vm_compute. repeat split; reflexivity. Qed.

Lemma sample_store_closed : heap_closed sample_store.
Proof. apply heap_closedb_sound. vm_compute. reflexivity. Qed.

Lemma _get_cloned_volume_first_match_witness :
  exists y w',
    @_get_cloned_volume (sample NoFault) (VRef 0) "mynb" sample_members (sample_world NoFault)
    = (Ok (VRef y), w').
Proof.
  destruct (@_get_cloned_volume_first_match (sample NoFault) (sample_world NoFault) 0
              (<["type" := VStr "clone"]> {["name" := VStr "vol1"]}) (VStr "vol1") "mynb"
              sample_members 0 (Member (AStr "mynb_vol1") (AStr "v3") (AStr "rok://x/y"))
              sample_store_closed eq_refl eq_refl eq_refl eq_refl)
    as (i & member & y & m & la & ld & h' & _ & Hrun & _).
  exists y. eexists. exact Hrun.
Defined.

Lemma _get_cloned_volume_leaves_input_witness :
  exists y w',
    @_get_cloned_volume (sample NoFault) (VRef 0) "mynb" sample_members (sample_world NoFault)
    = (Ok (VRef y), w') /\
    store w' !! 0 = Some (ODict (<["type" := VStr "clone"]> {["name" := VStr "vol1"]})).
Proof.
  destruct (@_get_cloned_volume_leaves_input (sample NoFault) (sample_world NoFault) 0
              (<["type" := VStr "clone"]> {["name" := VStr "vol1"]}) (VStr "vol1") "mynb"
              sample_members 0 (Member (AStr "mynb_vol1") (AStr "v3") (AStr "rok://x/y"))
              sample_store_closed eq_refl eq_refl)
    as (y & m & fields & h' & Hrun & _ & Hl & _).
  { split; [reflexivity|]. split; [vm_compute; reflexivity|]. intros j m' Hj. lia. }
  exists y. eexists. split; [exact Hrun|exact Hl].
Defined.

(** C3, as stated, fails: the condition raised is [ValueError], not the Not
    Found condition of the RPC layer. *)
Lemma _get_cloned_volume_not_found_not_rpc :
  (@_get_cloned_volume (sample NoFault) (VRef 0) "mynb" [] (sample_world NoFault)).1
    = Raise (ValueError "Volume 'vol1' not found in group 'mynb'") /\
  ~ (exists r,
       (@_get_cloned_volume (sample NoFault) (VRef 0) "mynb" [] (sample_world NoFault)).1
       = Raise (RPCNotFoundError r)).
Proof.
  assert (Hrun :
    (@_get_cloned_volume (sample NoFault) (VRef 0) "mynb" [] (sample_world NoFault)).1
    = Raise (ValueError "Volume 'vol1' not found in group 'mynb'"))
    by (vm_compute; reflexivity).
  split; [exact Hrun|]. intros [r Hr]. rewrite Hrun in Hr. discriminate Hr.
Qed.

Lemma _get_cloned_volume_no_match_witness :
  @_get_cloned_volume (sample NoFault) (VRef 0) "other" sample_members (sample_world NoFault)
  = (Raise (ValueError "Volume 'vol1' not found in group 'other'"), sample_world NoFault).
Proof.
  apply (proj1 (@_get_cloned_volume_no_match (sample NoFault) (sample_world NoFault) 0
                  (<["type" := VStr "clone"]> {["name" := VStr "vol1"]}) (VStr "vol1") "other"
                  sample_members eq_refl eq_refl
                  ltac:(intros [|j] mj Hj; [injection Hj as <-; vm_compute; reflexivity
                                           |discriminate Hj]))).
Defined.

(** ** Replacing the cloned volumes *)

Section Replace.
Context `{Collaborators}.

Lemma for_each_inv {A} (body : A -> M unit) (Inv : list A -> world -> Prop) (P : A -> Prop) :
  (forall done x w, Inv done w -> P x ->
     exists w', body x w = (Ok tt, w') /\ Inv (done ++ [x]) w') ->
  forall rest done w, Forall P rest -> Inv done w ->
    exists w', for_each body rest w = (Ok tt, w') /\ Inv (done ++ rest) w'.
Proof.
  intros Hstep. induction rest as [|x rest IH]; intros done w Hrest Hinv.
  - exists w. by rewrite app_nil_r.
  - apply Forall_cons in Hrest as [Hx Hrest].
    destruct (Hstep done x w Hinv Hx) as (w1 & Hrun1 & Hinv1).
    destruct (IH (done ++ [x]) w1 Hrest Hinv1) as (w' & Hrun & Hinv').
    exists w'. cbn. rewrite (bind_ok _ _ _ _ _ Hrun1). split; [done|].
    by rewrite <- app_assoc in Hinv'.
Qed.

Lemma for_each_raise {A} (body : A -> M unit) (Inv : list A -> world -> Prop) (P : A -> Prop) :
  (forall done x w, Inv done w -> P x ->
     exists w', body x w = (Ok tt, w') /\ Inv (done ++ [x]) w') ->
  forall before x after w,
    Forall P before -> Inv [] w ->
    exists w1, Inv before w1 /\
      for_each body (before ++ x :: after) w
      = bind (body x) (fun _ => for_each body after) w1.
Proof.
  intros Hstep before x after w Hbefore Hinv.
  destruct (for_each_inv body Inv P Hstep before [] w Hbefore Hinv) as (w1 & Hrun & Hinv1).
  exists w1. split; [done|]. clear Hinv Hinv1. revert w Hrun.
  induction before as [|b before IH]; intros w Hrun; cbn in *.
  - by injection Hrun as <-.
  - apply Forall_cons in Hbefore as [_ Hbefore]. unfold bind at 1. unfold bind at 1 in Hrun.
    destruct (body b w) as [[[]|e] w2]; [|done]. by apply IH.
Qed.

Lemma _get_client_store w : store (_get_client w).2 = store w.
Proof.
  unfold _get_client, bind, import_RokClient, gets, call, modify, ret.
  destruct (rok_module_loaded w).
  - destruct (_client w); [done|]. by destruct (RokClient (outside w)) as [[c|x] e].
  - destruct (load_rok_gw_client (outside w)) as [[u|x] e1]; [|done]. cbn.
    destruct (_client w); [done|]. cbn. by destruct (RokClient e1) as [[c|x] e].
Qed.

Lemma is_clone_type h (l : loc) d ty :
  h !! l = Some (ODict d) -> d !! "type" = Some ty ->
  is_clone h (VRef l) = val_eq_str ty "clone".
Proof. intros Hl Hty. unfold is_clone. by rewrite Hl, Hty. Qed.

Lemma preserved_except_insert (lv : loc) h h' o :
  extends h h' -> preserved_except lv h (<[lv := o]> h').
Proof.
  intros Hext l o' Hne Hl. rewrite list_lookup_insert_ne by done. by apply Hext.
Qed.

Lemma preserved_except_trans lv h1 h2 h3 :
  preserved_except lv h1 h2 -> preserved_except lv h2 h3 -> preserved_except lv h1 h3.
Proof. intros H12 H23 l o Hne Hl. by apply H23, H12. Qed.

Lemma replaced_preserved h0 h h' lv obj members v vi :
  replaced h0 h lv obj members v vi -> preserved_except lv h h' ->
  replaced h0 h' lv obj members v vi.
Proof.
  unfold replaced. destruct (is_clone h0 v); [|done].
  intros (wi & wi' & Hext & Hrun & Hpres) Hpres'. exists wi, wi'.
  split; [done|]. split; [done|]. by eapply preserved_except_trans.
Qed.

(** One turn of the loop of [replace_cloned_volumes]. *)
Lemma replace_cloned_volumes_step h0 lv obj members done v w :
  loop_inv h0 lv obj members done w -> resolvable h0 obj members v ->
  exists w',
    (let* type := getitem v "type" in
     let* volume :=
       if val_eq_str type "clone" then _get_cloned_volume v obj members else ret v in
     list_append (VRef lv) volume) w = (Ok tt, w') /\
    loop_inv h0 lv obj members (done ++ [v]) w'.
Proof.
  intros (Hclosed0 & Hext & Hclosed & Hlv & out & Hout & Hdone)
    (l & d & ty & -> & Hl & Hty & Hres).
  pose proof (Hext _ _ Hl) as Hlw.
  rewrite (bind_ok _ _ _ _ _ (getitem_run _ _ _ _ _ Hlw Hty)).
  pose proof (is_clone_type _ _ _ _ Hl Hty) as Hclone.
  assert (Hout_refs : forall l', VRef l' ∈ out -> l' < length (store w)).
  { intros l' Hl'. by eapply (Hclosed lv (OList out)). }
  destruct (val_eq_str ty "clone") eqn:Hty_clone.
  - destruct (Hres Hclone) as (nm & i & member & Hname & Hfirst).
    assert (Hstr : str_of_val (store w) nm = str_of_val h0 nm).
    { destruct nm as [a|l']; [done|]. cbn. apply container_str_stable; [done|done|].
      eapply Hclosed0; [exact Hl|]. apply elem_of_dict_vals. by exists "name". }
    rewrite <- Hstr in Hfirst.
    destruct (_get_cloned_volume_resolves w l d nm obj members i member
                Hclosed Hlw Hname Hfirst) as (y & m & la & ld & h' & Hrun & Hcloned).
    pose proof Hcloned
      as (Hext' & Hml & Hrange & _ & _ & _ & Hy & _ & _ & _ & _ & Hfresh & _).
    pose proof (extends_length _ _ Hext') as Hlen'.
    rewrite (bind_ok _ _ _ _ _ Hrun).
    assert (Hout' : store (set_store h' w) !! lv = Some (OList out)) by by apply Hext'.
    rewrite (list_append_run _ _ _ _ Hout'). eexists. split; [reflexivity|].
    cbn [store set_store].
    split; [done|]. split; [|split; [|split; [done|]]].
    + apply extends_insert_fresh; [|done]. by eapply extends_trans.
    + apply heap_closed_insert; [by eapply heap_closed_fresh|].
      intros l' Hl'. cbn in Hl'. apply elem_of_app in Hl' as [Hl'|Hl'].
      * specialize (Hout_refs _ Hl'). lia.
      * apply list_elem_of_singleton in Hl'. injection Hl' as ->.
        by eapply lookup_lt_Some.
    + exists (out ++ [VRef y]). split.
      * apply list_lookup_insert_eq. by eapply lookup_lt_Some.
      * apply Forall2_app.
        -- eapply Forall2_impl; [exact Hdone|]. intros v vi Hrep.
           eapply replaced_preserved; [exact Hrep|]. by apply preserved_except_insert.
        -- constructor; [|constructor]. unfold replaced. rewrite Hclone.
           exists w, (set_store h' w). split; [done|]. split; [done|].
           apply preserved_except_insert, extends_refl.
  - unfold bind at 1, ret at 1.
    rewrite (list_append_run _ _ _ _ Hout). eexists. split; [reflexivity|].
    cbn [store set_store].
    split; [done|]. split; [|split; [|split; [done|]]].
    + by apply extends_insert_fresh.
    + apply heap_closed_insert; [done|].
      intros l' Hl'. cbn in Hl'. apply elem_of_app in Hl' as [Hl'|Hl'].
      * by apply Hout_refs.
      * apply list_elem_of_singleton in Hl'. injection Hl' as ->.
        by eapply lookup_lt_Some.
    + exists (out ++ [VRef l]). split.
      * apply list_lookup_insert_eq. by eapply lookup_lt_Some.
      * apply Forall2_app.
        -- eapply Forall2_impl; [exact Hdone|]. intros v vi Hrep.
           eapply replaced_preserved; [exact Hrep|].
           apply preserved_except_insert, extends_refl.
        -- constructor; [|constructor]. unfold replaced. by rewrite Hclone.
Qed.
End Replace.

Section ReplaceProperties.
Context `{Collaborators}.

Lemma replace_cloned_volumes_start r bucket obj version volumes w rok w1 info e2 members :
  _get_client w = (Ok rok, w1) ->
  version_info rok bucket obj version (outside w1) = (Returns info, e2) ->
  _get_group_members info = Ok members ->
  let lv := length (store w) in
  let w3 := set_store (store w ++ [OList []]) (set_outside e2 w1) in
  replace_cloned_volumes r bucket obj version volumes w
  = ((for_each (fun volume =>
        let* type := getitem volume "type" in
        let* volume :=
          if val_eq_str type "clone" then _get_cloned_volume volume obj members
          else ret volume in
        list_append (VRef lv) volume) volumes) ;;; ret (VRef lv)) w3.
Proof.
  intros Hc Hv Hm lv w3. unfold replace_cloned_volumes.
  rewrite (bind_ok _ _ _ _ _ Hc).
  unfold bind at 1, call at 1. rewrite Hv.
  unfold bind at 1, lift at 1. rewrite Hm.
  unfold bind at 1. rewrite new_run. cbn [store set_store set_outside].
  pose proof (_get_client_store w) as Hstore. rewrite Hc in Hstore. cbn in Hstore.
  unfold lv, w3. by rewrite Hstore.
Qed.

Lemma loop_inv_start h0 obj members w :
  heap_closed h0 -> store w = h0 ++ [OList []] ->
  loop_inv h0 (length h0) obj members [] w.
Proof.
  intros Hclosed Hstore. unfold loop_inv. rewrite Hstore.
  split; [done|]. split; [apply extends_app|]. split; [|split; [done|]].
  - apply heap_closed_app; [done|]. intros l' Hl'. cbn in Hl'. by apply elem_of_nil in Hl'.
  - exists []. split; [by rewrite list_lookup_middle|constructor].
Qed.

(** [replace_cloned_volumes] when every clone among the volumes has a
    member. *)
Lemma replace_cloned_volumes_run r bucket obj version volumes w rok w1 info e2 members :
  heap_closed (store w) ->
  _get_client w = (Ok rok, w1) ->
  version_info rok bucket obj version (outside w1) = (Returns info, e2) ->
  _get_group_members info = Ok members ->
  Forall (resolvable (store w) obj members) volumes ->
  exists out w',
    replace_cloned_volumes r bucket obj version volumes w
    = (Ok (VRef (length (store w))), w') /\
    loop_inv (store w) (length (store w)) obj members volumes w' /\
    store w' !! length (store w) = Some (OList out) /\
    Forall2 (replaced (store w) (store w') (length (store w)) obj members) volumes out.
Proof.
  intros Hclosed Hc Hv Hm Hall.
  rewrite (replace_cloned_volumes_start _ _ _ _ _ _ _ _ _ _ _ Hc Hv Hm).
  set (lv := length (store w)).
  set (w3 := set_store (store w ++ [OList []]) (set_outside e2 w1)).
  destruct (for_each_inv _ (loop_inv (store w) lv obj members)
              (resolvable (store w) obj members)
              (fun done v w0 => replace_cloned_volumes_step (store w) lv obj members done v w0)
              volumes [] w3 Hall) as (w' & Hrun & Hinv).
  { by apply loop_inv_start. }
  cbn [app] in Hinv. pose proof Hinv as (_ & _ & _ & _ & out & Hout & Hrep).
  exists out, w'. by rewrite (bind_ok _ _ _ _ _ Hrun).
Qed.

(** C2: when the client and the version metadata are obtained and every
    clone among the volumes has a member, [replace_cloned_volumes] returns a
    new list with one element for each volume, in the order of the input:
    the volume itself, the same object and unchanged, when its type is not
    [clone], and what [_get_cloned_volume] returned for it otherwise.  For no
    volumes the list is empty. *)
Theorem replace_cloned_volumes_positional r bucket obj version volumes w rok w1 info e2 members :
  heap_closed (store w) ->
  _get_client w = (Ok rok, w1) ->
  version_info rok bucket obj version (outside w1) = (Returns info, e2) ->
  _get_group_members info = Ok members ->
  Forall (resolvable (store w) obj members) volumes ->
  exists lv out w',
    replace_cloned_volumes r bucket obj version volumes w = (Ok (VRef lv), w') /\
    length (store w) <= lv /\
    store w' !! lv = Some (OList out) /\
    length out = length volumes /\
    extends (store w) (store w') /\
    (forall i v, volumes !! i = Some v ->
       exists vi, out !! i = Some vi /\ replaced (store w) (store w') lv obj members v vi) /\
    (forall i v, volumes !! i = Some v -> is_clone (store w) v = false ->
       out !! i = Some v /\
       forall (l : loc) o, v = VRef l -> store w !! l = Some o -> store w' !! l = Some o) /\
    (volumes = [] -> out = []).
Proof.
  intros Hclosed Hc Hv Hm Hall.
  destruct (replace_cloned_volumes_run r bucket obj version volumes w rok w1 info e2 members
              Hclosed Hc Hv Hm Hall) as (out & w' & Hrun & Hinv & Hout & Hrep).
  destruct Hinv as (_ & Hext & _).
  exists (length (store w)), out, w'.
  split; [done|]. split; [done|]. split; [done|].
  pose proof (Forall2_length _ _ _ Hrep) as Hlen.
  split; [done|]. split; [done|]. split; [|split].
  - intros i v Hi. destruct (Forall2_lookup_l _ _ _ _ _ Hrep Hi) as (vi & Hvi & Hr).
    by exists vi.
  - intros i v Hi Hnot. destruct (Forall2_lookup_l _ _ _ _ _ Hrep Hi) as (vi & Hvi & Hr).
    unfold replaced in Hr. rewrite Hnot in Hr. subst. split; [done|].
    intros l o _. apply Hext.
  - intros ->. by destruct out.
Qed.

Lemma _get_cloned_volume_no_members volume obj w :
  exists e, _get_cloned_volume volume obj [] w = (Raise e, w).
Proof.
  unfold _get_cloned_volume, bind at 1.
  destruct (getitem volume "name" w) as [[nm|e] w1] eqn:Hget.
  - assert (w1 = w) as ->.
    { unfold getitem, dangling, raise in Hget. destruct volume as [[]|l]; try done.
      destruct (store w !! l) as [[|kvs]|]; try done.
      destruct (kvs !! "name"); by injection Hget. }
    unfold bind at 1, py_str at 1, gets at 1. unfold bind at 1. cbn [_get_cloned_volume_loop ret].
    rewrite (bind_ok _ _ _ _ _ Hget). by eexists.
  - exists e. f_equal.
    unfold getitem, dangling, raise in Hget. destruct volume as [[]|l]; try by injection Hget.
    destruct (store w !! l) as [[|kvs]|]; try by injection Hget.
    destruct (kvs !! "name"); by injection Hget.
Qed.

(** C10: a member count that parses as a negative integer, such as the
    text [-1], raises nothing: [_get_group_members] returns the empty list.
    Against it no clone resolves, and [replace_cloned_volumes] raises at the
    first clone among the volumes. *)
Theorem negative_member_count_resolves_nothing :
  py_int (AStr "-1") = Ok (-1)%Z /\
  (forall info count n,
     info !! "group_member_count" = Some count -> py_int count = Ok n -> (n < 0)%Z ->
     _get_group_members info = Ok []) /\
  (forall volume obj w, exists e, _get_cloned_volume volume obj [] w = (Raise e, w)) /\
  (forall r bucket obj version w rok w1 info e2 count n before v after,
     heap_closed (store w) ->
     _get_client w = (Ok rok, w1) ->
     version_info rok bucket obj version (outside w1) = (Returns info, e2) ->
     info !! "group_member_count" = Some count -> py_int count = Ok n -> (n < 0)%Z ->
     Forall (fun b => is_clone (store w) b = false /\
                      exists (l : loc) d, b = VRef l /\ store w !! l = Some (ODict d) /\
                                          is_Some (d !! "type")) before ->
     is_clone (store w) v = true ->
     exists e w', replace_cloned_volumes r bucket obj version (before ++ v :: after) w
                  = (Raise e, w')).
Proof.
  split; [by vm_compute|]. split; [|split].
  - intros info count n Hcount Hint Hn. unfold _get_group_members, info_getitem.
    rewrite Hcount. cbn. rewrite Hint. cbn. rewrite py_range_negative by lia. done.
  - apply _get_cloned_volume_no_members.
  - intros r bucket obj version w rok w1 info e2 count n before v after
      Hclosed Hc Hv Hcount Hint Hn Hbefore Hclone.
    assert (Hm : _get_group_members info = Ok []).
    { unfold _get_group_members, info_getitem.
      rewrite Hcount. cbn. rewrite Hint. cbn. rewrite py_range_negative by lia. done. }
    rewrite (replace_cloned_volumes_start _ _ _ _ _ _ _ _ _ _ _ Hc Hv Hm).
    set (lv := length (store w)).
    set (w3 := set_store (store w ++ [OList []]) (set_outside e2 w1)).
    match goal with |- context [for_each ?b _] => set (body := b) end.
    destruct (for_each_raise body (loop_inv (store w) lv obj [])
                (resolvable (store w) obj [])
                (fun done v w0 => replace_cloned_volumes_step (store w) lv obj [] done v w0)
                before v after w3) as (w4 & Hinv & Hrun).
    { eapply Forall_impl; [exact Hbefore|]. intros b (Hnot & l & d & -> & Hl & [ty Hty]).
      exists l, d, ty. repeat (split; [done|]). intros Hyes. congruence. }
    { by apply loop_inv_start. }
    unfold bind at 1. rewrite Hrun. clear Hrun. unfold body.
    destruct Hinv as (_ & Hext & _).
    unfold is_clone in Hclone. destruct v as [|l]; [done|].
    destruct (store w !! l) as [[|d]|] eqn:Hl; try done.
    destruct (d !! "type") as [ty|] eqn:Hty; [|done].
    pose proof (Hext _ _ Hl) as Hl4.
    unfold bind at 1. rewrite (bind_ok _ _ _ _ _ (getitem_run _ _ _ _ _ Hl4 Hty)).
    rewrite Hclone. unfold bind at 1.
    destruct (_get_cloned_volume_no_members (VRef l) obj w4) as [e ->].
    by exists e, w4.
Qed.
End ReplaceProperties.

Lemma replace_cloned_volumes_positional_witness :
  exists lv out w',
    @replace_cloned_volumes (sample NoFault) sample_request "notebooks" "mynb" "v3"
      [VRef 0; VRef 1] (sample_world NoFault) = (Ok (VRef lv), w') /\
    store w' !! lv = Some (OList out) /\ length out = 2 /\ out !! 1 = Some (VRef 1).
Proof.
  destruct (@replace_cloned_volumes_positional (sample NoFault) sample_request
              "notebooks" "mynb" "v3" [VRef 0; VRef 1] (sample_world NoFault)
              1 _ sample_info _ sample_members sample_store_closed eq_refl eq_refl eq_refl)
    as (lv & out & w' & Hrun & _ & Hout & Hlen & _ & _ & Hsame & _).
  { repeat constructor.
    - exists 0, (<["type" := VStr "clone"]> {["name" := VStr "vol1"]}), (VStr "clone").
      repeat (split; [reflexivity|]). intros _.
      exists (VStr "vol1"), 0, (Member (AStr "mynb_vol1") (AStr "v3") (AStr "rok://x/y")).
      split; [reflexivity|]. split; [reflexivity|]. split; [vm_compute; reflexivity|].
      intros j m Hj. lia.
    - exists 1, (<["type" := VStr "pvc"]>
                   (<["name" := VStr "data"]> {["annotations" := VRef 2]})), (VStr "pvc").
      repeat (split; [reflexivity|]). intros Hclone. vm_compute in Hclone. discriminate Hclone. }
  exists lv, out, w'. split; [exact Hrun|]. split; [exact Hout|]. split; [exact Hlen|].
  apply (Hsame 1 (VRef 1) eq_refl). vm_compute. reflexivity.
Defined.

(** What the model computes for the two sample volumes. *)
Example replace_cloned_volumes_sample :
  let run := @replace_cloned_volumes (sample NoFault) sample_request "notebooks" "mynb" "v3"
               [VRef 0; VRef 1] (sample_world NoFault) in
  run.1 = Ok (VRef 3) /\ store run.2 !! 3 = Some (OList [VRef 4; VRef 1]) /\
  take 3 (store run.2) = sample_store.
Proof. vm_compute. repeat split; reflexivity. Qed.

Lemma negative_member_count_resolves_nothing_witness :
  _get_group_members sample_info_negative = Ok [] /\
  exists e w',
    @replace_cloned_volumes (sample NegativeCount) sample_request "notebooks" "mynb" "v3"
      [VRef 1; VRef 0] (sample_world NegativeCount) = (Raise e, w').
Proof.
  split.
  - apply (proj1 (proj2 (@negative_member_count_resolves_nothing (sample NegativeCount)))
             sample_info_negative (AStr "-1") (-1)%Z eq_refl eq_refl ltac:(lia)).
  - apply (proj2 (proj2 (proj2 (@negative_member_count_resolves_nothing (sample NegativeCount))))
             sample_request "notebooks" "mynb" "v3" (sample_world NegativeCount) 1 _
             sample_info_negative _ (AStr "-1") (-1)%Z
             [VRef 1] (VRef 0) [] sample_store_closed eq_refl eq_refl eq_refl eq_refl
             ltac:(lia)).
    + repeat constructor. eexists 1, _. repeat split; try reflexivity. by eexists.
    + vm_compute. reflexivity.
Defined.

Lemma _get_client_caches_for_the_process_witness :
  let w1 := @run_all (sample NoFault) [Enter_get_client] (sample_world NoFault) in
  let after := [Enter_check_rok_availability sample_request;
                Enter_hydrate_pvc_from_snapshot sample_request "mynb" "v3" "restored" "notebooks";
                Enter_replace_cloned_volumes sample_request "notebooks" "mynb" "v3" [VRef 0]] in
  _client w1 = Some 1 /\
  _client (@run_all (sample NoFault) after w1) = Some 1 /\
  @_get_client (sample NoFault) (run_all after w1) = (Ok 1, run_all after w1).
Proof.
  intros w1 after.
  pose proof (@_get_client_caches_for_the_process (sample NoFault) sample_store []
                [] 1 [Enter_get_client]) as [Hfirst _].
  pose proof (@_get_client_caches_for_the_process (sample NoFault) sample_store []
                [Enter_get_client] 1 after) as [_ Hthen].
  split.
  - apply (Hfirst _ eq_refl). vm_compute. reflexivity.
  - apply Hthen. vm_compute. reflexivity.
Defined.

(** ** What the handlers return *)

(** C9, as stated, fails for [check_rok_availability]: when the three
    sub-checks pass it falls off the end of the function and returns
    [None]. *)
Lemma check_rok_availability_returns_None :
  (@check_rok_availability (sample NoFault) sample_request (sample_world NoFault)).1
    = Ok VNone /\
  ~ (forall v w',
       @check_rok_availability (sample NoFault) sample_request (sample_world NoFault)
       = (Ok v, w') -> v <> VNone).
Proof.
  split; [vm_compute; reflexivity|].
  intros Hall.
  destruct (@check_rok_availability (sample NoFault) sample_request (sample_world NoFault))
    as [r w'] eqn:Hrun.
  assert (Hr : r = Ok VNone).
  { change r with (r, w').1. rewrite <- Hrun. vm_compute. reflexivity. }
  subst r. by apply (Hall VNone w').
Qed.

Section Results.
Context `{Collaborators}.

Lemma snapshot_notebook_run r bucket obj w rok w1 u e2 :
  _get_client w = (Ok rok, w1) ->
  create_rok_bucket bucket rok (outside w1) = (Returns u, e2) ->
  let hostname := match getenv "HOSTNAME" (outside w1) with
                  | Some s => AStr s
                  | None => ANone
                  end in
  let subject := match obj with
                 | Some o => if String.eqb o "" then get_pod_name (outside w1) else o
                 | None => get_pod_name (outside w1)
                 end in
  snapshot_notebook r bucket obj w =
    match version_register rok bucket subject "jupyter"
            (notebook_params hostname (get_namespace (outside w1))) e2 with
    | (Returns resp, e3) => (Ok resp, set_outside e3 w1)
    | (Throws x, e3) => (Raise (External x), set_outside e3 w1)
    end.
Proof.
  intros Hc Hb hostname subject. unfold snapshot_notebook. rewrite (bind_ok _ _ _ _ _ Hc).
  unfold bind at 1, gets at 1. unfold bind at 1, gets at 1. cbv zeta.
  fold hostname. unfold subject.
  destruct obj as [o|]; [destruct (String.eqb o "")|];
    cbv [bind gets ret call]; cbn [outside set_outside]; rewrite Hb;
    cbn [outside set_outside];
    match goal with |- context [version_register ?a ?b ?c ?d ?e ?f] =>
      destruct (version_register a b c d e f) as [[resp|x] e3] end; reflexivity.
Qed.

Lemma snapshot_pvc_run r pvc_name bucket w rok w1 u e2 :
  _get_client w = (Ok rok, w1) ->
  create_rok_bucket bucket rok (outside w1) = (Returns u, e2) ->
  snapshot_pvc r pvc_name bucket w =
    match version_register rok bucket pvc_name "dataset"
            (pvc_params pvc_name (get_namespace (outside w1))) e2 with
    | (Returns resp, e3) => (Ok resp, set_outside e3 w1)
    | (Throws x, e3) => (Raise (External x), set_outside e3 w1)
    end.
Proof.
  intros Hc Hb. unfold snapshot_pvc. rewrite (bind_ok _ _ _ _ _ Hc).
  unfold bind at 1, gets at 1. cbv zeta.
  cbv [bind call]. cbn [outside set_outside]. rewrite Hb. cbn [outside set_outside].
  match goal with |- context [version_register ?a ?b ?c ?d ?e ?f] =>
    destruct (version_register a b c d e f) as [[resp|x] e3] end; reflexivity.
Qed.

(** C9 (amended): on success [hydrate_pvc_from_snapshot] returns a new
    mapping that holds the name of the created claim,
    [replace_cloned_volumes] returns a new list, [snapshot_notebook] and
    [snapshot_pvc] return the response of the storage service to the
    version registration, and [check_rok_availability] returns [None]. *)
Theorem handlers_results :
  (forall r w v w', check_rok_availability r w = (Ok v, w') -> v = VNone) /\
  (forall r w rok w1 u e2 suggestions e3,
     _get_client w = (Ok rok, w1) ->
     account_info rok (outside w1) = (Returns u, e2) ->
     version_register_suggest rok DEFAULT_BUCKET (get_pod_name e2) "jupyter" "params:lab"
       {["namespace" := get_namespace e2]} true e2 = (Returns suggestions, e3) ->
     any_suggestion_is (get_pod_name e2) suggestions = Ok true ->
     check_rok_availability r w = (Ok VNone, set_outside e3 w1)) /\
  (forall r obj version name bucket w rok w1 info e2 cl size u e3 created e4,
     _get_client w = (Ok rok, w1) ->
     version_info rok bucket obj version (outside w1) = (Returns info, e2) ->
     info !! "content_length" = Some cl -> snapshot_size_gi cl = Ok size ->
     info !! "rok_url" = Some u ->
     CoreV1Api e2 = (Returns tt, e3) ->
     create_namespaced_persistent_volume_claim (get_namespace e3) (rok_claim name u size) e3
     = (Returns created, e4) ->
     exists (l : loc) w',
       hydrate_pvc_from_snapshot r obj version name bucket w = (Ok (VRef l), w') /\
       store w' !! l = Some (ODict {["name" := VStr created]})) /\
  (forall r bucket obj version volumes w rok w1 info e2 members,
     heap_closed (store w) ->
     _get_client w = (Ok rok, w1) ->
     version_info rok bucket obj version (outside w1) = (Returns info, e2) ->
     _get_group_members info = Ok members ->
     Forall (resolvable (store w) obj members) volumes ->
     exists (lv : loc) out w',
       replace_cloned_volumes r bucket obj version volumes w = (Ok (VRef lv), w') /\
       store w' !! lv = Some (OList out)) /\
  (forall r bucket obj w rok w1 u e2,
     _get_client w = (Ok rok, w1) ->
     create_rok_bucket bucket rok (outside w1) = (Returns u, e2) ->
     exists subject params, forall resp e3,
       version_register rok bucket subject "jupyter" params e2 = (Returns resp, e3) ->
       snapshot_notebook r bucket obj w = (Ok resp, set_outside e3 w1)) /\
  (forall r pvc_name bucket w rok w1 u e2,
     _get_client w = (Ok rok, w1) ->
     create_rok_bucket bucket rok (outside w1) = (Returns u, e2) ->
     exists params, forall resp e3,
       version_register rok bucket pvc_name "dataset" params e2 = (Returns resp, e3) ->
       snapshot_pvc r pvc_name bucket w = (Ok resp, set_outside e3 w1)).
Proof.
  split; [|split; [|split; [|split; [|split]]]].
  - intros r w v w'. rewrite check_rok_availability_run.
    destruct (_get_client w) as [[rok|e] w1]; [|by destruct (is_ImportError e)].
    destruct (account_info rok (outside w1)) as [[u|x] e2]; [|done]. cbn zeta.
    destruct (version_register_suggest _ _ _ _ _ _ _ e2) as [[suggestions|x] e3]; [|done].
    destruct (any_suggestion_is _ suggestions) as [[|]|e]; try done. by intros [= <- _].
  - intros r w rok w1 u e2 suggestions e3 Hc Ha Hs Hany.
    rewrite check_rok_availability_run, Hc, Ha. cbn zeta. by rewrite Hs, Hany.
  - intros r obj version name bucket w rok w1 info e2 cl size u e3 created e4
      Hc Hv Hcl Hsz Hu Hapi Hcreate.
    rewrite (hydrate_pvc_from_snapshot_run r obj version name bucket w rok w1 info e2 cl size
               u e3 Hc Hv Hcl Hsz Hu Hapi), Hcreate.
    eexists _, _. split; [reflexivity|]. cbn [store set_store]. by rewrite list_lookup_middle.
  - intros r bucket obj version volumes w rok w1 info e2 members Hclosed Hc Hv Hm Hall.
    destruct (replace_cloned_volumes_run r bucket obj version volumes w rok w1 info e2 members
                Hclosed Hc Hv Hm Hall) as (out & w' & Hrun & _ & Hout & _).
    by exists (length (store w)), out, w'.
  - intros r bucket obj w rok w1 u e2 Hc Hb.
    pose proof (snapshot_notebook_run r bucket obj w rok w1 u e2 Hc Hb) as Hrun.
    cbv zeta in Hrun. eexists _, _. intros resp e3 Hreg. by rewrite Hrun, Hreg.
  - intros r pvc_name bucket w rok w1 u e2 Hc Hb.
    pose proof (snapshot_pvc_run r pvc_name bucket w rok w1 u e2 Hc Hb) as Hrun.
    eexists. intros resp e3 Hreg. by rewrite Hrun, Hreg.
Qed.
End Results.

Lemma handlers_results_witness :
  (@check_rok_availability (sample NoFault) sample_request (sample_world NoFault)).1
    = Ok VNone /\
  exists (l : loc) w',
    @hydrate_pvc_from_snapshot (sample NoFault) sample_request "mynb" "v3" "restored" "notebooks"
      (sample_world NoFault) = (Ok (VRef l), w') /\
    store w' !! l = Some (ODict {["name" := VStr "restored"]}).
Proof.
  split.
  - rewrite (proj1 (proj2 (@handlers_results (sample NoFault))) sample_request
               (sample_world NoFault) 1 _ tt _ _ _ eq_refl eq_refl eq_refl eq_refl).
    reflexivity.
  - apply (proj1 (proj2 (proj2 (@handlers_results (sample NoFault)))) sample_request
             "mynb" "v3" "restored" "notebooks" (sample_world NoFault) 1 _ sample_info _
             (AStr "1073741825") 2%Z (AStr "rok://x/y") _ "restored" _
             eq_refl eq_refl eq_refl eq_refl eq_refl eq_refl eq_refl).
Defined.

(** * Further properties of the handlers *)

(** ** Components of the state that a computation leaves alone *)

Section Preserves.
Context `{Collaborators}.
Context {X : Type} (f : world -> X).

Lemma preserves_ret {A} (a : A) : preserves f (ret a).
Proof. done. Qed.

Lemma preserves_raise {A} e : preserves f (@raise _ A e).
Proof. done. Qed.

Lemma preserves_lift {A} (r : result A) : preserves f (lift r).
Proof. done. Qed.

Lemma preserves_gets {A} (g : world -> A) : preserves f (gets g).
Proof. done. Qed.

Lemma preserves_bind {A B} (m : M A) (k : A -> M B) :
  preserves f m -> (forall a, preserves f (k a)) -> preserves f (bind m k).
Proof.
  intros Hm Hk w. unfold bind. specialize (Hm w).
  destruct (m w) as [[a|e] w1]; cbn in *; [|done]. by rewrite Hk.
Qed.

Lemma preserves_try_except {A} (m : M A) (handler : exn -> M A) :
  preserves f m -> (forall e, preserves f (handler e)) -> preserves f (try_except m handler).
Proof.
  intros Hm Hh w. unfold try_except. specialize (Hm w).
  destruct (m w) as [[a|e] w1]; cbn in *; [done|]. by rewrite Hh.
Qed.

Lemma preserves_for_each {A} (body : A -> M unit) (xs : list A) :
  (forall x, preserves f (body x)) -> preserves f (for_each body xs).
Proof.
  intros Hbody. induction xs as [|x xs IH]; cbn; [done|].
  apply preserves_bind; [done|]. by intros _.
Qed.

(** A change of the outside world, of the store or of the log is invisible
    to a component that does not read it. *)
Hypothesis f_outside : forall e w, f (set_outside e w) = f w.

Lemma preserves_call {A} (g : ext -> outcome A * ext) : preserves f (call g).
Proof. intros w. unfold call. by destruct (g (outside w)) as [[a|x] e]; cbn. Qed.

Lemma preserves_try_call {A} (g : ext -> outcome A * ext) (handler : ext_exn -> M A) :
  (forall x, preserves f (handler x)) -> preserves f (try_call g handler).
Proof.
  intros Hh w. unfold try_call. destruct (g (outside w)) as [[a|x] e]; cbn; [done|].
  by rewrite Hh.
Qed.
End Preserves.

Create HintDb frame discriminated.

#[export] Hint Resolve preserves_ret preserves_raise preserves_lift preserves_gets : frame.

(** Breaks a computation down to its primitives. *)
Ltac preserves_tac :=
  repeat first
    [ progress auto with frame
    | apply preserves_bind
    | apply preserves_try_except
    | apply preserves_for_each
    | apply preserves_call; reflexivity
    | apply preserves_try_call; [reflexivity|]
    | progress cbv zeta
    | match goal with
      | |- preserves _ (if ?b then _ else _) => destruct b
      | |- preserves _ (match ?x with Some _ => _ | None => _ end) => destruct x
      | |- forall _, _ => intro
      end ].

(** ** The log *)

Section Log.
Context `{Collaborators}.

Lemma preserves_logged_new o : preserves logged (new o).
Proof. done. Qed.

Lemma preserves_logged_getitem x k : preserves logged (getitem x k).
Proof.
  intros w. unfold getitem, dangling, raise. destruct x as [[]|l]; try done.
  destruct (store w !! l) as [[|kvs]|]; try done. by destruct (kvs !! k).
Qed.

Lemma preserves_logged_setitem x k v : preserves logged (setitem x k v).
Proof.
  intros w. unfold setitem, dangling, raise. destruct x as [|l]; [done|].
  by destruct (store w !! l) as [[|kvs]|].
Qed.

Lemma preserves_logged_list_append xs v : preserves logged (list_append xs v).
Proof.
  intros w. unfold list_append, dangling, raise. destruct xs as [|l]; [done|].
  by destruct (store w !! l) as [[|kvs]|].
Qed.

Lemma preserves_logged_py_str x : preserves logged (py_str x).
Proof. done. Qed.

Lemma preserves_logged_deepcopy x : preserves logged (deepcopy x).
Proof.
  intros w. unfold deepcopy, dangling, raise.
  by destruct (deepcopy_heap x (store w)) as [[y [h m]]|].
Qed.

Lemma preserves_logged_import : preserves logged import_RokClient.
Proof.
  intros w. unfold import_RokClient. destruct (rok_module_loaded w); [done|].
  by destruct (load_rok_gw_client (outside w)) as [[u|x] e].
Qed.

Lemma preserves_logged_modify_client c : preserves logged (modify (set_client c)).
Proof. done. Qed.
End Log.

#[export] Hint Resolve preserves_logged_new preserves_logged_getitem preserves_logged_setitem
  preserves_logged_list_append preserves_logged_py_str preserves_logged_deepcopy
  preserves_logged_import preserves_logged_modify_client : frame.

Section LogHandlers.
Context `{Collaborators}.

Lemma preserves_logged_get_client : preserves logged _get_client.
Proof. unfold _get_client. preserves_tac. Qed.

Lemma preserves_logged_get_cloned_volume_loop volume name members :
  preserves logged (_get_cloned_volume_loop volume name members).
Proof. induction members as [|m members IH]; cbn; preserves_tac. Qed.

Lemma preserves_logged_get_cloned_volume volume obj members :
  preserves logged (_get_cloned_volume volume obj members).
Proof.
  unfold _get_cloned_volume. pose proof preserves_logged_get_cloned_volume_loop.
  pose proof preserves_logged_get_client. preserves_tac.
Qed.
End LogHandlers.

Section LogProperties.
Context `{Collaborators}.

Lemma preserves_logged_get_task r t b : preserves logged (get_task r t b).
Proof. pose proof preserves_logged_get_client. unfold get_task. preserves_tac. Qed.

Lemma preserves_logged_snapshot_notebook r b o : preserves logged (snapshot_notebook r b o).
Proof. pose proof preserves_logged_get_client. unfold snapshot_notebook. preserves_tac. Qed.

Lemma preserves_logged_snapshot_pvc r p b : preserves logged (snapshot_pvc r p b).
Proof. pose proof preserves_logged_get_client. unfold snapshot_pvc. preserves_tac. Qed.

Lemma preserves_logged_hydrate_pvc_from_snapshot r o v n b :
  preserves logged (hydrate_pvc_from_snapshot r o v n b).
Proof.
  pose proof preserves_logged_get_client. unfold hydrate_pvc_from_snapshot. preserves_tac.
Qed.

Lemma preserves_logged_replace_cloned_volumes r b o v vs :
  preserves logged (replace_cloned_volumes r b o v vs).
Proof.
  pose proof preserves_logged_get_client. pose proof preserves_logged_get_cloned_volume.
  unfold replace_cloned_volumes. preserves_tac.
Qed.
End LogProperties.

(** ** Objects that a computation does not write to *)

Lemma extends_alter h0 h (y : nat) (g : obj -> obj) :
  extends h0 h -> length h0 <= y -> extends h0 (alter g y h).
Proof.
  intros Hext Hy l o Hl. pose proof (lookup_lt_Some _ _ _ Hl).
  rewrite list_lookup_alter_ne by lia. by apply Hext.
Qed.

(** The loop of a copier writes to the container it fills and to what the
    copier of the elements writes to. *)
Lemma copy_items_keeps h0 cp (y : nat) items :
  length h0 <= y ->
  (forall x st x' st', extends h0 st.1 -> cp x st = Some (x', st') -> extends h0 st'.1) ->
  forall st st', extends h0 st.1 -> copy_items cp y items st = Some st' -> extends h0 st'.1.
Proof.
  intros Hy Hcp. induction items as [|[s v] items IH]; intros st st' Hext; cbn.
  - by intros [= <-].
  - destruct (cp v st) as [[v' [h m]]|] eqn:Hv; [|done]. intros Hrest.
    eapply IH; [|exact Hrest]. cbn. apply extends_alter; [|done].
    by apply (Hcp _ _ _ _ Hext Hv).
Qed.

(** [copy.deepcopy] writes only to the containers it allocates, whatever
    the store holds. *)
Lemma deepcopy_rec_keeps h0 fuel x st x' st' :
  extends h0 st.1 -> deepcopy_rec fuel x st = Some (x', st') -> extends h0 st'.1.
Proof.
  revert x st x' st'. induction fuel as [|fuel IH]; intros x [h m] x' st' Hext; cbn in *.
  - destruct x as [a|l]; [by intros [= _ <-]|].
    destruct (m !! l); [by intros [= _ <-]|done].
  - destruct x as [a|l]; [by intros [= _ <-]|].
    destruct (m !! l); [by intros [= _ <-]|].
    destruct (h !! l) as [o|]; [|done].
    destruct (copy_items _ _ _ _) as [st1|] eqn:Hitems; [|done]. intros [= _ <-].
    eapply copy_items_keeps; [| |  |exact Hitems].
    + by apply extends_length.
    + intros x0 st0 x0' st0' Hext0 Hx0. by eapply IH.
    + cbn. eapply extends_trans; [exact Hext|]. apply extends_app.
Qed.

(** The copy of an object is allocated at the end of the store. *)
Lemma deepcopy_heap_ref (l : nat) h v st :
  deepcopy_heap (VRef l) h = Some (v, st) -> v = VRef (length h).
Proof.
  unfold deepcopy_heap. destruct (length h) as [|n] eqn:Hlen; cbn.
  - by rewrite lookup_empty.
  - rewrite lookup_empty. destruct (h !! l) as [o|]; [|done].
    destruct (copy_items _ _ _ _); [|done]. rewrite Hlen. by intros [= <- _].
Qed.

Section KeepsObjects.
Context `{Collaborators}.
Variable h0 : list obj.

Lemma keeps_objects_preserves {A} (m : M A) : preserves store m -> keeps_objects h0 m.
Proof. intros Hm w Hext. by rewrite Hm. Qed.

Lemma keeps_objects_bind {A B} (m : M A) (k : A -> M B) (Q : A -> Prop) :
  keeps_objects h0 m ->
  (forall w a w', extends h0 (store w) -> m w = (Ok a, w') -> Q a) ->
  (forall a, Q a -> keeps_objects h0 (k a)) ->
  keeps_objects h0 (bind m k).
Proof.
  intros Hm HQ Hk w Hext. unfold bind. specialize (Hm w Hext). specialize (HQ w).
  destruct (m w) as [[a|e] w1]; cbn in *; [|done]. apply Hk; [|done]. by eapply HQ.
Qed.

Lemma keeps_objects_seq {A B} (m : M A) (k : A -> M B) :
  keeps_objects h0 m -> (forall a, keeps_objects h0 (k a)) -> keeps_objects h0 (bind m k).
Proof.
  intros Hm Hk. apply keeps_objects_bind with (Q := fun _ => True); [done|done|].
  intros a _. apply Hk.
Qed.

Lemma keeps_objects_for_each {A} (body : A -> M unit) (xs : list A) :
  (forall x, keeps_objects h0 (body x)) -> keeps_objects h0 (for_each body xs).
Proof.
  intros Hbody. induction xs as [|x xs IH]; cbn.
  - by intros w Hext.
  - apply keeps_objects_seq; [done|]. by intros _.
Qed.

Lemma keeps_objects_new o : keeps_objects h0 (new o).
Proof. intros w Hext. cbn. eapply extends_trans; [exact Hext|]. apply extends_app. Qed.

Lemma new_fresh o w v w' : extends h0 (store w) -> new o w = (Ok v, w') ->
  forall l, v = VRef l -> length h0 <= l.
Proof.
  intros Hext [= <- _] l [= <-]. by apply extends_length.
Qed.

(** An item assignment writes to its target only. *)
Lemma keeps_objects_setitem x k v :
  (forall l, x = VRef l -> length h0 <= l) -> keeps_objects h0 (setitem x k v).
Proof.
  intros Hx w Hext. unfold setitem, dangling, raise. destruct x as [|l]; [done|].
  destruct (store w !! l) as [[|kvs]|] eqn:Hl; try done. cbn.
  intros l' o Hl'. pose proof (lookup_lt_Some _ _ _ Hl').
  specialize (Hx l eq_refl). rewrite list_lookup_insert_ne by lia. by apply Hext.
Qed.

Lemma keeps_objects_list_append xs v :
  (forall l, xs = VRef l -> length h0 <= l) -> keeps_objects h0 (list_append xs v).
Proof.
  intros Hx w Hext. unfold list_append, dangling, raise. destruct xs as [|l]; [done|].
  destruct (store w !! l) as [[ys|]|] eqn:Hl; try done. cbn.
  intros l' o Hl'. pose proof (lookup_lt_Some _ _ _ Hl').
  specialize (Hx l eq_refl). rewrite list_lookup_insert_ne by lia. by apply Hext.
Qed.

Lemma keeps_objects_deepcopy x : keeps_objects h0 (deepcopy x).
Proof.
  intros w Hext. unfold deepcopy, dangling, raise, deepcopy_heap.
  destruct (deepcopy_rec _ _ _) as [[y [h m]]|] eqn:Hcopy; [|done]. cbn.
  by apply (deepcopy_rec_keeps h0 _ x (store w, ∅) y (h, m) Hext Hcopy).
Qed.

Lemma deepcopy_fresh x w v w' :
  extends h0 (store w) -> deepcopy x w = (Ok v, w') ->
  forall l, v = VRef l -> length h0 <= l.
Proof.
  intros Hext. unfold deepcopy, dangling, raise.
  destruct (deepcopy_heap x (store w)) as [[y [h m]]|] eqn:Hcopy; [|done].
  intros [= <- _] l ->. destruct x as [a|l0].
  - unfold deepcopy_heap in Hcopy. destruct (length (store w)); by injection Hcopy.
  - apply deepcopy_heap_ref in Hcopy. injection Hcopy as ->. by apply extends_length.
Qed.

Lemma preserves_store_getitem x k : preserves store (getitem x k).
Proof.
  intros w. unfold getitem, dangling, raise. destruct x as [[]|l]; try done.
  destruct (store w !! l) as [[|kvs]|]; try done. by destruct (kvs !! k).
Qed.

Lemma preserves_store_import : preserves store import_RokClient.
Proof.
  intros w. unfold import_RokClient. destruct (rok_module_loaded w); [done|].
  by destruct (load_rok_gw_client (outside w)) as [[u|x] e].
Qed.

Lemma preserves_store_modify_client c : preserves store (modify (set_client c)).
Proof. done. Qed.

Lemma preserves_store_log_exception log msg : preserves store (log_exception log msg).
Proof. done. Qed.

Lemma preserves_store_log_error log msg : preserves store (log_error log msg).
Proof. done. Qed.

Lemma preserves_store_py_str x : preserves store (py_str x).
Proof. done. Qed.
End KeepsObjects.

#[export] Hint Resolve preserves_store_getitem preserves_store_import
  preserves_store_modify_client preserves_store_log_exception preserves_store_log_error
  preserves_store_py_str : frame.

Section KeepsObjectsHandlers.
Context `{Collaborators}.
Variable h0 : list obj.

Lemma preserves_store_get_client : preserves store _get_client.
Proof. intros w. apply _get_client_store. Qed.

Lemma keeps_objects_get_cloned_volume_loop volume name members :
  keeps_objects h0 (_get_cloned_volume_loop volume name members).
Proof.
  induction members as [|m members IH]; cbn.
  - apply keeps_objects_preserves. auto with frame.
  - destruct (atom_eq_str (member_object m) name); [|done].
    apply keeps_objects_bind with (Q := fun v => forall l, v = VRef l -> length h0 <= l).
    { apply keeps_objects_deepcopy. }
    { intros w v w'. apply deepcopy_fresh. }
    intros copy Hcopy.
    apply keeps_objects_seq; [by apply keeps_objects_setitem|intros _].
    apply keeps_objects_seq; [apply keeps_objects_new|intros a].
    apply keeps_objects_seq; [apply keeps_objects_new|intros annotations].
    apply keeps_objects_seq; [by apply keeps_objects_setitem|intros _].
    apply keeps_objects_preserves. auto with frame.
Qed.

Lemma keeps_objects_get_cloned_volume volume obj members :
  keeps_objects h0 (_get_cloned_volume volume obj members).
Proof.
  unfold _get_cloned_volume.
  apply keeps_objects_seq; [apply keeps_objects_preserves; auto with frame|intros name].
  apply keeps_objects_seq; [apply keeps_objects_preserves; auto with frame|intros name_str].
  cbv zeta.
  apply keeps_objects_seq; [apply keeps_objects_get_cloned_volume_loop|intros [v|]].
  - apply keeps_objects_preserves. auto with frame.
  - apply keeps_objects_preserves. preserves_tac.
Qed.

Lemma keeps_objects_replace_cloned_volumes r bucket obj version volumes :
  keeps_objects h0 (replace_cloned_volumes r bucket obj version volumes).
Proof.
  unfold replace_cloned_volumes.
  apply keeps_objects_seq; [apply keeps_objects_preserves, preserves_store_get_client|].
  intros rok.
  apply keeps_objects_seq; [apply keeps_objects_preserves; preserves_tac|intros info].
  apply keeps_objects_seq; [apply keeps_objects_preserves; preserves_tac|intros members].
  apply keeps_objects_bind with (Q := fun v => forall l, v = VRef l -> length h0 <= l).
  { apply keeps_objects_new. }
  { intros w v w'. apply new_fresh. }
  intros _volumes Hfresh.
  apply keeps_objects_seq; [|intros _; apply keeps_objects_preserves; auto with frame].
  apply keeps_objects_for_each. intros volume.
  apply keeps_objects_seq; [apply keeps_objects_preserves; auto with frame|intros type].
  apply keeps_objects_seq; [|intros v; by apply keeps_objects_list_append].
  destruct (val_eq_str type "clone"); [apply keeps_objects_get_cloned_volume|].
  apply keeps_objects_preserves. auto with frame.
Qed.

End KeepsObjectsHandlers.

Section StoreHandlers.
Context `{Collaborators}.




End StoreHandlers.

(** ** What a computation can raise *)

Section RaisesOnly.
Context `{Collaborators}.
Variable P : exn -> Prop.

Lemma raises_only_ret {A} (a : A) : raises_only P (ret a).
Proof. by intros w e w'. Qed.

Lemma raises_only_gets {A} (g : world -> A) : raises_only P (gets g).
Proof. by intros w e w'. Qed.

Lemma raises_only_modify g : raises_only P (modify g).
Proof. by intros w e w'. Qed.

Lemma raises_only_new o : raises_only P (new o).
Proof. by intros w e w'. Qed.

Lemma raises_only_py_str x : raises_only P (py_str x).
Proof. by intros w e w'. Qed.

Lemma raises_only_raise {A} e : P e -> raises_only P (@raise _ A e).
Proof. by intros He w e' w' [= <- _]. Qed.

Lemma raises_only_lift {A} (r : result A) :
  (forall e, r = Raise e -> P e) -> raises_only P (lift r).
Proof. intros Hr w e w' [= -> _]. by apply Hr. Qed.

Lemma raises_only_bind {A B} (m : M A) (k : A -> M B) :
  raises_only P m -> (forall a, raises_only P (k a)) -> raises_only P (bind m k).
Proof.
  intros Hm Hk w e w'. unfold bind. destruct (m w) as [[a|e1] w1] eqn:Hrun.
  - apply Hk.
  - intros [= <- _]. by eapply Hm.
Qed.

Lemma raises_only_try_except {A} (m : M A) (handler : exn -> M A) :
  (forall e, raises_only P (handler e)) -> raises_only P (try_except m handler).
Proof.
  intros Hh w e w'. unfold try_except. destruct (m w) as [[a|e1] w1]; [done|]. apply Hh.
Qed.

Lemma raises_only_try_call {A} (g : ext -> outcome A * ext) (handler : ext_exn -> M A) :
  (forall x, raises_only P (handler x)) -> raises_only P (try_call g handler).
Proof.
  intros Hh w e w'. unfold try_call. destruct (g (outside w)) as [[a|x] e1]; [done|].
  apply Hh.
Qed.

Lemma raises_only_for_each {A} (body : A -> M unit) (xs : list A) :
  (forall x, raises_only P (body x)) -> raises_only P (for_each body xs).
Proof.
  intros Hbody. induction xs as [|x xs IH]; cbn; [apply raises_only_ret|].
  apply raises_only_bind; [done|]. by intros _.
Qed.

(** What a collaborator throws is passed on as it is. *)
Hypothesis P_external : forall x, P (External x).

Lemma raises_only_call {A} (g : ext -> outcome A * ext) : raises_only P (call g).
Proof.
  intros w e w'. unfold call. destruct (g (outside w)) as [[a|x] e1]; [done|].
  by intros [= <- _].
Qed.

Lemma raises_only_import : raises_only P import_RokClient.
Proof.
  intros w e w'. unfold import_RokClient. destruct (rok_module_loaded w); [done|].
  destruct (load_rok_gw_client (outside w)) as [[u|x] e1]; [done|]. by intros [= <- _].
Qed.

Lemma raises_only_get_client : raises_only P _get_client.
Proof.
  unfold _get_client. apply raises_only_bind; [apply raises_only_import|intros _].
  apply raises_only_bind; [apply raises_only_gets|intros [c|]]; [apply raises_only_ret|].
  apply raises_only_bind; [apply raises_only_call|intros c].
  apply raises_only_bind; [apply raises_only_modify|intros _]. apply raises_only_ret.
Qed.

(** The built-in errors of the operations on objects. *)
Hypothesis P_key : forall k, P (KeyError k).
Hypothesis P_type : forall msg, P (TypeError msg).
Hypothesis P_system : forall msg, P (SystemError msg).

Lemma raises_only_getitem x k : raises_only P (getitem x k).
Proof.
  intros w e w'. unfold getitem, dangling, raise. destruct x as [[]|l]; try by intros [= <- _].
  destruct (store w !! l) as [[|kvs]|]; try by intros [= <- _].
  destruct (kvs !! k); [done|]. by intros [= <- _].
Qed.

Lemma raises_only_setitem x k v : raises_only P (setitem x k v).
Proof.
  intros w e w'. unfold setitem, dangling, raise. destruct x as [|l]; [by intros [= <- _]|].
  destruct (store w !! l) as [[|kvs]|]; try done; by intros [= <- _].
Qed.

Lemma raises_only_list_append xs v : raises_only P (list_append xs v).
Proof.
  intros w e w'. unfold list_append, dangling, raise.
  destruct xs as [|l]; [by intros [= <- _]|].
  destruct (store w !! l) as [[|kvs]|]; try done; by intros [= <- _].
Qed.

Lemma raises_only_deepcopy x : raises_only P (deepcopy x).
Proof.
  intros w e w'. unfold deepcopy, dangling, raise.
  destruct (deepcopy_heap x (store w)) as [[y [h m]]|]; [done|]. by intros [= <- _].
Qed.

Lemma raises_only_info_getitem {A} info k (cont : atom -> M A) :
  (forall a, raises_only P (cont a)) -> raises_only P (bind (lift (info_getitem info k)) cont).
Proof.
  intros Hc. apply raises_only_bind; [|done]. apply raises_only_lift.
  unfold info_getitem. destruct (info !! k); [done|]. by intros e [= <-].
Qed.

Hypothesis P_value : forall msg, P (ValueError msg).

Lemma raises_only_get_cloned_volume_loop volume name members :
  raises_only P (_get_cloned_volume_loop volume name members).
Proof.
  induction members as [|m members IH]; cbn; [apply raises_only_ret|].
  destruct (atom_eq_str (member_object m) name); [|done].
  apply raises_only_bind; [apply raises_only_deepcopy|intros copy].
  apply raises_only_bind; [apply raises_only_setitem|intros _].
  apply raises_only_bind; [apply raises_only_new|intros a].
  apply raises_only_bind; [apply raises_only_new|intros annotations].
  apply raises_only_bind; [apply raises_only_setitem|intros _]. apply raises_only_ret.
Qed.

Lemma raises_only_get_cloned_volume volume obj members :
  raises_only P (_get_cloned_volume volume obj members).
Proof.
  unfold _get_cloned_volume.
  apply raises_only_bind; [apply raises_only_getitem|intros name].
  apply raises_only_bind; [apply raises_only_py_str|intros name_str]. cbv zeta.
  apply raises_only_bind; [apply raises_only_get_cloned_volume_loop|intros [v|]].
  - apply raises_only_ret.
  - apply raises_only_bind; [apply raises_only_getitem|intros name'].
    apply raises_only_bind; [apply raises_only_py_str|intros name_str'].
    by apply raises_only_raise.
Qed.

Lemma _get_group_members_raises info e :
  _get_group_members info = Raise e -> P e.
Proof.
  unfold _get_group_members, info_getitem.
  destruct (info !! "group_member_count") as [count|]; cbn; [|by intros [= <-]].
  destruct (py_int count) as [n|e'] eqn:Hint; cbn.
  - intros Hloop. by apply _get_group_members_loop_raises in Hloop as [k ->].
  - intros [= <-]. by apply py_int_raises in Hint as [[msg ->]|[msg ->]].
Qed.

Hypothesis P_overflow : forall msg, P (OverflowError msg).

Lemma snapshot_size_gi_raises cl e : snapshot_size_gi cl = Raise e -> P e.
Proof.
  unfold snapshot_size_gi. destruct (py_int cl) as [n|e'] eqn:Hint; cbn.
  - unfold int_truediv_pow2. destruct (_ <=? _)%Z; [|done]. by intros [= <-].
  - intros [= <-]. by apply py_int_raises in Hint as [[msg ->]|[msg ->]].
Qed.

Lemma raises_only_get_task r t b : raises_only P (get_task r t b).
Proof.
  unfold get_task. apply raises_only_bind; [apply raises_only_get_client|intros rok].
  apply raises_only_call.
Qed.

Lemma raises_only_snapshot_notebook r b o : raises_only P (snapshot_notebook r b o).
Proof.
  unfold snapshot_notebook.
  apply raises_only_bind; [apply raises_only_get_client|intros rok].
  apply raises_only_bind; [apply raises_only_gets|intros hostname].
  apply raises_only_bind; [apply raises_only_gets|intros namespace]. cbv zeta.
  apply raises_only_bind.
  { destruct o as [o|]; [destruct (String.eqb o "")|];
      first [apply raises_only_gets|apply raises_only_ret]. }
  intros subject. apply raises_only_bind; [apply raises_only_call|intros _].
  apply raises_only_call.
Qed.

Lemma raises_only_snapshot_pvc r p b : raises_only P (snapshot_pvc r p b).
Proof.
  unfold snapshot_pvc.
  apply raises_only_bind; [apply raises_only_get_client|intros rok].
  apply raises_only_bind; [apply raises_only_gets|intros namespace]. cbv zeta.
  apply raises_only_bind; [apply raises_only_call|intros _]. apply raises_only_call.
Qed.

Lemma raises_only_hydrate_pvc_from_snapshot r o v n b :
  raises_only P (hydrate_pvc_from_snapshot r o v n b).
Proof.
  unfold hydrate_pvc_from_snapshot.
  apply raises_only_bind; [apply raises_only_get_client|intros rok].
  apply raises_only_bind; [apply raises_only_call|intros info].
  apply raises_only_info_getitem. intros content_length.
  apply raises_only_bind; [apply raises_only_lift, snapshot_size_gi_raises|intros size].
  apply raises_only_info_getitem. intros rok_url. cbv zeta.
  apply raises_only_bind; [apply raises_only_call|intros _].
  apply raises_only_bind; [apply raises_only_gets|intros ns].
  apply raises_only_bind; [apply raises_only_call|intros created].
  apply raises_only_bind; [apply raises_only_new|intros d]. apply raises_only_ret.
Qed.

Lemma raises_only_replace_cloned_volumes r b o v vs :
  raises_only P (replace_cloned_volumes r b o v vs).
Proof.
  unfold replace_cloned_volumes.
  apply raises_only_bind; [apply raises_only_get_client|intros rok].
  apply raises_only_bind; [apply raises_only_call|intros info].
  apply raises_only_bind; [apply raises_only_lift, _get_group_members_raises|intros members].
  apply raises_only_bind; [apply raises_only_new|intros _volumes].
  apply raises_only_bind; [|intros _; apply raises_only_ret].
  apply raises_only_for_each. intros volume.
  apply raises_only_bind; [apply raises_only_getitem|intros type].
  apply raises_only_bind; [|intros volume'; apply raises_only_list_append].
  destruct (val_eq_str type "clone"); [apply raises_only_get_cloned_volume|].
  apply raises_only_ret.
Qed.
End RaisesOnly.

(** ** What the handlers leave alone *)

Section Frames.
Context `{Collaborators}.


(** X2: [check_rok_availability] is the only function of the module that
    writes to a logger: any other call leaves the log as it was, whether it
    returns or raises. *)
Theorem only_check_rok_availability_logs c w :
  is_check_rok_availability c = false -> logged (run c w) = logged w.
Proof.
  destruct c; cbn; try done; intros _.
  - apply preserves_logged_get_client.
  - apply preserves_logged_get_task.
  - apply preserves_logged_snapshot_notebook.
  - apply preserves_logged_snapshot_pvc.
  - apply preserves_logged_hydrate_pvc_from_snapshot.
  - apply preserves_logged_replace_cloned_volumes.
Qed.

(** X3: [check_rok_availability] writes one log entry for each condition
    it raises, to the logger of the request when it has one and to the
    module logger otherwise: [log.exception] where it caught an exception,
    [log.error] where the notebook is not listed.  It logs nothing when it
    returns, and nothing when a suggestion without a [value] makes it raise
    [KeyError]. *)
Theorem check_rok_availability_logs_each_condition r w :
  match check_rok_availability r w with
  | (Ok _, w') => logged w' = logged w
  | (Raise e, w') =>
      if is_rpc_error e then
        exists msg,
          (e <> notebook_not_listed (trans_id r) /\
           logged w' = logged w ++ [LogException (log_of r) msg]) \/
          (e = notebook_not_listed (trans_id r) /\
           logged w' = logged w ++ [LogError (log_of r) msg])
      else logged w' = logged w
  end.
Proof.
  rewrite check_rok_availability_run.
  pose proof (preserves_logged_get_client w) as Hlog.
  destruct (_get_client w) as [[rok|e] w1]; cbn in Hlog.
  - destruct (account_info rok (outside w1)) as [[u|x] e2].
    + cbn zeta.
      destruct (version_register_suggest _ _ _ _ _ _ _ e2) as [[suggestions|x] e3].
      * destruct (any_suggestion_is _ suggestions) as [[|]|e] eqn:Hany; cbn.
        -- done.
        -- eexists. right. by rewrite Hlog.
        -- assert (is_rpc_error e = false) as ->; [|done]. clear -Hany.
           induction suggestions as [|s suggestions IH]; cbn in Hany; [done|].
           unfold info_getitem in Hany. destruct (s !! "value") as [v|]; cbn in Hany.
           ++ destruct (atom_eq_str v _); [done|]. by apply IH.
           ++ by injection Hany as <-.
      * cbn. eexists. left. by rewrite Hlog.
    + cbn. eexists. left. by rewrite Hlog.
  - destruct (is_ImportError e); cbn; eexists; left; by rewrite Hlog.
Qed.
End Frames.

Lemma only_check_rok_availability_logs_witness :
  logged (@run (sample NoFault)
            (Enter_replace_cloned_volumes sample_request "notebooks" "mynb" "v3"
               [VRef 0; VRef 1])
            (sample_world NoFault)) = [].
Proof.
  apply (@only_check_rok_availability_logs (sample NoFault)
           (Enter_replace_cloned_volumes sample_request "notebooks" "mynb" "v3"
              [VRef 0; VRef 1])
           (sample_world NoFault) eq_refl).
Defined.

(** ** What the handlers raise *)

Section Taxonomy.
Context `{Collaborators}.

(** X4: apart from [check_rok_availability], nothing in the module builds
    an RPC-typed condition.  What such a call raises is an exception of a
    collaborator passed on as it came, or a built-in error ([KeyError],
    [ValueError], [TypeError], [OverflowError]); [_get_client], [get_task]
    and the two snapshot handlers raise nothing of their own at all. *)
Theorem handlers_raise_no_rpc_condition c w e :
  is_check_rok_availability c = false -> raised c w = Some e ->
  is_rpc_error e = false /\ (allocates c = false -> exists x, e = External x).
Proof.
  intros Hc Hraised.
  assert (Hrun : forall A (m : M A) (P : exn -> Prop),
            raises_only P m -> raised_by (m w).1 = Some e -> P e).
  { intros A m P Hm. destruct (m w) as [[a|e'] w'] eqn:Hmw; cbn; [done|].
    intros [= <-]. by eapply Hm. }
  split.
  - destruct c; cbn in *; try done; revert Hraised;
      apply (Hrun _ _ (fun e => is_rpc_error e = false)).
    + by apply raises_only_get_client.
    + by apply raises_only_get_task.
    + by apply raises_only_snapshot_notebook.
    + by apply raises_only_snapshot_pvc.
    + by apply raises_only_hydrate_pvc_from_snapshot.
    + by apply raises_only_replace_cloned_volumes.
  - destruct c; cbn in *; try done; intros _; revert Hraised;
      apply (Hrun _ _ (fun e => exists x, e = External x)).
    + apply raises_only_get_client. by eexists.
    + apply raises_only_get_task. by eexists.
    + apply raises_only_snapshot_notebook. by eexists.
    + apply raises_only_snapshot_pvc. by eexists.
Qed.

Lemma any_suggestion_is_raises name suggestions e :
  any_suggestion_is name suggestions = Raise e -> e = KeyError "value".
Proof.
  induction suggestions as [|s suggestions IH]; cbn; [done|].
  unfold info_getitem. destruct (s !! "value") as [v|]; cbn.
  - destruct (atom_eq_str v name); [done|]. apply IH.
  - by intros [= <-].
Qed.

(** X5: whatever [check_rok_availability] raises is one of its five
    conditions, each with the transaction id of the request, or the
    [KeyError] of a suggestion that has no [value]: an exception of a
    collaborator never leaves it as it came. *)
Theorem check_rok_availability_raises_only_its_conditions r w e :
  raised (Enter_check_rok_availability r) w = Some e ->
  (e ∈ [module_not_found (trans_id r); client_not_initialized (trans_id r);
        rok_not_accessible (trans_id r); notebook_not_listed (trans_id r)] \/
   (exists x, e = cannot_list_notebooks x (trans_id r)) \/
   e = KeyError "value") /\
  (forall x, e <> External x) /\
  (forall c, rpc_error_of e = Some c -> rpc_trans_id c = trans_id r).
Proof.
  cbn. rewrite check_rok_availability_run.
  destruct (_get_client w) as [[rok|e0] w1].
  - destruct (account_info rok (outside w1)) as [[u|x] e2]; cbn zeta.
    + destruct (version_register_suggest _ _ _ _ _ _ _ e2) as [[suggestions|x] e3].
      * destruct (any_suggestion_is _ suggestions) as [[|]|e'] eqn:Hany; cbn; try done.
        -- intros [= <-]. split; [left; set_solver|]. split; [done|]. by intros c [= <-].
        -- intros [= <-]. apply any_suggestion_is_raises in Hany as ->.
           split; [by right; right|]. done.
      * cbn. intros [= <-]. split; [right; left; by eexists|]. split; [done|].
        by intros c [= <-].
    + cbn. intros [= <-]. split; [left; set_solver|]. split; [done|]. by intros c [= <-].
  - destruct (is_ImportError e0); cbn; intros [= <-];
      (split; [left; set_solver|]); (split; [done|]); by intros c [= <-].
Qed.
End Taxonomy.

Lemma handlers_raise_no_rpc_condition_witness :
  @raised (sample NegativeCount)
    (Enter_hydrate_pvc_from_snapshot sample_request "mynb" "v3" "restored" "notebooks")
    (sample_world NegativeCount) = Some (KeyError "content_length") /\
  is_rpc_error (KeyError "content_length") = false.
Proof.
  split; [vm_compute; reflexivity|].
  apply (@handlers_raise_no_rpc_condition (sample NegativeCount)
           (Enter_hydrate_pvc_from_snapshot sample_request "mynb" "v3" "restored" "notebooks")
           (sample_world NegativeCount) (KeyError "content_length") eq_refl eq_refl).
Defined.

Lemma check_rok_availability_raises_only_its_conditions_witness :
  @raised (scripted script_no_value) (Enter_check_rok_availability sample_request)
    (scripted_world script_no_value) = Some (KeyError "value") /\
  (forall x, KeyError "value" <> External x).
Proof.
  split; [vm_compute; reflexivity|].
  apply (@check_rok_availability_raises_only_its_conditions
           (scripted script_no_value) sample_request (scripted_world script_no_value)
           (KeyError "value") ltac:(vm_compute; reflexivity)).
Defined.

(** ** The listing of the notebooks *)

Lemma atom_eq_str_true a s : atom_eq_str a s = true <-> a = AStr s.
Proof.
  destruct a as [|b|z|t]; cbn; try (split; [done|by intros ?]).
  rewrite String.eqb_eq. split; [by intros ->|by intros [= ->]].
Qed.

Lemma any_suggestion_is_true name suggestions :
  any_suggestion_is name suggestions = Ok true <->
  exists i s, suggestions !! i = Some s /\ s !! "value" = Some (AStr name) /\
    forall j s', j < i -> suggestions !! j = Some s' -> is_Some (s' !! "value").
Proof.
  induction suggestions as [|s0 suggestions IH]; cbn.
  - split; [done|]. by intros (i & s & Hi & _).
  - unfold info_getitem. destruct (s0 !! "value") as [v|] eqn:Hv; cbn.
    + destruct (atom_eq_str v name) eqn:Heq.
      * apply atom_eq_str_true in Heq as ->. split; [intros _|done].
        exists 0, s0. split; [done|]. split; [done|]. intros j s' Hj. lia.
      * rewrite IH. split.
        -- intros (i & s & Hi & Hs & Hbefore). exists (S i), s. split; [done|]. split; [done|].
           intros [|j] s' Hj Hs'; [injection Hs' as <-; by eexists|].
           apply (Hbefore j); [lia|done].
        -- intros ([|i] & s & Hi & Hs & Hbefore).
           ++ injection Hi as <-. rewrite Hs in Hv. injection Hv as <-.
              assert (atom_eq_str (AStr name) name = true) by by apply atom_eq_str_true.
              congruence.
           ++ exists i, s. split; [done|]. split; [done|]. intros j s' Hj Hs'.
              apply (Hbefore (S j)); [lia|done].
    + split; [done|]. intros ([|i] & s & Hi & Hs & Hbefore).
      * injection Hi as <-. congruence.
      * destruct (Hbefore 0 s0 ltac:(lia) eq_refl) as [v Hv']. congruence.
Qed.

Lemma any_suggestion_is_KeyError name suggestions :
  any_suggestion_is name suggestions = Raise (KeyError "value") <->
  exists i s, suggestions !! i = Some s /\ s !! "value" = None /\
    forall j s', j < i -> suggestions !! j = Some s' ->
      exists v, s' !! "value" = Some v /\ v <> AStr name.
Proof.
  induction suggestions as [|s0 suggestions IH]; cbn.
  - split; [done|]. by intros (i & s & Hi & _).
  - unfold info_getitem. destruct (s0 !! "value") as [v|] eqn:Hv; cbn.
    + destruct (atom_eq_str v name) eqn:Heq.
      * apply atom_eq_str_true in Heq as ->. split; [done|].
        intros ([|i] & s & Hi & Hs & Hbefore).
        -- injection Hi as <-. congruence.
        -- destruct (Hbefore 0 s0 ltac:(lia) eq_refl) as (v & Hv' & Hne). congruence.
      * rewrite IH. split.
        -- intros (i & s & Hi & Hs & Hbefore). exists (S i), s. split; [done|]. split; [done|].
           intros [|j] s' Hj Hs'.
           ++ injection Hs' as <-. exists v. split; [done|]. intros ->.
              assert (atom_eq_str (AStr name) name = true) by by apply atom_eq_str_true.
              congruence.
           ++ apply (Hbefore j); [lia|done].
        -- intros ([|i] & s & Hi & Hs & Hbefore).
           ++ injection Hi as <-. congruence.
           ++ exists i, s. split; [done|]. split; [done|]. intros j s' Hj Hs'.
              apply (Hbefore (S j)); [lia|done].
    + split; [intros _|done]. exists 0, s0. split; [done|]. split; [done|].
      intros j s' Hj. lia.
Qed.

Section Listing.
Context `{Collaborators}.

(** X6: once the client and the account information are obtained and the
    suggestions are listed, [check_rok_availability] goes through them in
    order and stops at the first whose [value] is the pod name: it returns
    exactly when there is one and every suggestion before it has a
    [value]; a [value] that is not a string never matches.  It raises
    [KeyError] for [value] exactly when a suggestion without one comes
    before any match, which is none of the RPC-typed conditions. *)
Theorem check_rok_availability_stops_at_first_match r w rok w1 u e2 suggestions e3 :
  _get_client w = (Ok rok, w1) ->
  account_info rok (outside w1) = (Returns u, e2) ->
  version_register_suggest rok DEFAULT_BUCKET (get_pod_name e2) "jupyter" "params:lab"
    {["namespace" := get_namespace e2]} true e2 = (Returns suggestions, e3) ->
  let name := get_pod_name e2 in
  ((check_rok_availability r w).1 = Ok VNone <->
   exists i s, suggestions !! i = Some s /\ s !! "value" = Some (AStr name) /\
     forall j s', j < i -> suggestions !! j = Some s' -> is_Some (s' !! "value")) /\
  ((check_rok_availability r w).1 = Raise (KeyError "value") <->
   exists i s, suggestions !! i = Some s /\ s !! "value" = None /\
     forall j s', j < i -> suggestions !! j = Some s' ->
       exists v, s' !! "value" = Some v /\ v <> AStr name) /\
  is_rpc_error (KeyError "value") = false.
Proof.
  intros Hc Ha Hs name. rewrite check_rok_availability_run, Hc, Ha. cbn zeta.
  rewrite Hs. fold name.
  rewrite <- any_suggestion_is_true, <- any_suggestion_is_KeyError.
  split; [|split; [|done]].
  - destruct (any_suggestion_is name suggestions) as [[|]|e]; cbn; split; try done.
  - destruct (any_suggestion_is name suggestions) as [[|]|e] eqn:Hany; cbn; split; try done.
    + by intros [= ->].
    + by intros [= ->].
Qed.
End Listing.

Lemma check_rok_availability_stops_at_first_match_witness :
  (@check_rok_availability (scripted script_no_value) sample_request
     (scripted_world script_no_value)).1 = Raise (KeyError "value").
Proof.
  pose proof (@check_rok_availability_stops_at_first_match (scripted script_no_value)
    sample_request (scripted_world script_no_value) 1
    (@_get_client (scripted script_no_value) (scripted_world script_no_value)).2 tt
    ["import"; "RokClient"; "account_info"] (script_suggestions script_no_value)
    ["import"; "RokClient"; "account_info"; "version_register_suggest"]
    ltac:(vm_compute; reflexivity) ltac:(vm_compute; reflexivity)
    ltac:(vm_compute; reflexivity)) as Hfirst.
  cbv zeta in Hfirst. destruct Hfirst as (_ & Hkey & _).
  apply Hkey. exists 1, (∅ : gmap string atom).
  split; [reflexivity|]. split; [vm_compute; reflexivity|].
  intros [|[|j]] s' Hj Hs'; [|lia|lia]. exists (AStr "other-0").
  injection Hs' as <-. split; [vm_compute; reflexivity|discriminate].
Defined.

(** ** Failing to obtain the client *)

Section ClientFailure.
Context `{Collaborators}.

(** X7: a call of [_get_client] that raises caches nothing.  It raised
    what the import or [RokClient()] threw, unchanged; [_client] is still
    [None], so the next call tries again; and once the import has gone
    through, the next call goes straight to [RokClient()] without importing
    again. *)
Theorem _get_client_failure_is_not_cached w e w' :
  world_ok w -> _get_client w = (Raise e, w') ->
  _client w = None /\ _client w' = None /\ world_ok w' /\
  store w' = store w /\ logged w' = logged w /\
  ((exists x e1, e = External x /\ rok_module_loaded w = false /\
                 load_rok_gw_client (outside w) = (Throws x, e1) /\
                 rok_module_loaded w' = false /\ outside w' = e1) \/
   (exists x, e = External x /\ rok_module_loaded w' = true /\
              exists e1, RokClient e1 = (Throws x, outside w'))) /\
  (rok_module_loaded w' = true ->
   _get_client w' =
     match RokClient (outside w') with
     | (Returns c, e2) => (Ok c, set_client (Some c) (set_outside e2 w'))
     | (Throws x, e2) => (Raise (External x), set_outside e2 w')
     end).
Proof.
  intros Hw Hrun.
  assert (Hretry : forall w0, rok_module_loaded w0 = true -> _client w0 = None ->
            _get_client w0 =
              match RokClient (outside w0) with
              | (Returns c, e2) => (Ok c, set_client (Some c) (set_outside e2 w0))
              | (Throws x, e2) => (Raise (External x), set_outside e2 w0)
              end).
  { intros w0 Hl Hc. unfold _get_client, bind, import_RokClient, gets, call, modify, ret.
    rewrite Hl, Hc. by destruct (RokClient (outside w0)) as [[c|x] e2]. }
  revert Hrun. unfold _get_client, bind, import_RokClient, gets, call, modify, ret.
  unfold world_ok in Hw.
  destruct (rok_module_loaded w) eqn:Hl.
  - destruct (_client w) as [c|] eqn:Hc; [done|].
    destruct (RokClient (outside w)) as [[c|x] e2] eqn:Hnew; [done|]. intros [= <- <-].
    cbn. split; [done|]. split; [done|].
    split; [unfold world_ok; cbn; rewrite Hc; by intros [? ?]|].
    split; [done|]. split; [done|]. split.
    + right. exists x. split; [done|]. split; [done|]. by exists (outside w).
    + intros _. by apply (Hretry (set_outside e2 w)).
  - assert (Hc : _client w = None).
    { destruct (_client w); [|done]. by discriminate Hw. }
    destruct (load_rok_gw_client (outside w)) as [[u|x] e1] eqn:Hload; cbn.
    + rewrite Hc. cbn. destruct (RokClient e1) as [[c|x] e2] eqn:Hnew; [done|].
      intros [= <- <-]. cbn. split; [done|]. split; [done|].
      split; [unfold world_ok; cbn; rewrite Hc; by intros [? ?]|].
      split; [done|]. split; [done|]. split.
      * right. exists x. split; [done|]. split; [done|]. by exists e1.
      * intros _. by apply (Hretry (set_outside e2 (set_loaded true (set_outside e1 w)))).
    + intros [= <- <-]. cbn. split; [done|]. split; [done|].
      split; [unfold world_ok; cbn; rewrite Hc; by intros [? ?]|].
      split; [done|]. split; [done|]. split.
      * left. by exists x, e1.
      * by rewrite Hl.
Qed.
End ClientFailure.

Lemma _get_client_failure_is_not_cached_witness :
  (@_get_client (sample ClientBroken) (sample_world ClientBroken)).1
    = Raise (External (sample_exn "ConnectionError" false)) /\
  _client (@_get_client (sample ClientBroken) (sample_world ClientBroken)).2 = None.
Proof.
  split; [vm_compute; reflexivity|].
  apply (@_get_client_failure_is_not_cached (sample ClientBroken)
           (sample_world ClientBroken) (External (sample_exn "ConnectionError" false))
           (@_get_client (sample ClientBroken) (sample_world ClientBroken)).2).
  - unfold world_ok, sample_world, initial. cbn. by intros [? ?].
  - vm_compute. reflexivity.
Defined.

(** ** Hydrating from incomplete metadata *)

Lemma snapshot_size_gi_raises_builtin cl e :
  snapshot_size_gi cl = Raise e ->
  (exists msg, e = ValueError msg) \/ (exists msg, e = TypeError msg) \/
  (exists msg, e = OverflowError msg).
Proof.
  unfold snapshot_size_gi. destruct (py_int cl) as [n|e'] eqn:Hint; cbn.
  - unfold int_truediv_pow2. destruct (_ <=? _)%Z; [|done]. intros [= <-].
    right. right. by eexists.
  - intros [= <-]. apply py_int_raises in Hint as [[msg ->]|[msg ->]];
      [left|right; left]; by eexists.
Qed.

Section HydrateFailures.
Context `{Collaborators}.

(** X8: [hydrate_pvc_from_snapshot] reads the metadata before it turns to
    the cluster.  When [content_length] is missing it raises [KeyError];
    when it is no integer literal, [ValueError] (or [TypeError],
    [OverflowError]); when [rok_url] is missing, [KeyError]: in each case
    the last call made is [version_info], no claim is created and nothing
    is allocated.  The length is looked at before the URL.  An exception
    of the Kubernetes client is passed on as it came, and no result is
    built. *)
Theorem hydrate_pvc_from_snapshot_reads_metadata_first
    r obj version name bucket w rok w1 info e2 :
  _get_client w = (Ok rok, w1) ->
  version_info rok bucket obj version (outside w1) = (Returns info, e2) ->
  let result := hydrate_pvc_from_snapshot r obj version name bucket w in
  (info !! "content_length" = None ->
     result = (Raise (KeyError "content_length"), set_outside e2 w1)) /\
  (forall cl e,
     info !! "content_length" = Some cl -> snapshot_size_gi cl = Raise e ->
     result = (Raise e, set_outside e2 w1) /\
     ((exists msg, e = ValueError msg) \/ (exists msg, e = TypeError msg) \/
      (exists msg, e = OverflowError msg))) /\
  (forall cl size,
     info !! "content_length" = Some cl -> snapshot_size_gi cl = Ok size ->
     info !! "rok_url" = None ->
     result = (Raise (KeyError "rok_url"), set_outside e2 w1)) /\
  (forall cl size u x e3,
     info !! "content_length" = Some cl -> snapshot_size_gi cl = Ok size ->
     info !! "rok_url" = Some u -> CoreV1Api e2 = (Throws x, e3) ->
     result = (Raise (External x), set_outside e3 w1)) /\
  (forall cl size u e3 x e4,
     info !! "content_length" = Some cl -> snapshot_size_gi cl = Ok size ->
     info !! "rok_url" = Some u -> CoreV1Api e2 = (Returns tt, e3) ->
     create_namespaced_persistent_volume_claim (get_namespace e3) (rok_claim name u size) e3
     = (Throws x, e4) ->
     result = (Raise (External x), set_outside e4 w1)).
Proof.
  intros Hc Hv result.
  assert (Hstart : result =
    (let* content_length := lift (info_getitem info "content_length") in
     let* size := lift (snapshot_size_gi content_length) in
     let* rok_url := lift (info_getitem info "rok_url") in
     let pvc := rok_claim name rok_url size in
     call CoreV1Api ;;;
     let* ns := gets (fun w => get_namespace (outside w)) in
     let* ns_pvc_name := call (create_namespaced_persistent_volume_claim ns pvc) in
     let* r := new (ODict {["name" := VStr ns_pvc_name]}) in
     ret r) (set_outside e2 w1)).
  { unfold result, hydrate_pvc_from_snapshot. rewrite (bind_ok _ _ _ _ _ Hc).
    unfold bind at 1, call at 1. by rewrite Hv. }
  rewrite Hstart. clear Hstart result.
  split; [|split; [|split; [|split]]].
  - intros Hcl. unfold bind at 1, lift at 1, info_getitem at 1. by rewrite Hcl.
  - intros cl e Hcl Hsz. split; [|by apply snapshot_size_gi_raises_builtin in Hsz].
    unfold bind at 1, lift at 1, info_getitem at 1. rewrite Hcl.
    unfold bind at 1, lift at 1. by rewrite Hsz.
  - intros cl size Hcl Hsz Hu.
    unfold bind at 1, lift at 1, info_getitem at 1. rewrite Hcl.
    unfold bind at 1, lift at 1. rewrite Hsz.
    unfold bind at 1, lift at 1, info_getitem at 1. by rewrite Hu.
  - intros cl size u x e3 Hcl Hsz Hu Hapi.
    unfold bind at 1, lift at 1, info_getitem at 1. rewrite Hcl.
    unfold bind at 1, lift at 1. rewrite Hsz.
    unfold bind at 1, lift at 1, info_getitem at 1. rewrite Hu.
    unfold bind at 1, call at 1. cbn [outside set_outside]. by rewrite Hapi.
  - intros cl size u e3 x e4 Hcl Hsz Hu Hapi Hcreate.
    unfold bind at 1, lift at 1, info_getitem at 1. rewrite Hcl.
    unfold bind at 1, lift at 1. rewrite Hsz.
    unfold bind at 1, lift at 1, info_getitem at 1. rewrite Hu.
    unfold bind at 1, call at 1. cbn [outside set_outside]. rewrite Hapi.
    unfold bind at 1, gets at 1. cbn [outside set_outside].
    unfold bind at 1, call at 1. cbn [outside set_outside]. by rewrite Hcreate.
Qed.
End HydrateFailures.

Lemma hydrate_pvc_from_snapshot_reads_metadata_first_witness :
  exists w',
    @hydrate_pvc_from_snapshot (sample NegativeCount) sample_request "mynb" "v3" "restored"
      "notebooks" (sample_world NegativeCount) = (Raise (KeyError "content_length"), w') /\
    outside w' = ["import"; "RokClient"; "version_info"] /\ store w' = sample_store.
Proof.
  eexists. split; [|split].
  - apply (proj1 (@hydrate_pvc_from_snapshot_reads_metadata_first (sample NegativeCount)
      sample_request "mynb" "v3" "restored" "notebooks" (sample_world NegativeCount)
      1 _ sample_info_negative _ eq_refl eq_refl)).
    vm_compute. reflexivity.
  - reflexivity.
  - reflexivity.
Defined.

(** ** Stopping at the first volume that cannot be processed *)

Section PreservesBesidesStore.
Context `{Collaborators}.
Context {X : Type} (f : world -> X).
Hypothesis f_store : forall h w, f (set_store h w) = f w.

Lemma preserves_new o : preserves f (new o).
Proof. intros w. cbn. apply f_store. Qed.

Lemma preserves_getitem x k : preserves f (getitem x k).
Proof.
  intros w. unfold getitem, dangling, raise. destruct x as [[]|l]; try done.
  destruct (store w !! l) as [[|kvs]|]; try done. by destruct (kvs !! k).
Qed.

Lemma preserves_setitem x k v : preserves f (setitem x k v).
Proof.
  intros w. unfold setitem, dangling, raise. destruct x as [|l]; [done|].
  destruct (store w !! l) as [[|kvs]|]; try done. cbn. apply f_store.
Qed.

Lemma preserves_list_append xs v : preserves f (list_append xs v).
Proof.
  intros w. unfold list_append, dangling, raise. destruct xs as [|l]; [done|].
  destruct (store w !! l) as [[|kvs]|]; try done. cbn. apply f_store.
Qed.

Lemma preserves_deepcopy x : preserves f (deepcopy x).
Proof.
  intros w. unfold deepcopy, dangling, raise.
  destruct (deepcopy_heap x (store w)) as [[y [h m]]|]; [|done]. cbn. apply f_store.
Qed.

Lemma preserves_get_cloned_volume_loop volume name members :
  preserves f (_get_cloned_volume_loop volume name members).
Proof.
  pose proof preserves_new. pose proof preserves_setitem. pose proof preserves_deepcopy.
  induction members as [|m members IH]; cbn; preserves_tac.
Qed.

Lemma preserves_get_cloned_volume volume obj members :
  preserves f (_get_cloned_volume volume obj members).
Proof.
  pose proof preserves_getitem. pose proof preserves_get_cloned_volume_loop.
  unfold _get_cloned_volume, py_str. preserves_tac.
Qed.

Lemma preserves_replace_cloned_volumes_loop (lv : nat) obj members volumes :
  preserves f
    (for_each (fun volume =>
        let* type := getitem volume "type" in
        let* volume :=
          if val_eq_str type "clone" then _get_cloned_volume volume obj members
          else ret volume in
        list_append (VRef lv) volume) volumes ;;; ret (VRef lv)).
Proof.
  pose proof preserves_getitem. pose proof preserves_get_cloned_volume.
  pose proof preserves_list_append. preserves_tac.
Qed.
End PreservesBesidesStore.

Section FirstFailure.
Context `{Collaborators}.

(** The state in which the loop of [replace_cloned_volumes] reaches the
    volume that follows volumes it can process. *)
Lemma replace_cloned_volumes_reaches r bucket obj version before v after w rok w1 info e2
    members :
  heap_closed (store w) ->
  _get_client w = (Ok rok, w1) ->
  version_info rok bucket obj version (outside w1) = (Returns info, e2) ->
  _get_group_members info = Ok members ->
  Forall (resolvable (store w) obj members) before ->
  exists w4,
    extends (store w) (store w4) /\
    forall e w5,
      (let* type := getitem v "type" in
       let* volume :=
         if val_eq_str type "clone" then _get_cloned_volume v obj members else ret v in
       list_append (VRef (length (store w))) volume) w4 = (Raise e, w5) ->
      replace_cloned_volumes r bucket obj version (before ++ v :: after) w = (Raise e, w5).
Proof.
  intros Hclosed Hc Hv Hm Hbefore.
  rewrite (replace_cloned_volumes_start _ _ _ _ _ _ _ _ _ _ _ Hc Hv Hm).
  set (lv := length (store w)).
  set (w3 := set_store (store w ++ [OList []]) (set_outside e2 w1)).
  match goal with |- context [for_each ?b _] => set (body := b) end.
  destruct (for_each_raise body (loop_inv (store w) lv obj members)
              (resolvable (store w) obj members)
              (fun done v w0 => replace_cloned_volumes_step (store w) lv obj members done v w0)
              before v after w3 Hbefore) as (w4 & Hinv & Hrun).
  { by apply loop_inv_start. }
  exists w4. split; [by destruct Hinv as (_ & Hext & _)|].
  intros e w5 Hbody. unfold bind at 1. rewrite Hrun. unfold bind at 1.
  fold (body v). unfold body at 1. by rewrite Hbody.
Qed.

(** X9: [replace_cloned_volumes] gives up at the first volume it cannot
    process, and returns no partial list.  After volumes that it can
    process, a volume without a [type] raises [KeyError]; a clone without a
    [name] raises [KeyError]; a clone whose name has no member raises
    [ValueError] with the message of [_get_cloned_volume].  The volumes
    after it are not looked at, no collaborator is called after
    [version_info], and every object that existed at the call is
    unchanged. *)
Theorem replace_cloned_volumes_stops_at_first_failure
    r bucket obj version before (l : nat) d after w rok w1 info e2 members :
  heap_closed (store w) ->
  _get_client w = (Ok rok, w1) ->
  version_info rok bucket obj version (outside w1) = (Returns info, e2) ->
  _get_group_members info = Ok members ->
  Forall (resolvable (store w) obj members) before ->
  store w !! l = Some (ODict d) ->
  let result := replace_cloned_volumes r bucket obj version (before ++ VRef l :: after) w in
  (d !! "type" = None -> result.1 = Raise (KeyError "type")) /\
  (is_clone (store w) (VRef l) = true -> d !! "name" = None ->
   result.1 = Raise (KeyError "name")) /\
  (forall nm,
     is_clone (store w) (VRef l) = true -> d !! "name" = Some nm ->
     (forall j mj, members !! j = Some mj ->
        atom_eq_str (member_object mj) (obj +:+ "_" +:+ str_of_val (store w) nm) = false) ->
     result.1 = Raise (ValueError ("Volume '" +:+ str_of_val (store w) nm +:+
                                   "' not found in group '" +:+ obj +:+ "'"))) /\
  extends (store w) (store result.2) /\
  outside result.2 = e2.
Proof.
  intros Hclosed Hc Hv Hm Hbefore Hl result.
  destruct (replace_cloned_volumes_reaches r bucket obj version before (VRef l) after
              w rok w1 info e2 members Hclosed Hc Hv Hm Hbefore) as (w4 & Hext & Hfail).
  pose proof (Hext _ _ Hl) as Hl4.
  assert (Hclone : is_clone (store w) (VRef l) = true ->
            exists ty, d !! "type" = Some ty /\ val_eq_str ty "clone" = true).
  { unfold is_clone. rewrite Hl. destruct (d !! "type") as [ty|]; [|done]. by exists ty. }
  split; [|split; [|split; [|split]]].
  - intros Hty. unfold result. erewrite Hfail; [done|].
    by rewrite (bind_raise _ _ _ _ _ (getitem_absent _ _ _ _ Hl4 Hty)).
  - intros Hyes Hname. destruct (Hclone Hyes) as (ty & Hty & Heq).
    unfold result. erewrite Hfail; [done|].
    rewrite (bind_ok _ _ _ _ _ (getitem_run _ _ _ _ _ Hl4 Hty)). rewrite Heq.
    by rewrite (bind_raise _ _ _ _ _ (_get_cloned_volume_no_name _ _ _ _ _ Hl4 Hname)).
  - intros nm Hyes Hname Hnone. destruct (Hclone Hyes) as (ty & Hty & Heq).
    assert (Hstr : str_of_val (store w4) nm = str_of_val (store w) nm).
    { destruct nm as [a|l']; [done|]. cbn. apply container_str_stable; [done|done|].
      eapply Hclosed; [exact Hl|]. apply elem_of_dict_vals. by exists "name". }
    unfold result. erewrite Hfail; [done|].
    rewrite (bind_ok _ _ _ _ _ (getitem_run _ _ _ _ _ Hl4 Hty)). rewrite Heq.
    rewrite <- Hstr. apply bind_raise.
    apply _get_cloned_volume_not_found with (d := d); [done|done|].
    apply Forall_forall. intros m Hmem. apply list_elem_of_lookup in Hmem as [j Hj].
    rewrite Hstr. by eapply Hnone.
  - apply keeps_objects_replace_cloned_volumes, extends_refl.
  - unfold result. rewrite (replace_cloned_volumes_start _ _ _ _ _ _ _ _ _ _ _ Hc Hv Hm).
    by rewrite (preserves_replace_cloned_volumes_loop outside).
Qed.
End FirstFailure.

Lemma replace_cloned_volumes_stops_at_first_failure_witness :
  (@replace_cloned_volumes (sample NoFault) sample_request "notebooks" "other" "v3"
     [VRef 1; VRef 0; VRef 1] (sample_world NoFault)).1
  = Raise (ValueError "Volume 'vol1' not found in group 'other'").
Proof.
  pose proof (@replace_cloned_volumes_stops_at_first_failure (sample NoFault) sample_request
    "notebooks" "other" "v3" [VRef 1] 0
    (<["type" := VStr "clone"]> {["name" := VStr "vol1"]}) [VRef 1]
    (sample_world NoFault) 1 _ sample_info _ sample_members
    sample_store_closed eq_refl eq_refl ltac:(vm_compute; reflexivity)) as Hstop.
  cbv zeta in Hstop.
  destruct Hstop as (_ & _ & Hnot_found & _).
  - constructor; [|constructor].
    exists 1, (<["type" := VStr "pvc"]> (<["name" := VStr "data"]> {["annotations" := VRef 2]})),
      (VStr "pvc").
    split; [reflexivity|]. split; [reflexivity|]. split; [vm_compute; reflexivity|].
    intros Hclone. vm_compute in Hclone. discriminate Hclone.
  - reflexivity.
  - apply (Hnot_found (VStr "vol1")).
    + vm_compute. reflexivity.
    + vm_compute. reflexivity.
    + intros [|j] mj Hj; [|done]. injection Hj as <-. vm_compute. reflexivity.
Defined.

(** ** Replacing twice *)

Lemma passed_on_is_clone h v : passed_on h v -> is_clone h v = false.
Proof. intros (l & d & ty & -> & Hl & Hty & Hne). unfold is_clone. by rewrite Hl, Hty. Qed.

Lemma passed_on_insert h (lv : nat) o v :
  v <> VRef lv -> passed_on h v -> passed_on (<[lv := o]> h) v.
Proof.
  intros Hne (l & d & ty & -> & Hl & Hty & Hty'). exists l, d, ty.
  split; [done|]. split; [|done]. rewrite list_lookup_insert_ne; [done|]. by intros ->.
Qed.

Lemma passed_on_extends h h' v : extends h h' -> passed_on h v -> passed_on h' v.
Proof.
  intros Hext (l & d & ty & -> & Hl & Hty & Hty'). exists l, d, ty.
  split; [done|]. split; [by apply Hext|done].
Qed.

Section Twice.
Context `{Collaborators}.

(** One turn of the loop keeps [settled_inv]. *)
Lemma replace_cloned_volumes_step_settled h0 lv obj members done v w :
  settled_inv h0 lv obj members done w -> resolvable h0 obj members v ->
  exists w',
    (let* type := getitem v "type" in
     let* volume :=
       if val_eq_str type "clone" then _get_cloned_volume v obj members else ret v in
     list_append (VRef lv) volume) w = (Ok tt, w') /\
    settled_inv h0 lv obj members (done ++ [v]) w'.
Proof.
  intros [Hinv Hsettled] Hres.
  destruct (replace_cloned_volumes_step h0 lv obj members done v w Hinv Hres)
    as (w' & Hrun & Hinv').
  exists w'. split; [done|]. split; [done|].
  destruct Hinv as (Hclosed0 & Hext & Hclosed & Hlv & out & Hout & _).
  specialize (Hsettled out Hout).
  destruct Hres as (l & d & ty & -> & Hl & Hty & Hres).
  pose proof (Hext _ _ Hl) as Hlw.
  pose proof (lookup_lt_Some _ _ _ Hl) as Hlt.
  pose proof (lookup_lt_Some _ _ _ Hout) as Hlvlt.
  rewrite (bind_ok _ _ _ _ _ (getitem_run _ _ _ _ _ Hlw Hty)) in Hrun.
  pose proof (is_clone_type _ _ _ _ Hl Hty) as Hclone.
  destruct (val_eq_str ty "clone") eqn:Hty_clone.
  - destruct (Hres Hclone) as (nm & i & member & Hname & Hfirst).
    assert (Hstr : str_of_val (store w) nm = str_of_val h0 nm).
    { destruct nm as [a|l']; [done|]. cbn. apply container_str_stable; [done|done|].
      eapply Hclosed0; [exact Hl|]. apply elem_of_dict_vals. by exists "name". }
    rewrite <- Hstr in Hfirst.
    destruct (_get_cloned_volume_resolves w l d nm obj members i member
                Hclosed Hlw Hname Hfirst) as (y & m & la & ld & h' & Hcopy & Hcloned).
    pose proof Hcloned as (Hext' & Hml & Hrange & _ & _ & _ & Hy & _).
    rewrite (bind_ok _ _ _ _ _ Hcopy) in Hrun.
    assert (Hout' : store (set_store h' w) !! lv = Some (OList out)) by by apply Hext'.
    rewrite (list_append_run _ _ _ _ Hout') in Hrun. injection Hrun as <-.
    cbn [store set_store]. intros out2 Hout2.
    rewrite list_lookup_insert_eq in Hout2 by by eapply lookup_lt_Some.
    injection Hout2 as <-. specialize (Hrange _ _ Hml).
    apply Forall_app. split.
    + eapply Forall_impl; [exact Hsettled|]. intros vi [Hne Hvi]. split; [done|].
      apply passed_on_insert; [done|]. by eapply passed_on_extends.
    + constructor; [|constructor]. split; [intros [= ->]; lia|].
      apply passed_on_insert; [intros [= ->]; lia|].
      exists y, (new_pvc_fields m d la), (VStr "new_pvc"). split; [done|]. split; [done|].
      split; [|done]. unfold new_pvc_fields.
      rewrite lookup_insert_ne by done. by rewrite lookup_insert_eq.
  - unfold bind at 1, ret at 1 in Hrun.
    rewrite (list_append_run _ _ _ _ Hout) in Hrun. injection Hrun as <-.
    cbn [store set_store]. intros out2 Hout2.
    rewrite list_lookup_insert_eq in Hout2 by done. injection Hout2 as <-.
    apply Forall_app. split.
    + eapply Forall_impl; [exact Hsettled|]. intros vi [Hne Hvi]. split; [done|].
      by apply passed_on_insert.
    + constructor; [|constructor]. split; [intros [= ->]; lia|].
      apply passed_on_insert; [intros [= ->]; lia|]. by exists l, d, ty.
Qed.

Lemma Forall2_replaced_passed_on h h' lv obj members (vs out : list val) :
  Forall (fun v => is_clone h v = false) vs ->
  Forall2 (replaced h h' lv obj members) vs out -> out = vs.
Proof.
  intros Hvs Hrep. induction Hrep as [|v vi vs out Hv _ IH]; [done|].
  apply Forall_cons in Hvs as [Hnot Hvs]. unfold replaced in Hv. rewrite Hnot in Hv.
  subst vi. f_equal. by apply IH.
Qed.

(** X10: [replace_cloned_volumes] leaves nothing for a second pass.  No
    element of the list it returns is a clone: each is a dict with a [type]
    other than [clone].  Given that list, a second call, for whatever
    snapshot, returns a new list with the very same elements and leaves the
    first list as it is. *)
Theorem replace_cloned_volumes_twice
    r bucket obj version volumes w rok w1 info e2 members
    r' bucket' obj' version' rok' w1' info' e2' members' :
  heap_closed (store w) ->
  _get_client w = (Ok rok, w1) ->
  version_info rok bucket obj version (outside w1) = (Returns info, e2) ->
  _get_group_members info = Ok members ->
  Forall (resolvable (store w) obj members) volumes ->
  let first := replace_cloned_volumes r bucket obj version volumes w in
  _get_client first.2 = (Ok rok', w1') ->
  version_info rok' bucket' obj' version' (outside w1') = (Returns info', e2') ->
  _get_group_members info' = Ok members' ->
  exists (lv : loc) out (lv' : loc) w'',
    first.1 = Ok (VRef lv) /\
    store first.2 !! lv = Some (OList out) /\
    Forall (passed_on (store first.2)) out /\
    replace_cloned_volumes r' bucket' obj' version' out first.2 = (Ok (VRef lv'), w'') /\
    lv' <> lv /\
    store w'' !! lv' = Some (OList out) /\
    store w'' !! lv = Some (OList out).
Proof.
  intros Hclosed Hc Hv Hm Hall first Hc' Hv' Hm'.
  assert (Hfirst : exists out w',
            first = (Ok (VRef (length (store w))), w') /\
            settled_inv (store w) (length (store w)) obj members volumes w' /\
            store w' !! length (store w) = Some (OList out)).
  { unfold first. rewrite (replace_cloned_volumes_start _ _ _ _ _ _ _ _ _ _ _ Hc Hv Hm).
    set (lv := length (store w)).
    set (w3 := set_store (store w ++ [OList []]) (set_outside e2 w1)).
    destruct (for_each_inv _ (settled_inv (store w) lv obj members)
                (resolvable (store w) obj members)
                (fun done v w0 =>
                   replace_cloned_volumes_step_settled (store w) lv obj members done v w0)
                volumes [] w3 Hall) as (w' & Hrun & Hinv).
    { split; [by apply loop_inv_start|]. intros out Hout. cbn in Hout.
      rewrite list_lookup_middle in Hout by done. injection Hout as <-. constructor. }
    cbn [app] in Hinv. pose proof Hinv as ((_ & _ & _ & _ & out & Hout & _) & _).
    exists out, w'. by rewrite (bind_ok _ _ _ _ _ Hrun). }
  destruct Hfirst as (out & w' & Hrun & [Hinv Hsettled] & Hout).
  rewrite Hrun in *. cbn [fst snd] in *.
  specialize (Hsettled out Hout).
  destruct Hinv as (_ & _ & Hclosed' & _).
  assert (Hpassed : Forall (passed_on (store w')) out).
  { eapply Forall_impl; [exact Hsettled|]. by intros vi [_ Hvi]. }
  assert (Hall' : Forall (resolvable (store w') obj' members') out).
  { eapply Forall_impl; [exact Hpassed|]. intros vi Hvi.
    pose proof (passed_on_is_clone _ _ Hvi) as Hnot.
    destruct Hvi as (l & d & ty & -> & Hl & Hty & Hne). exists l, d, ty.
    repeat (split; [done|]). intros Hyes. congruence. }
  destruct (replace_cloned_volumes_run r' bucket' obj' version' out w' rok' w1' info' e2'
              members' Hclosed' Hc' Hv' Hm' Hall')
    as (out2 & w'' & Hrun2 & Hinv2 & Hout2 & Hrep2).
  assert (out2 = out) as ->.
  { eapply Forall2_replaced_passed_on; [|exact Hrep2].
    eapply Forall_impl; [exact Hpassed|]. apply passed_on_is_clone. }
  pose proof (lookup_lt_Some _ _ _ Hout) as Hlt.
  exists (length (store w)), out, (length (store w')), w''.
  split; [done|]. split; [done|]. split; [done|]. split; [done|].
  split; [lia|]. split; [done|].
  destruct Hinv2 as (_ & Hext2 & _). by apply Hext2.
Qed.
End Twice.

Lemma replace_cloned_volumes_twice_witness :
  exists (lv : nat) out (lv' : nat) w'',
    (@replace_cloned_volumes (sample NoFault) sample_request "notebooks" "mynb" "v3"
       [VRef 0; VRef 1] (sample_world NoFault)).1 = Ok (VRef lv) /\
    @replace_cloned_volumes (sample NoFault) sample_request "notebooks" "mynb" "v3" out
      (@replace_cloned_volumes (sample NoFault) sample_request "notebooks" "mynb" "v3"
         [VRef 0; VRef 1] (sample_world NoFault)).2 = (Ok (VRef lv'), w'') /\
    store w'' !! lv' = Some (OList out).
Proof.
  set (first := @replace_cloned_volumes (sample NoFault) sample_request "notebooks" "mynb" "v3"
       [VRef 0; VRef 1] (sample_world NoFault)).
  assert (Hall : Forall (@resolvable (sample NoFault) sample_store "mynb" sample_members)
                   [VRef 0; VRef 1]).
  { repeat constructor.
    + exists 0, (<["type" := VStr "clone"]> {["name" := VStr "vol1"]}), (VStr "clone").
      repeat (split; [reflexivity|]). intros _.
      exists (VStr "vol1"), 0, (Member (AStr "mynb_vol1") (AStr "v3") (AStr "rok://x/y")).
      split; [reflexivity|]. split; [reflexivity|]. split; [vm_compute; reflexivity|].
      intros j m Hj. lia.
    + exists 1, (<["type" := VStr "pvc"]>
                   (<["name" := VStr "data"]> {["annotations" := VRef 2]})), (VStr "pvc").
      repeat (split; [reflexivity|]). intros Hclone. vm_compute in Hclone.
      discriminate Hclone. }
  assert (Hc' : @_get_client (sample NoFault) first.2 = (Ok 1, first.2))
    by (vm_compute; reflexivity).
  pose proof (@replace_cloned_volumes_twice (sample NoFault) sample_request
    "notebooks" "mynb" "v3" [VRef 0; VRef 1] (sample_world NoFault)
    1 _ sample_info _ sample_members
    sample_request "notebooks" "mynb" "v3" 1 first.2 sample_info
    (outside first.2 ++ ["version_info"]) sample_members
    sample_store_closed eq_refl eq_refl eq_refl Hall Hc' eq_refl eq_refl)
    as (lv & out & lv' & w'' & Hfirst & _ & _ & Hsecond & _ & Hout & _).
  exists lv, out, lv', w''.
  exact (conj Hfirst (conj Hsecond Hout)).
Defined.

(** ** Decimal text *)

Lemma N_digit_cases (d : N) :
  (d < 10)%N ->
  (d = 0 \/ d = 1 \/ d = 2 \/ d = 3 \/ d = 4 \/ d = 5 \/ d = 6 \/ d = 7 \/ d = 8 \/ d = 9)%N.
Proof. lia. Qed.

Lemma digit_of_pretty_N_char d :
  (d < 10)%N -> digit_of (pretty_N_char d) = Some (Z.of_N d).
Proof.
  intros Hd.
  destruct (N_digit_cases d Hd) as [->|[->|[->|[->|[->|[->|[->|[->|[->| ->]]]]]]]]];
    reflexivity.
Qed.

(** The digits that [str] writes for a positive number are read back by
    [int] as that number. *)
Lemma scan_digits_pretty_N_go x :
  (0 < x)%N ->
  exists p, forall acc b s,
    scan_digits acc b (pretty_N_go x s) = scan_digits (p * acc + Z.of_N x) true s.
Proof.
  induction (N.lt_wf_0 x) as [x _ IH]. intros Hx.
  assert (Hmod : (x `mod` 10 < 10)%N) by (apply N.mod_lt; lia).
  pose proof (N.div_mod x 10 ltac:(lia)) as Hdm.
  destruct (decide (x `div` 10 = 0)%N) as [Hz|Hnz].
  - exists 10%Z. intros acc b s. rewrite pretty_N_go_step, Hz, pretty_N_go_0 by done.
    cbn [scan_digits]. rewrite digit_of_pretty_N_char by done. f_equal. lia.
  - destruct (IH (x `div` 10)%N) as [p Hp]; [apply N.div_lt; lia|lia|].
    exists (10 * p)%Z. intros acc b s. rewrite pretty_N_go_step, Hp by done.
    cbn [scan_digits]. rewrite digit_of_pretty_N_char by done. f_equal. lia.
Qed.

Lemma pretty_N_go_head x s :
  (0 < x)%N -> exists d r, (d < 10)%N /\ pretty_N_go x s = String (pretty_N_char d) r.
Proof.
  revert s. induction (N.lt_wf_0 x) as [x _ IH]. intros s Hx.
  assert (Hmod : (x `mod` 10 < 10)%N) by (apply N.mod_lt; lia).
  rewrite pretty_N_go_step by done.
  destruct (decide (x `div` 10 = 0)%N) as [Hz|Hnz].
  - rewrite Hz, pretty_N_go_0. by eexists _, _.
  - apply IH; [apply N.div_lt; lia|by apply N.neq_0_lt_0].
Qed.

Lemma parse_int_unsigned c r v :
  is_space c = false -> c <> "+"%char -> c <> "-"%char ->
  scan_digits 0 false (String c r) = Some (v, "") -> parse_int (String c r) = Some v.
Proof.
  intros Hspace Hplus Hminus Hscan.
  destruct c as [[] [] [] [] [] [] [] []]; try discriminate Hspace; try done;
    unfold parse_int; cbn [skip_spaces]; rewrite Hspace; cbn -[scan_digits];
    rewrite Hscan; cbn; f_equal; lia.
Qed.

Lemma parse_int_pretty_pos (p : positive) :
  parse_int (pretty_N_go (N.pos p) "") = Some (Z.pos p) /\
  parse_int (String "-" (pretty_N_go (N.pos p) "")) = Some (Z.neg p).
Proof.
  destruct (scan_digits_pretty_N_go (N.pos p) ltac:(lia)) as [q Hq].
  destruct (pretty_N_go_head (N.pos p) "" ltac:(lia)) as (d & r & Hd & Hhead).
  assert (Hscan : scan_digits 0 false (pretty_N_go (N.pos p) "") = Some (Z.pos p, "")).
  { rewrite Hq. cbn. f_equal. f_equal. lia. }
  split.
  - rewrite Hhead in *. apply parse_int_unsigned; [| | |done];
      destruct (N_digit_cases d Hd) as [->|[->|[->|[->|[->|[->|[->|[->|[->| ->]]]]]]]]];
      done.
  - unfold parse_int. cbn [skip_spaces]. replace (is_space "-") with false by reflexivity.
    cbn -[scan_digits pretty_N_go]. rewrite Hscan. reflexivity.
Qed.

Lemma parse_int_pretty (z : Z) : parse_int (pretty z) = Some z.
Proof.
  destruct z as [|p|p].
  - reflexivity.
  - apply parse_int_pretty_pos.
  - apply parse_int_pretty_pos.
Qed.

Lemma member_key_ne_count i field : member_key i field <> "group_member_count".
Proof.
  unfold member_key. intros Heq. cbn in Heq. injection Heq as Heq.
  destruct i as [|p|p]; [done| |done].
  destruct (pretty_N_go_head (N.pos p) "" ltac:(lia)) as (d & r & Hd & Hhead).
  change (pretty (Z.pos p)) with (pretty_N_go (N.pos p) "") in Heq. rewrite Hhead in Heq.
  destruct (N_digit_cases d Hd) as [->|[->|[->|[->|[->|[->|[->|[->|[->| ->]]]]]]]]];
    discriminate Heq.
Qed.

Lemma _get_group_members_loop_agree info info' indices members :
  (forall i field, i ∈ indices -> field ∈ ["object"; "version"; "url"] ->
     info' !! member_key i field = info !! member_key i field) ->
  _get_group_members_loop info' indices members = _get_group_members_loop info indices members.
Proof.
  revert members. induction indices as [|i indices IH]; intros members Hagree; [done|].
  cbn. unfold info_getitem.
  rewrite !(Hagree i) by set_solver.
  destruct (info !! member_key i "object") as [o|]; [|done].
  destruct (info !! member_key i "version") as [v|]; [|done].
  destruct (info !! member_key i "url") as [u|]; [|done]. cbn.
  apply IH. intros j field Hj. apply Hagree. set_solver.
Qed.

(** X11: [_get_group_members] reads the member count and, for each index
    below it, the three keys of that member, and nothing else: two
    mappings whose counts read as the same integer and that agree on
    those keys give the same members or the same error.  Members beyond the
    count, and any other metadata, are ignored. *)
Theorem _get_group_members_reads_only_its_keys info info' count count' n :
  info !! "group_member_count" = Some count ->
  info' !! "group_member_count" = Some count' ->
  py_int count = Ok n -> py_int count' = Ok n ->
  (forall i field, (0 <= i < n)%Z -> field ∈ ["object"; "version"; "url"] ->
     info' !! member_key i field = info !! member_key i field) ->
  _get_group_members info' = _get_group_members info.
Proof.
  intros Hcount Hcount' Hint Hint' Hagree. unfold _get_group_members, info_getitem.
  rewrite Hcount, Hcount'. cbn. rewrite Hint, Hint'. cbn.
  apply _get_group_members_loop_agree. intros i field Hi. apply Hagree.
  unfold py_range in Hi. apply elem_of_seqZ in Hi. lia.
Qed.

(** X12: an integer written out in decimal is read back as that integer:
    [int(str(n))] is [n].  So the size computed by
    [hydrate_pvc_from_snapshot] and the members read by [_get_group_members]
    are the same whether the storage service gives [content_length] and
    [group_member_count] as integers or as their decimal text. *)
Theorem decimal_text_reads_as_the_integer (n : Z) :
  py_int (AStr (str_of_atom (AInt n))) = Ok n /\
  snapshot_size_gi (AStr (pretty n)) = snapshot_size_gi (AInt n) /\
  (forall info,
     _get_group_members (<["group_member_count" := AStr (pretty n)]> info)
     = _get_group_members (<["group_member_count" := AInt n]> info)).
Proof.
  assert (Hint : py_int (AStr (pretty n)) = Ok n).
  { cbn. by rewrite parse_int_pretty. }
  split; [exact Hint|]. split; [by apply snapshot_size_gi_int|].
  intros info. unfold _get_group_members, info_getitem.
  rewrite !lookup_insert_eq. cbn [result_bind]. rewrite Hint. cbn [py_int result_bind].
  apply _get_group_members_loop_agree. intros i field _ _.
  by rewrite !lookup_insert_ne by (symmetry; apply member_key_ne_count).
Qed.

Lemma _get_group_members_reads_only_its_keys_witness :
  _get_group_members sample_info_beyond = _get_group_members sample_info.
Proof.
  apply (_get_group_members_reads_only_its_keys sample_info sample_info_beyond
           (AStr "1") (AStr "1") 1%Z);
    try (vm_compute; reflexivity).
  intros i field Hi Hfield. assert (i = 0%Z) as -> by lia.
  repeat (apply elem_of_cons in Hfield as [->|Hfield]; [vm_compute; reflexivity|]).
  by apply elem_of_nil in Hfield.
Defined.

(** ** The size above 2^53 bytes *)

(** Rounding to 53 bits moves an integer by at most half a unit in the
    last place, which is at most the integer divided by 2^53. *)
Lemma round_to_double_near n :
  (2 ^ 53 <= n)%Z ->
  exists m k,
    round_to_double n = PyFloat m k /\ (1 <= k)%Z /\ k = (Z.log2 n - 52)%Z /\
    (0 < m <= 2 ^ 53)%Z /\
    (2 ^ 53 * (n - m * 2 ^ k) <= n)%Z /\ (2 ^ 53 * (m * 2 ^ k - n) <= n)%Z.
Proof.
  intros Hn. assert (Hpos : (0 < n)%Z) by lia.
  unfold round_to_double. rewrite (Z.abs_eq n) by lia.
  destruct (Z.ltb_spec n (2 ^ 53)) as [?|_]; [lia|]. cbv zeta.
  rewrite Z.sgn_pos by done.
  pose proof (Z.log2_spec n Hpos) as [Hlo Hhi].
  assert (HL : (53 <= Z.log2 n)%Z).
  { apply Z.log2_le_pow2; [done|]. exact Hn. }
  set (k := (Z.log2 n - 52)%Z) in *.
  assert (Hk : (1 <= k)%Z) by (unfold k; lia).
  set (P := (2 ^ k)%Z). set (Hf := (2 ^ (k - 1))%Z).
  assert (HP : P = (2 * Hf)%Z).
  { unfold P, Hf. replace k with (1 + (k - 1))%Z at 1 by lia.
    rewrite Z.pow_add_r by lia. reflexivity. }
  assert (HHf : (0 < Hf)%Z) by (apply Z.pow_pos_nonneg; lia).
  assert (HTH : (2 ^ 53 * Hf = 2 ^ Z.log2 n)%Z).
  { unfold Hf. rewrite <- Z.pow_add_r by lia. f_equal. unfold k. lia. }
  assert (HTP : (2 ^ 53 * P = 2 ^ Z.succ (Z.log2 n))%Z).
  { unfold P. rewrite <- Z.pow_add_r by lia. f_equal. unfold k. lia. }
  pose proof (Z.div_mod n P ltac:(lia)) as Hdm.
  pose proof (Z.mod_pos_bound n P ltac:(lia)) as Hr.
  set (q := (n / P)%Z) in *. set (r := (n mod P)%Z) in *.
  assert (Hq : (0 < q < 2 ^ 53)%Z).
  { split; [|nia]. assert (0 <= q)%Z by (apply Z.div_pos; lia). nia. }
  set (q' := if ((Hf <? r)%Z || ((r =? Hf)%Z && Z.odd q))%bool then (q + 1)%Z else q).
  exists (1 * q')%Z, k. split; [reflexivity|]. split; [done|]. split; [done|].
  assert (Hq' : (q' = q /\ r <= Hf \/ q' = q + 1 /\ Hf <= r)%Z).
  { unfold q'. destruct (Z.ltb_spec Hf r); cbn; [lia|].
    destruct (Z.eqb_spec r Hf); cbn; [|lia]. destruct (Z.odd q); lia. }
  rewrite Z.mul_1_l. split; [lia|].
  destruct Hq' as [[-> Hle]|[-> Hle]]; nia.
Qed.

(** X13: the size [hydrate_pvc_from_snapshot] asks for is the ceiling of
    the content length divided by 2^30 up to the rounding of the true
    division: for every content length from 0 to below 2^1024 bytes a size
    is computed, the volume of that size falls short of the content by at
    most the content length divided by 2^53 (by nothing up to 2^53 bytes),
    and exceeds it by less than one gibibyte plus that much. *)
Theorem snapshot_size_gi_within_rounding n :
  (0 <= n < 2 ^ 1024)%Z ->
  exists s,
    snapshot_size_gi (AInt n) = Ok s /\
    (2 ^ 53 * (n - 2 ^ 30 * s) <= n)%Z /\
    (2 ^ 53 * (2 ^ 30 * (s - 1) - n) < n)%Z /\
    (n < 2 ^ 53 -> 2 ^ 30 * (s - 1) < n <= 2 ^ 30 * s)%Z.
Proof.
  intros [Hn0 Hn]. destruct (Z.ltb_spec n (2 ^ 53)) as [Hsmall|Hbig].
  - exists (ceiling_div n (2 ^ 30)).
    rewrite snapshot_size_gi_exact by (rewrite Z.abs_eq; lia).
    pose proof (ceiling_div_spec n (2 ^ 30) ltac:(lia)) as Hc.
    split; [done|]. split; [lia|]. split; [lia|done].
  - destruct (round_to_double_near n Hbig) as (m & k & Hround & Hk & HkL & Hm & Hlo & Hhi).
    assert (HL : (Z.log2 n < 1024)%Z) by (apply Z.log2_lt_pow2; lia).
    unfold snapshot_size_gi; cbn [py_int result_bind]. unfold int_truediv_pow2.
    rewrite Hround. cbn [mant expo].
    assert (Hfits : (Z.abs m * 2 ^ (k - 10) < 2 ^ 1024)%Z).
    { rewrite Z.abs_eq by lia. destruct (Z.ltb_spec (k - 10) 0) as [Hneg|Hnn].
      - rewrite Z.pow_neg_r by done. rewrite Z.mul_0_r. by apply Z.pow_pos_nonneg.
      - apply Z.le_lt_trans with (2 ^ 53 * 2 ^ (k - 10))%Z.
        + apply Z.mul_le_mono_nonneg_r; [apply Z.pow_nonneg; lia|lia].
        + rewrite <- Z.pow_add_r by lia. apply Z.pow_lt_mono_r; lia. }
    destruct (Z.leb_spec (2 ^ 1024) (Z.abs m * 2 ^ (k - 10))) as [Hbad|_]; [lia|].
    cbn [result_bind]. unfold math_ceil, float_truediv_pow2; cbn [mant expo].
    destruct (Z.leb_spec 0 (k - 10 - 10 - 10)) as [Hexp|Hexp].
    + exists (m * 2 ^ (k - 10 - 10 - 10))%Z. split; [done|].
      assert (Hsame : (2 ^ 30 * (m * 2 ^ (k - 10 - 10 - 10)) = m * 2 ^ k)%Z).
      { replace k with (30 + (k - 10 - 10 - 10))%Z at 2 by lia.
        rewrite Z.pow_add_r by lia. ring. }
      assert (0 < m * 2 ^ k)%Z.
      { apply Z.mul_pos_pos; [lia|]. apply Z.pow_pos_nonneg; lia. }
      split; [lia|]. split; [lia|lia].
    + set (d := (2 ^ (- (k - 10 - 10 - 10)))%Z).
      assert (Hd : (0 < d)%Z) by (apply Z.pow_pos_nonneg; lia).
      pose proof (ceiling_div_spec m d Hd) as Hc. unfold ceiling_div in Hc.
      set (s := (- (- m / d))%Z) in *. exists s. split; [done|].
      assert (Hsame : (2 ^ k * d = 2 ^ 30)%Z).
      { unfold d. rewrite <- Z.pow_add_r by lia. f_equal. lia. }
      assert (HP : (0 < 2 ^ k)%Z) by (apply Z.pow_pos_nonneg; lia).
      assert (Hup : (m * 2 ^ k <= 2 ^ 30 * s)%Z) by nia.
      assert (Hdown : (2 ^ 30 * (s - 1) < m * 2 ^ k)%Z) by nia.
      split; [lia|]. split; [lia|lia].
Qed.

Lemma snapshot_size_gi_within_rounding_witness :
  exists s,
    snapshot_size_gi (AInt 1152921504606846977) = Ok s /\
    (2 ^ 53 * (1152921504606846977 - 2 ^ 30 * s) <= 1152921504606846977)%Z.
Proof.
  destruct (snapshot_size_gi_within_rounding 1152921504606846977
              ltac:(split; [discriminate|vm_compute; reflexivity]))
    as (s & Hsize & Hshort & _).
  by exists s.
Defined.

(** ** Taking snapshots *)

Section Snapshots.
Context `{Collaborators}.

(** X14: [snapshot_notebook] registers the version under [obj] when it is
    given and not empty, and under the name of the pod otherwise: an empty
    [obj] counts as none.  The version has the type [jupyter] and three
    parameters, of which [commit_title] ends in the value of [HOSTNAME], or
    in [None] when the variable is not set. *)
Theorem snapshot_notebook_subject r bucket w rok w1 u e2 :
  _get_client w = (Ok rok, w1) ->
  create_rok_bucket bucket rok (outside w1) = (Returns u, e2) ->
  let registers obj subject params :=
    snapshot_notebook r bucket obj w =
      match version_register rok bucket subject "jupyter" params e2 with
      | (Returns resp, e3) => (Ok resp, set_outside e3 w1)
      | (Throws x, e3) => (Raise (External x), set_outside e3 w1)
      end in
  exists params,
    registers None (get_pod_name (outside w1)) params /\
    registers (Some "") (get_pod_name (outside w1)) params /\
    (forall o, o <> "" -> registers (Some o) o params) /\
    dom params = {["namespace"; "commit_title"; "commit_message"]} /\
    params !! "namespace" = Some (get_namespace (outside w1)) /\
    params !! "commit_title" =
      Some ("Snapshot of notebook " +:+
            match getenv "HOSTNAME" (outside w1) with Some s => s | None => "None" end).
Proof.
  intros Hc Hb registers.
  set (hostname := match getenv "HOSTNAME" (outside w1) with
                   | Some s => AStr s
                   | None => ANone
                   end).
  exists (notebook_params hostname (get_namespace (outside w1))).
  split; [|split; [|split; [|split; [|split]]]].
  - apply (snapshot_notebook_run r bucket None w rok w1 u e2 Hc Hb).
  - apply (snapshot_notebook_run r bucket (Some "") w rok w1 u e2 Hc Hb).
  - intros o Ho. unfold registers.
    rewrite (snapshot_notebook_run r bucket (Some o) w rok w1 u e2 Hc Hb). cbv zeta.
    destruct (String.eqb_spec o ""); [done|]. reflexivity.
  - unfold notebook_params. rewrite !dom_insert_L, dom_singleton_L. set_solver.
  - unfold notebook_params. by rewrite !lookup_insert_ne, lookup_singleton_eq.
  - unfold notebook_params. rewrite lookup_insert_ne by done. rewrite lookup_insert_eq.
    unfold hostname. by destruct (getenv "HOSTNAME" (outside w1)).
Qed.

(** X15: the snapshot handlers create the bucket before they register
    anything.  When the bucket cannot be created, [snapshot_notebook] and
    [snapshot_pvc] raise what [create_rok_bucket] threw and stop there: no
    version is registered.  When it can, [snapshot_pvc] registers the
    version under the name of the claim, with the type [dataset] and that
    name as the [dataset] parameter. *)
Theorem snapshots_create_the_bucket_first r bucket w rok w1 :
  _get_client w = (Ok rok, w1) ->
  (forall x e2 obj pvc_name,
     create_rok_bucket bucket rok (outside w1) = (Throws x, e2) ->
     snapshot_notebook r bucket obj w = (Raise (External x), set_outside e2 w1) /\
     snapshot_pvc r pvc_name bucket w = (Raise (External x), set_outside e2 w1)) /\
  (forall u e2 pvc_name,
     create_rok_bucket bucket rok (outside w1) = (Returns u, e2) ->
     exists params,
       snapshot_pvc r pvc_name bucket w =
         match version_register rok bucket pvc_name "dataset" params e2 with
         | (Returns resp, e3) => (Ok resp, set_outside e3 w1)
         | (Throws x, e3) => (Raise (External x), set_outside e3 w1)
         end /\
       dom params = {["dataset"; "namespace"; "commit_title"; "commit_message"]} /\
       params !! "dataset" = Some pvc_name /\
       params !! "commit_title" = Some ("Snapshot of PVC " +:+ pvc_name)).
Proof.
  intros Hc. split.
  - intros x e2 obj pvc_name Hb. split.
    + unfold snapshot_notebook. rewrite (bind_ok _ _ _ _ _ Hc).
      unfold bind at 1, gets at 1. unfold bind at 1, gets at 1. cbv zeta.
      destruct obj as [o|]; [destruct (String.eqb o "")|];
        cbv [bind gets ret call]; cbn [outside set_outside]; by rewrite Hb.
    + unfold snapshot_pvc. rewrite (bind_ok _ _ _ _ _ Hc).
      unfold bind at 1, gets at 1. cbv zeta.
      cbv [bind call]. cbn [outside set_outside]. by rewrite Hb.
  - intros u e2 pvc_name Hb. exists (pvc_params pvc_name (get_namespace (outside w1))).
    split; [apply (snapshot_pvc_run r pvc_name bucket w rok w1 u e2 Hc Hb)|].
    unfold pvc_params. split; [|split].
    + rewrite !dom_insert_L, dom_singleton_L. set_solver.
    + by rewrite !lookup_insert_ne, lookup_singleton_eq.
    + rewrite lookup_insert_ne by done. by rewrite lookup_insert_eq.
Qed.
End Snapshots.

Lemma snapshot_notebook_subject_witness :
  (@snapshot_notebook (scripted script_no_hostname) sample_request "notebooks" (Some "")
     (scripted_world script_no_hostname)).1 = Ok "mynb-0".
Proof.
  pose proof (@snapshot_notebook_subject (scripted script_no_hostname) sample_request
    "notebooks" (scripted_world script_no_hostname) 1
    (@_get_client (scripted script_no_hostname) (scripted_world script_no_hostname)).2 tt
    ["import"; "RokClient"; "create_rok_bucket"]
    ltac:(vm_compute; reflexivity) ltac:(vm_compute; reflexivity)) as Hsubject.
  cbv zeta in Hsubject. destruct Hsubject as (params & _ & Hempty & _).
  rewrite Hempty. reflexivity.
Defined.

Lemma snapshots_create_the_bucket_first_witness :
  (@snapshot_pvc (scripted script_no_bucket) sample_request "data" "notebooks"
     (scripted_world script_no_bucket)).1 = Raise (External (sample_exn "HTTPError" false)).
Proof.
  pose proof (@snapshots_create_the_bucket_first (scripted script_no_bucket) sample_request
    "notebooks" (scripted_world script_no_bucket) 1
    (@_get_client (scripted script_no_bucket) (scripted_world script_no_bucket)).2
    ltac:(vm_compute; reflexivity)) as [Hstop _].
  destruct (Hstop (sample_exn "HTTPError" false) ["import"; "RokClient"; "create_rok_bucket"]
              None "data" ltac:(vm_compute; reflexivity)) as [_ Hpvc].
  rewrite Hpvc. reflexivity.
Defined.

(** ** Handlers and the client *)

Section NeedTheClient.
Context `{Collaborators}.

(** X16: every handler other than [check_rok_availability] starts by
    obtaining the client, and when that fails it raises what [_get_client]
    raised and does nothing else: no collaborator is called, nothing is
    allocated, and the exception is not turned into an RPC-typed
    condition. *)
Theorem handlers_need_the_client w e w1 :
  _get_client w = (Raise e, w1) ->
  (forall r task_id bucket, get_task r task_id bucket w = (Raise e, w1)) /\
  (forall r bucket obj, snapshot_notebook r bucket obj w = (Raise e, w1)) /\
  (forall r pvc_name bucket, snapshot_pvc r pvc_name bucket w = (Raise e, w1)) /\
  (forall r obj version name bucket,
     hydrate_pvc_from_snapshot r obj version name bucket w = (Raise e, w1)) /\
  (forall r bucket obj version volumes,
     replace_cloned_volumes r bucket obj version volumes w = (Raise e, w1)) /\
  is_rpc_error e = false.
Proof.
  intros Hc. split; [|split; [|split; [|split; [|split]]]].
  - intros r task_id bucket. unfold get_task. by apply bind_raise.
  - intros r bucket obj. unfold snapshot_notebook. by apply bind_raise.
  - intros r pvc_name bucket. unfold snapshot_pvc. by apply bind_raise.
  - intros r obj version name bucket. unfold hydrate_pvc_from_snapshot. by apply bind_raise.
  - intros r bucket obj version volumes. unfold replace_cloned_volumes. by apply bind_raise.
  - by apply (raises_only_get_client (fun e => is_rpc_error e = false)) in Hc.
Qed.

(** X17: with the client cached, [get_task] is one call of [task_get] on
    the cached client, for the bucket and then the task id: its answer is
    returned, what it throws is passed on, and nothing in the process
    changes but the outside world.  The request plays no part. *)
Theorem get_task_asks_the_cached_client r task_id bucket w c :
  world_ok w -> _client w = Some c ->
  get_task r task_id bucket w =
    match task_get c bucket task_id (outside w) with
    | (Returns t, e) => (Ok t, set_outside e w)
    | (Throws x, e) => (Raise (External x), set_outside e w)
    end /\
  forall r', get_task r' task_id bucket w = get_task r task_id bucket w.
Proof.
  intros Hw Hc. split; [|done]. unfold get_task.
  rewrite (bind_ok _ _ _ _ _ (_get_client_cached w c Hw Hc)). unfold call.
  by destruct (task_get c bucket task_id (outside w)) as [[t|x] e].
Qed.

(** X18: [replace_cloned_volumes] reads the members of the group before
    it looks at any volume, so metadata that [_get_group_members] rejects
    makes it raise that error whatever the volumes are, even when none is a
    clone and when there are none; the result list is not allocated.  An
    exception of [version_info] is passed on likewise. *)
Theorem replace_cloned_volumes_reads_members_first r bucket obj version w rok w1 :
  _get_client w = (Ok rok, w1) ->
  (forall x e2 volumes,
     version_info rok bucket obj version (outside w1) = (Throws x, e2) ->
     replace_cloned_volumes r bucket obj version volumes w
     = (Raise (External x), set_outside e2 w1)) /\
  (forall info e2 e volumes,
     version_info rok bucket obj version (outside w1) = (Returns info, e2) ->
     _get_group_members info = Raise e ->
     replace_cloned_volumes r bucket obj version volumes w = (Raise e, set_outside e2 w1) /\
     is_rpc_error e = false).
Proof.
  intros Hc. split.
  - intros x e2 volumes Hv. unfold replace_cloned_volumes. rewrite (bind_ok _ _ _ _ _ Hc).
    unfold bind at 1, call at 1. by rewrite Hv.
  - intros info e2 e volumes Hv Hm. split.
    + unfold replace_cloned_volumes. rewrite (bind_ok _ _ _ _ _ Hc).
      unfold bind at 1, call at 1. rewrite Hv. unfold bind at 1, lift at 1. by rewrite Hm.
    + by apply (_get_group_members_raises (fun e => is_rpc_error e = false)) in Hm.
Qed.
End NeedTheClient.

Lemma handlers_need_the_client_witness :
  (@get_task (sample ClientBroken) sample_request (AInt 7) "notebooks"
     (sample_world ClientBroken)).1 = Raise (External (sample_exn "ConnectionError" false)).
Proof.
  pose proof (@handlers_need_the_client (sample ClientBroken) (sample_world ClientBroken)
    (External (sample_exn "ConnectionError" false))
    (@_get_client (sample ClientBroken) (sample_world ClientBroken)).2
    ltac:(vm_compute; reflexivity)) as [Htask _].
  by rewrite Htask.
Defined.

Lemma get_task_asks_the_cached_client_witness :
  (@get_task (sample NoFault) sample_request (AInt 7) "notebooks"
     (@_get_client (sample NoFault) (sample_world NoFault)).2).1 = Ok "task".
Proof.
  pose proof (@get_task_asks_the_cached_client (sample NoFault) sample_request (AInt 7)
    "notebooks" (@_get_client (sample NoFault) (sample_world NoFault)).2 1
    ltac:(vm_compute; reflexivity) ltac:(vm_compute; reflexivity)) as [Hrun _].
  rewrite Hrun. reflexivity.
Defined.

Lemma replace_cloned_volumes_reads_members_first_witness :
  (@replace_cloned_volumes (scripted script_no_value) sample_request "notebooks" "mynb" "v3" []
     (scripted_world script_no_value)).1 = Raise (KeyError "group_member_count").
Proof.
  pose proof (@replace_cloned_volumes_reads_members_first (scripted script_no_value)
    sample_request "notebooks" "mynb" "v3" (scripted_world script_no_value) 1
    (@_get_client (scripted script_no_value) (scripted_world script_no_value)).2
    ltac:(vm_compute; reflexivity)) as [_ Hmembers].
  destruct (Hmembers ∅ ["import"; "RokClient"; "version_info"]
              (KeyError "group_member_count") []
              ltac:(vm_compute; reflexivity) ltac:(vm_compute; reflexivity)) as [Hrun _].
  by rewrite Hrun.
Defined.

(** ** Larger snapshots, larger volumes *)

Lemma ceiling_div_mono a b d : (0 < d)%Z -> (a <= b)%Z -> (ceiling_div a d <= ceiling_div b d)%Z.
Proof.
  intros Hd Hab. unfold ceiling_div.
  assert ((- b) / d <= (- a) / d)%Z by (apply Z.div_le_mono; lia). lia.
Qed.

Lemma ceiling_div_mul a d : (0 < d)%Z -> ceiling_div (d * a) d = a.
Proof.
  intros Hd. unfold ceiling_div. rewrite <- Z.mul_opp_r, Z.mul_comm, Z.div_mul by lia. lia.
Qed.

(** The shape of a rounded integer of 54 bits or more: a significand [q]
    of 53 bits, or its successor, at the exponent that leaves 53 bits. *)
Lemma round_to_double_shape n :
  (2 ^ 53 <= n)%Z ->
  let k := (Z.log2 n - 52)%Z in
  let q := (n / 2 ^ k)%Z in
  let r := (n mod 2 ^ k)%Z in
  let up := ((2 ^ (k - 1) <? r)%Z || ((r =? 2 ^ (k - 1))%Z && Z.odd q))%bool in
  round_to_double n = PyFloat (if up then q + 1 else q) k /\
  (1 <= k)%Z /\ (2 ^ 52 <= q < 2 ^ 53)%Z /\ (0 <= r < 2 ^ k)%Z /\ n = (2 ^ k * q + r)%Z.
Proof.
  intros Hn k q r up. assert (Hpos : (0 < n)%Z) by lia.
  pose proof (Z.log2_spec n Hpos) as [Hlo Hhi].
  assert (HL : (53 <= Z.log2 n)%Z) by (apply Z.log2_le_pow2; [done|exact Hn]).
  assert (Hk : (1 <= k)%Z) by (unfold k; lia).
  assert (HP : (0 < 2 ^ k)%Z) by (apply Z.pow_pos_nonneg; lia).
  assert (Hlo' : (2 ^ 52 * 2 ^ k <= n)%Z).
  { rewrite <- Z.pow_add_r by lia. replace (52 + k)%Z with (Z.log2 n) by (unfold k; lia).
    done. }
  assert (Hhi' : (n < 2 ^ 53 * 2 ^ k)%Z).
  { rewrite <- Z.pow_add_r by lia.
    replace (53 + k)%Z with (Z.succ (Z.log2 n)) by (unfold k; lia). done. }
  pose proof (Z.div_mod n (2 ^ k) ltac:(lia)) as Hdm.
  pose proof (Z.mod_pos_bound n (2 ^ k) HP) as Hr.
  fold q r in Hdm, Hr.
  split; [|split; [done|split; [nia|split; [done|done]]]].
  unfold round_to_double. rewrite (Z.abs_eq n) by lia.
  destruct (Z.ltb_spec n (2 ^ 53)) as [?|_]; [lia|]. cbv zeta.
  rewrite Z.sgn_pos by done. fold k. fold q. fold r. fold up.
  f_equal. lia.
Qed.

(** The integer that the rounded content length stands for. *)
Lemma round_to_double_mono n n' :
  (0 <= n <= n')%Z ->
  (0 <= expo (round_to_double n))%Z /\ (0 <= expo (round_to_double n'))%Z /\
  (mant (round_to_double n) * 2 ^ expo (round_to_double n)
   <= mant (round_to_double n') * 2 ^ expo (round_to_double n'))%Z.
Proof.
  intros [Hn0 Hle].
  destruct (Z.ltb_spec n' (2 ^ 53)) as [Hsmall'|Hbig'].
  { unfold round_to_double. rewrite !Z.abs_eq by lia.
    destruct (Z.ltb_spec n (2 ^ 53)) as [_|?]; [|lia].
    destruct (Z.ltb_spec n' (2 ^ 53)) as [_|?]; [|lia]. cbn. lia. }
  pose proof (round_to_double_shape n' Hbig') as Hshape'. cbv zeta in Hshape'.
  destruct Hshape' as (-> & Hk' & Hq' & Hr' & Hn').
  set (k' := (Z.log2 n' - 52)%Z) in *. set (q' := (n' / 2 ^ k')%Z) in *.
  set (r' := (n' mod 2 ^ k')%Z) in *.
  set (up' := ((2 ^ (k' - 1) <? r')%Z || ((r' =? 2 ^ (k' - 1))%Z && Z.odd q'))%bool) in *.
  cbn [mant expo].
  assert (HP' : (2 <= 2 ^ k')%Z).
  { change 2%Z with (2 ^ 1)%Z at 1. apply Z.pow_le_mono_r; lia. }
  assert (Hlow' : (2 ^ 52 * 2 ^ k' <= (if up' then q' + 1 else q') * 2 ^ k')%Z).
  { destruct up'; nia. }
  destruct (Z.ltb_spec n (2 ^ 53)) as [Hsmall|Hbig].
  { assert (round_to_double n = PyFloat n 0) as ->.
    { unfold round_to_double. rewrite Z.abs_eq by lia.
      by destruct (Z.ltb_spec n (2 ^ 53)) as [_|?]; [|lia]. }
    cbn [mant expo]. split; [done|]. split; [lia|]. rewrite Z.pow_0_r, Z.mul_1_r. nia. }
  pose proof (round_to_double_shape n Hbig) as Hshape. cbv zeta in Hshape.
  destruct Hshape as (-> & Hk & Hq & Hr & Hn).
  set (k := (Z.log2 n - 52)%Z) in *. set (q := (n / 2 ^ k)%Z) in *.
  set (r := (n mod 2 ^ k)%Z) in *.
  set (up := ((2 ^ (k - 1) <? r)%Z || ((r =? 2 ^ (k - 1))%Z && Z.odd q))%bool) in *.
  cbn [mant expo]. split; [lia|]. split; [lia|].
  assert (Hkk : (k <= k')%Z) by (unfold k, k'; pose proof (Z.log2_le_mono n n' Hle); lia).
  assert (HP : (0 < 2 ^ k)%Z) by (apply Z.pow_pos_nonneg; lia).
  destruct (decide (k = k')) as [Heq|Hne].
  - assert (k' = k) as Hk'k by done. clearbody k'. subst k'.
    assert (Hqq : (q <= q')%Z) by (apply Z.div_le_mono; lia).
    apply Z.mul_le_mono_nonneg_r; [lia|].
    destruct (decide (q = q')) as [Hqe|Hqne].
    + assert (Hrr : (r <= r')%Z) by nia.
      assert (Hup : up = true -> up' = true).
      { unfold up, up'. rewrite <- Hqe.
        destruct (Z.ltb_spec (2 ^ (k - 1)) r); cbn.
        - intros _. destruct (Z.ltb_spec (2 ^ (k - 1)) r'); [done|lia].
        - destruct (Z.eqb_spec r (2 ^ (k - 1))); cbn; [|done]. intros Hodd.
          destruct (Z.ltb_spec (2 ^ (k - 1)) r'); [done|]. cbn.
          destruct (Z.eqb_spec r' (2 ^ (k - 1))); [done|lia]. }
      destruct up; [rewrite Hup by done; lia|]. destruct up'; lia.
    + destruct up, up'; lia.
  - assert (Hstep : (2 ^ 53 * 2 ^ k <= 2 ^ 52 * 2 ^ k')%Z).
    { rewrite <- !Z.pow_add_r by lia. apply Z.pow_le_mono_r; lia. }
    assert ((if up then q + 1 else q) * 2 ^ k <= 2 ^ 53 * 2 ^ k)%Z.
    { apply Z.mul_le_mono_nonneg_r; [lia|]. destruct up; lia. }
    lia.
Qed.

(** The size is the ceiling of the rounded content length divided by
    2^30. *)
Lemma snapshot_size_gi_rounded n :
  (0 <= n < 2 ^ 1024)%Z ->
  snapshot_size_gi (AInt n)
  = Ok (ceiling_div (mant (round_to_double n) * 2 ^ expo (round_to_double n)) (2 ^ 30)).
Proof.
  intros [Hn0 Hn]. destruct (Z.ltb_spec n (2 ^ 53)) as [Hsmall|Hbig].
  - rewrite snapshot_size_gi_exact by (rewrite Z.abs_eq; lia).
    unfold round_to_double. rewrite Z.abs_eq by lia.
    destruct (Z.ltb_spec n (2 ^ 53)) as [_|?]; [|lia]. cbn [mant expo].
    by rewrite Z.pow_0_r, Z.mul_1_r.
  - destruct (round_to_double_near n Hbig) as (m & k & Hround & Hk & HkL & Hm & _ & _).
    assert (HL : (Z.log2 n < 1024)%Z) by (apply Z.log2_lt_pow2; lia).
    unfold snapshot_size_gi; cbn [py_int result_bind]. unfold int_truediv_pow2.
    rewrite Hround. cbn [mant expo].
    assert (Hfits : (Z.abs m * 2 ^ (k - 10) < 2 ^ 1024)%Z).
    { rewrite Z.abs_eq by lia. destruct (Z.ltb_spec (k - 10) 0) as [Hneg|Hnn].
      - rewrite Z.pow_neg_r by done. rewrite Z.mul_0_r. by apply Z.pow_pos_nonneg.
      - apply Z.le_lt_trans with (2 ^ 53 * 2 ^ (k - 10))%Z.
        + apply Z.mul_le_mono_nonneg_r; [apply Z.pow_nonneg; lia|lia].
        + rewrite <- Z.pow_add_r by lia. apply Z.pow_lt_mono_r; lia. }
    destruct (Z.leb_spec (2 ^ 1024) (Z.abs m * 2 ^ (k - 10))) as [Hbad|_]; [lia|].
    cbn [result_bind]. unfold math_ceil, float_truediv_pow2; cbn [mant expo]. f_equal.
    destruct (Z.leb_spec 0 (k - 10 - 10 - 10)) as [Hexp|Hexp].
    + replace k with (30 + (k - 10 - 10 - 10))%Z at 2 by lia.
      rewrite Z.pow_add_r by lia.
      replace (m * (2 ^ 30 * 2 ^ (k - 10 - 10 - 10)))%Z
        with (2 ^ 30 * (m * 2 ^ (k - 10 - 10 - 10)))%Z by ring.
      by rewrite ceiling_div_mul.
    + unfold ceiling_div. f_equal.
      replace (2 ^ 30)%Z with (2 ^ (- (k - 10 - 10 - 10)) * 2 ^ k)%Z
        by (rewrite <- Z.pow_add_r by lia; f_equal; lia).
      rewrite <- Z.mul_opp_l.
      rewrite Z.div_mul_cancel_r; [done| |]; apply Z.pow_nonzero; lia.
Qed.

(** X19: a larger snapshot never gets a smaller volume: between 0 and
    2^1024 bytes the size computed by [hydrate_pvc_from_snapshot] does not
    decrease when the content length grows, rounding included. *)
Theorem snapshot_size_gi_monotone n n' :
  (0 <= n <= n')%Z -> (n' < 2 ^ 1024)%Z ->
  exists s s',
    snapshot_size_gi (AInt n) = Ok s /\ snapshot_size_gi (AInt n') = Ok s' /\ (s <= s')%Z.
Proof.
  intros Hle Hn'. rewrite !snapshot_size_gi_rounded by lia. eexists _, _.
  split; [done|]. split; [done|]. apply ceiling_div_mono; [done|].
  by apply round_to_double_mono.
Qed.

Lemma snapshot_size_gi_monotone_witness :
  exists s s',
    snapshot_size_gi (AInt 9007199254740993) = Ok s /\
    snapshot_size_gi (AInt 9007199254740994) = Ok s' /\ (s <= s')%Z.
Proof.
  apply (snapshot_size_gi_monotone 9007199254740993 9007199254740994 ltac:(lia)).
  vm_compute. reflexivity.
Defined.

(** ** What resolving a clone reads of the members *)

Section MembersRead.
Context `{Collaborators}.

Lemma _get_cloned_volume_loop_same volume name members members' :
  Forall2 (fun m m' => member_object m = member_object m' /\
                       member_rok_url m = member_rok_url m') members members' ->
  _get_cloned_volume_loop volume name members = _get_cloned_volume_loop volume name members'.
Proof.
  induction 1 as [|m m' members members' [Hobj Hurl] _ IH]; cbn; [done|].
  by rewrite Hobj, Hurl, IH.
Qed.

Lemma _get_cloned_volume_loop_upto volume name before member after w :
  atom_eq_str (member_object member) name = true ->
  _get_cloned_volume_loop volume name (before ++ member :: after) w
  = _get_cloned_volume_loop volume name (before ++ [member]) w.
Proof.
  intros Hmatch. induction before as [|b before IH]; cbn.
  - by rewrite Hmatch.
  - by destruct (atom_eq_str (member_object b) name).
Qed.

(** X20: resolving a clone reads the object names and the origin URLs of
    the members and nothing else.  The version ids that
    [_get_group_members] collects play no part: member lists that agree on
    names and URLs give the same result.  Nor do the members that follow
    the first match, which can be dropped without changing the result. *)
Theorem _get_cloned_volume_reads_names_and_urls volume obj members w :
  (forall members',
     Forall2 (fun m m' => member_object m = member_object m' /\
                          member_rok_url m = member_rok_url m') members members' ->
     _get_cloned_volume volume obj members' w = _get_cloned_volume volume obj members w) /\
  (forall (l : loc) d nm i member,
     volume = VRef l -> store w !! l = Some (ODict d) -> d !! "name" = Some nm ->
     first_match (obj +:+ "_" +:+ str_of_val (store w) nm) members i member ->
     _get_cloned_volume volume obj (take (S i) members) w
     = _get_cloned_volume volume obj members w).
Proof.
  split.
  - intros members' Hsame. unfold _get_cloned_volume, bind, py_str, gets.
    destruct (getitem volume "name" w) as [[name|e] w1]; [|done].
    by rewrite (_get_cloned_volume_loop_same _ _ _ _ Hsame).
  - intros l d nm i member -> Hl Hname Hfirst.
    destruct (first_match_split _ _ _ _ Hfirst) as (before & after & Hmembers & Hbefore).
    destruct Hfirst as (Hi & Hmatch & Hfirst).
    assert (Hlen : length before = i).
    { destruct (Nat.lt_trichotomy (length before) i) as [Hlt|[Heq|Hgt]]; [|done|]; exfalso.
      - assert (atom_eq_str (member_object member)
                  (obj +:+ "_" +:+ str_of_val (store w) nm) = false); [|congruence].
        apply (Hfirst (length before)); [done|]. rewrite Hmembers.
        by apply list_lookup_middle.
      - rewrite Hmembers, lookup_app_l in Hi by done.
        apply (Forall_lookup_1 _ _ _ _ Hbefore) in Hi. congruence. }
    assert (Htake : take (S i) members = before ++ [member]).
    { rewrite Hmembers. replace (S i) with (length before + 1) by lia.
      rewrite take_app_add'; [|done]. done. }
    rewrite Htake, Hmembers. unfold _get_cloned_volume, bind, py_str, gets.
    rewrite (getitem_run _ _ _ _ _ Hl Hname).
    by rewrite (_get_cloned_volume_loop_upto _ _ _ _ after).
Qed.
End MembersRead.

(** ** The keys of the members *)

Lemma list_ascii_of_string_app s t :
  list_ascii_of_string (s +:+ t) = list_ascii_of_string s ++ list_ascii_of_string t.
Proof.
  induction s as [|c s IH]; [done|].
  change (c :: list_ascii_of_string (s +:+ t)
          = c :: (list_ascii_of_string s ++ list_ascii_of_string t)).
  by f_equal.
Qed.

Lemma list_ascii_of_string_inj s t :
  list_ascii_of_string s = list_ascii_of_string t -> s = t.
Proof.
  intros Heq. rewrite <- (string_of_list_ascii_of_string s), Heq.
  apply string_of_list_ascii_of_string.
Qed.

Lemma string_app_inv_tail s t u : s +:+ u = t +:+ u -> s = t.
Proof.
  intros Heq. apply list_ascii_of_string_inj.
  apply (f_equal list_ascii_of_string) in Heq. rewrite !list_ascii_of_string_app in Heq.
  by apply app_inv_tail in Heq.
Qed.

(** Two field names that end the same text are the same name. *)
Lemma member_field_suffix s t f g :
  f ∈ ["object"; "version"; "url"] -> g ∈ ["object"; "version"; "url"] ->
  s +:+ "_" +:+ f = t +:+ "_" +:+ g -> f = g.
Proof.
  intros Hf Hg Heq. apply (f_equal list_ascii_of_string) in Heq.
  rewrite !list_ascii_of_string_app in Heq.
  assert (Hsuffix :
    (list_ascii_of_string "_" ++ list_ascii_of_string f) `suffix_of`
      (list_ascii_of_string "_" ++ list_ascii_of_string g) \/
    (list_ascii_of_string "_" ++ list_ascii_of_string g) `suffix_of`
      (list_ascii_of_string "_" ++ list_ascii_of_string f)).
  { apply (suffix_weak_total _ _
             (list_ascii_of_string s ++ list_ascii_of_string "_" ++ list_ascii_of_string f)).
    - by eexists.
    - rewrite Heq. by eexists. }
  repeat (apply elem_of_cons in Hf as [->|Hf]); [| | |by apply elem_of_nil in Hf];
    (repeat (apply elem_of_cons in Hg as [->|Hg]); [| | |by apply elem_of_nil in Hg]);
    try done; exfalso;
    destruct Hsuffix as [Hs|Hs]; apply suffix_length in Hs as Hlen; cbn in Hlen; try lia;
    destruct Hs as [k Hk]; cbn in Hk;
    repeat (destruct k as [|? k]; try discriminate Hk).
Qed.

Lemma member_key_inj i j f g :
  f ∈ ["object"; "version"; "url"] -> g ∈ ["object"; "version"; "url"] ->
  member_key i f = member_key j g -> i = j /\ f = g.
Proof.
  intros Hf Hg Heq. unfold member_key in Heq.
  apply (inj (String.append "group_member_")) in Heq.
  pose proof (member_field_suffix _ _ _ _ Hf Hg Heq) as ->. split; [|done].
  apply string_app_inv_tail in Heq. by apply (inj pretty) in Heq.
Qed.

Lemma members_info_member_at members i (k : nat) m :
  members !! k = Some m -> member_at (members_info i members) (i + Z.of_nat k) = Some m.
Proof.
  revert i k. induction members as [|m0 members IH]; intros i k Hk; [done|].
  cbn [members_info]. unfold member_at. destruct k as [|k].
  - injection Hk as ->. rewrite Z.add_0_r.
    rewrite lookup_insert_eq.
    rewrite lookup_insert_ne, lookup_insert_eq
      by (intros Heq; apply member_key_inj in Heq as [_ Hfg];
          [discriminate Hfg|set_solver|set_solver]).
    rewrite !lookup_insert_ne, lookup_insert_eq
      by (intros Heq; apply member_key_inj in Heq as [_ Hfg];
          [discriminate Hfg|set_solver|set_solver]).
    by destruct m.
  - cbn in Hk. specialize (IH (i + 1)%Z k Hk). unfold member_at in IH.
    replace (i + 1 + Z.of_nat k)%Z with (i + Z.of_nat (S k))%Z in IH by lia.
    rewrite !lookup_insert_ne
      by (intros Heq; apply member_key_inj in Heq as [? _]; [lia|set_solver|set_solver]).
    exact IH.
Qed.

(** X21: the keys of the metadata are unambiguous.  The key of a field of
    the member at one index is the key of no other field and of no other
    index, and none is the key of the count.  So the metadata that lists
    some members, each under its own index, with their number as the count,
    is read back by [_get_group_members] as exactly those members, in
    order. *)
Theorem _get_group_members_reads_back members :
  (forall i j f g,
     f ∈ ["object"; "version"; "url"] -> g ∈ ["object"; "version"; "url"] ->
     member_key i f = member_key j g -> i = j /\ f = g) /\
  (forall i f, member_key i f <> "group_member_count") /\
  _get_group_members (metadata_of members) = Ok members.
Proof.
  split; [apply member_key_inj|]. split; [apply member_key_ne_count|].
  assert (Hat : forall k : nat, k < length members ->
            member_at (metadata_of members) (Z.of_nat k) = members !! k).
  { intros k Hk. destruct (lookup_lt_is_Some_2 members k Hk) as [m Hm].
    rewrite Hm, <- (members_info_member_at members 0 k m Hm).
    unfold metadata_of, member_at.
    by rewrite !lookup_insert_ne by (symmetry; apply member_key_ne_count). }
  destruct (_get_group_members_ok (metadata_of members)
              (AInt (Z.of_nat (length members))) (Z.of_nat (length members)))
    as (read & Hrun & Hlen & Hread).
  - unfold metadata_of. by rewrite lookup_insert_eq.
  - done.
  - intros i Hi. rewrite <- (Z2Nat.id i) by lia. rewrite Hat by lia.
    apply lookup_lt_is_Some_2. lia.
  - rewrite Hrun. f_equal. rewrite Nat2Z.id in Hlen, Hread.
    apply list_eq_same_length with (length members); [done|done|].
    intros k x y Hk Hx Hy. rewrite Hread, Hat in Hx by done. congruence.
Qed.
